(** * component-api: authentication, CSRF and sanitisation gateway

    A shallow embedding of the TypeScript sources
      - src/middleware/auth.ts   (auth gateway, rate limiter, CSRF guard)
      - src/jwt.ts               (JWTManager)
      - src/utils/validation.ts  (Zod schemas and the three sanitisers)
    followed by the properties proved about them.

    JavaScript strings are sequences of UTF-16 code units, written
    here as [list N]; [js "..."] turns an ASCII literal into one. *)

From Stdlib Require Import ZArith NArith List String Ascii Bool Lia.
From Stdlib Require Import Strings.Byte.
From stdpp Require Import base option list gmap.
Import ListNotations.

Set Warnings "-register-all".

Local Open Scope N_scope.

(* ================================================================== *)
(** ** JavaScript strings                                              *)
(* ================================================================== *)

Abbreviation jsstring := (list N).

Module JS.

Definition js (s : string) : jsstring :=
  List.map N_of_ascii (list_ascii_of_string s).

(** The double quote, which the literals used here leave out. *)
Definition dq : N := 34.

Definition str_eqb (a b : jsstring) : bool := bool_decide (a = b).

(** [!s] on a string: only the empty string is falsy. *)
Definition truthy (s : jsstring) : bool :=
  match s with [] => false | _ => true end.

(** [!x] for a [string | null | undefined] value. *)
Definition otruthy (s : option jsstring) : bool :=
  match s with Some s => truthy s | None => false end.

Definition is_upper (c : N) : bool := (65 <=? c) && (c <=? 90).
Definition is_lower (c : N) : bool := (97 <=? c) && (c <=? 122).
Definition is_digit (c : N) : bool := (48 <=? c) && (c <=? 57).

Definition upper_char (c : N) : N := if is_lower c then c - 32 else c.
Definition lower_char (c : N) : N := if is_upper c then c + 32 else c.

(** [String.prototype.toUpperCase] and [toLowerCase] on the Basic Latin
    letters.  Every call site applies them either to text matched by an
    ASCII-only character class, to an HTTP method token, or only to
    compare the result with ASCII needles that no non-ASCII letter maps
    into contiguously. *)
Definition toUpperCase (s : jsstring) : jsstring := List.map upper_char s.
Definition toLowerCase (s : jsstring) : jsstring := List.map lower_char s.

Fixpoint startsWith (s p : jsstring) : bool :=
  match p, s with
  | [], _ => true
  | c :: p', d :: s' => (c =? d) && startsWith s' p'
  | _ :: _, [] => false
  end.

Fixpoint includes (s needle : jsstring) : bool :=
  startsWith s needle ||
  match s with
  | [] => false
  | _ :: s' => includes s' needle
  end.

Fixpoint endsWith_char (s : jsstring) (c : N) : bool :=
  match s with
  | [] => false
  | [d] => d =? c
  | _ :: s' => endsWith_char s' c
  end.

(** [Array.prototype.includes] on an array of strings. *)
Definition arr_includes (l : list jsstring) (s : jsstring) : bool :=
  existsb (str_eqb s) l.

(** WhiteSpace and LineTerminator code points: what [trim] strips and
    what the regular-expression class [\s] matches. *)
Definition is_space (c : N) : bool :=
  ((9 <=? c) && (c <=? 13)) || (c =? 32) || (c =? 160) || (c =? 5760) ||
  ((8192 <=? c) && (c <=? 8202)) || (c =? 8232) || (c =? 8233) ||
  (c =? 8239) || (c =? 8287) || (c =? 12288) || (c =? 65279).

Fixpoint trimStart (s : jsstring) : jsstring :=
  match s with
  | c :: s' => if is_space c then trimStart s' else s
  | [] => []
  end.

Definition trimEnd (s : jsstring) : jsstring := rev (trimStart (rev s)).

Definition trim (s : jsstring) : jsstring := trimEnd (trimStart s).

(** [s.split(c)] for a one-character separator. *)
Fixpoint split (c : N) (s : jsstring) : list jsstring :=
  match s with
  | [] => [[]]
  | d :: s' =>
      if d =? c then [] :: split c s'
      else match split c s' with
           | p :: ps => (d :: p) :: ps
           | [] => [[d]]
           end
  end.

(** [arr.join(sep)]. *)
Fixpoint join (sep : jsstring) (l : list jsstring) : jsstring :=
  match l with
  | [] => []
  | [x] => x
  | x :: l' => x ++ sep ++ join sep l'
  end.

(** [s.substring(n)]. *)
Definition substring_from (n : nat) (s : jsstring) : jsstring := skipn n s.

(** [x || dflt] for a [string | null] value. *)
Definition or_else (x : option jsstring) (dflt : jsstring) : jsstring :=
  match x with
  | Some s => if truthy s then s else dflt
  | None => dflt
  end.

End JS.
Export JS.

(* ================================================================== *)
(** ** JSON values                                                     *)
(* ================================================================== *)

(** A number [JNum m e] is the binary64 value nearest to [m * 10^e].
    The parser gives the shortest decimal of the value, with [e <= 0]
    and [m] no multiple of ten unless [e = 0], so that an integer is
    [JNum z 0] and equal numbers are equal terms; a literal beyond the
    range is read as [JInfinity].  The two zeros are one value, no
    operation of the sources telling them apart. *)
Inductive json : Type :=
| JNull
| JBool (b : bool)
| JNum (m e : Z)
| JInfinity (negative : bool)
| JStr (s : jsstring)
| JArr (l : list json)
| JObj (fields : list (jsstring * json)).

Abbreviation JInt z := (JNum z 0%Z).

(** Own-property lookup on an object built by [JSON.parse] or by an
    object literal: a later duplicate key overwrites an earlier one. *)
Fixpoint obj_get (fields : list (jsstring * json)) (k : jsstring) : option json :=
  match fields with
  | [] => None
  | (k', v) :: rest =>
      match obj_get rest k with
      | Some v' => Some v'
      | None => if str_eqb k' k then Some v else None
      end
  end.

(* ================================================================== *)
(** ** Requests, environment, responses                                *)
(* ================================================================== *)

(** The header list of a Fetch [Headers] object. *)
Definition Headers := list (jsstring * jsstring).

Record Request := mkRequest {
  method : jsstring;
  headers : Headers
}.

(** [headers.get(name)]: names compare ASCII-case-insensitively, the
    values of repeated headers are joined with a comma and a space,
    and an absent header gives [null]. *)
Definition headers_get (h : Headers) (name : jsstring) : option jsstring :=
  match List.filter (fun kv => str_eqb (toLowerCase (fst kv)) (toLowerCase name)) h with
  | [] => None
  | vs => Some (join (js ", ") (List.map snd vs))
  end.

Record Response := mkResponse {
  status : Z;
  resp_headers : Headers;
  body : json
}.

Definition json_headers : Headers := [(js "Content-Type", js "application/json")].

(* ================================================================== *)
(** ** src/middleware/auth.ts: rate limiter                            *)
(* ================================================================== *)

Module AuthRateLimiter.

Record AttemptRecord := mkRecord {
  count : Z;
  lastAttempt : Z
}.

(** The private [attempts] map. *)
Abbreviation t := (gmap jsstring AttemptRecord).

Definition maxAttempts : Z := 5.
Definition windowMs : Z := 15 * 60 * 1000.

Definition empty : t := ∅.

(** [isRateLimited(ip)], with [Date.now()] passed in as [now]; returns
    the answer and the map after the call. *)
Definition isRateLimited (ip : jsstring) (now : Z) (attempts : t) : bool * t :=
  match attempts !! ip with
  | None => (false, <[ip := mkRecord 1 now]> attempts)
  | Some record =>
      if (now - lastAttempt record >? windowMs)%Z
      then (false, <[ip := mkRecord 1 now]> attempts)
      else
        let record' := mkRecord (count record + 1) now in
        ((count record' >? maxAttempts)%Z, <[ip := record']> attempts)
  end.

Definition reset (ip : jsstring) (attempts : t) : t := delete ip attempts.

(** A run of calls for one client at the given times; the answers in
    order, and the final map. *)
Fixpoint calls (ip : jsstring) (times : list Z) (attempts : t) : list bool * t :=
  match times with
  | [] => ([], attempts)
  | now :: rest =>
      let '(b, attempts') := isRateLimited ip now attempts in
      let '(bs, attempts'') := calls ip rest attempts' in
      (b :: bs, attempts'')
  end.

End AuthRateLimiter.

(* ================================================================== *)
(** ** src/middleware/auth.ts: CSRF guard                              *)
(* ================================================================== *)

Record Env := mkEnv {
  ADMIN_PASSWORD : option jsstring;
  ENVIRONMENT : option jsstring;
  JWT_SECRET : option jsstring;
  ACCESS_TOKEN_EXPIRY : option jsstring;
  REFRESH_TOKEN_EXPIRY : option jsstring;
  (** The KV namespace of the cookie sessions, when bound. *)
  SESSIONS : option (gmap jsstring jsstring)
}.

Definition isDevelopment (env : Env) : bool :=
  bool_decide (ENVIRONMENT env = Some (js "development")).

Definition allowedOrigins (env : Env) : list jsstring :=
  [js "https://component-management.vercel.app"] ++
  (if isDevelopment env
   then [js "http://localhost:3000"; js "http://localhost:5173";
         js "http://127.0.0.1:3000"; js "http://127.0.0.1:5173"]
   else []).

Definition validateReferer (request : Request) (env : Env) : bool :=
  let referer := headers_get (headers request) (js "Referer") in
  let origin := headers_get (headers request) (js "Origin") in
  if otruthy origin then
    match origin with
    | Some o => arr_includes (allowedOrigins env) o
    | None => false
    end
  else if otruthy referer then
    match referer with
    | Some r => existsb (fun allowedOrigin => startsWith r allowedOrigin) (allowedOrigins env)
    | None => false
    end
  else false.

Definition validateJWTSignature (request : Request) : bool :=
  match headers_get (headers request) (js "Authorization") with
  | Some authHeader => startsWith authHeader (js "Bearer ")
  | None => false
  end.

Definition validXRequestedWithValues : list jsstring :=
  [js "XMLHttpRequest"; js "fetch"; js "application/json"; js "component-api"].

Definition validateCustomHeaders (request : Request) : bool :=
  let get := headers_get (headers request) in
  let xRequestedWith := get (js "X-Requested-With") in
  if otruthy xRequestedWith &&
     match xRequestedWith with
     | Some x => arr_includes validXRequestedWithValues x
     | None => false
     end
  then true
  else if bool_decide (get (js "X-App-Name") = Some (js "component-management"))
  then true
  else
    match get (js "Content-Type") with
    | Some contentType =>
        if includes contentType (js "application/json") then
          let method := toUpperCase (method request) in
          let hasCustomHeaders :=
            otruthy (get (js "X-Requested-With")) ||
            otruthy (get (js "X-App-Name")) ||
            otruthy (get (js "Authorization")) in
          if str_eqb method (js "POST") && negb hasCustomHeaders
          then false
          else true
        else false
    | None => false
    end.

Definition layer_status (b : bool) : json :=
  JStr (js (if b then "valid" else "invalid")).

Definition csrf_layer (name : string) (b : bool) (description : string) : json :=
  JObj [(js "name", JStr (js name));
        (js "status", layer_status b);
        (js "description", JStr (js description))].

(** The number of protection layers, as the template literals print it. *)
Definition layers_text (n : Z) : jsstring :=
  if (n =? 1)%Z then js "1" else js "2".

Definition csrf_rejection (minProtectionLayers : Z)
    (hasValidOrigin hasValidHeaders hasValidJWT : bool) : Response :=
  mkResponse 403 json_headers
    (JObj [
      (js "error", JStr (js "CSRF protection"));
      (js "message",
        JStr (js "Request blocked by CSRF protection. Need at least " ++
              layers_text minProtectionLayers ++ js " security layer(s)."));
      (js "details", JObj [
        (js "required",
          JStr (js "At least " ++ layers_text minProtectionLayers ++
                js " of the following layers:"));
        (js "layers", JArr [
          csrf_layer "Valid Origin/Referer" hasValidOrigin "Request from allowed domain";
          csrf_layer "Custom Headers" hasValidHeaders "X-Requested-With or X-App-Name headers";
          csrf_layer "JWT Signature" hasValidJWT "Valid JWT Bearer token"])])]).

Definition mutating_methods : list jsstring := [js "POST"; js "PUT"; js "DELETE"].

(** [protectionLayers.filter(Boolean).length]. *)
Definition protectionCount (layers : list bool) : Z :=
  Z.of_nat (length (List.filter (fun b => b) layers)).

(** [requireCSRFProtection]: [None] is the [null] that lets the request
    through, [Some r] the rejection. *)
Definition requireCSRFProtection (request : Request) (env : Env) : option Response :=
  let method := toUpperCase (method request) in
  if negb (arr_includes mutating_methods method) then None
  else
    let hasValidOrigin := validateReferer request env in
    let hasValidHeaders := validateCustomHeaders request in
    let hasValidJWT := validateJWTSignature request in
    let protectionLayers := [hasValidOrigin; hasValidHeaders; hasValidJWT] in
    let minProtectionLayers := if isDevelopment env then 1%Z else 2%Z in
    if (protectionCount protectionLayers <? minProtectionLayers)%Z
    then Some (csrf_rejection minProtectionLayers hasValidOrigin hasValidHeaders hasValidJWT)
    else None.

Module RateLimiterSpec.
Import AuthRateLimiter.

(** Successive calls, each at most one window after the one before. *)
Fixpoint paced (prev : Z) (times : list Z) : Prop :=
  match times with
  | [] => True
  | now :: rest => (now - prev <= windowMs)%Z /\ paced now rest
  end.

(** The expected answers of [n] paced calls when the counter stood at
    [c] before them. *)
Fixpoint answers_from (c : Z) (n : nat) : list bool :=
  match n with
  | O => []
  | S n' => (c + 1 >? maxAttempts)%Z :: answers_from (c + 1) n'
  end.

Definition client : jsstring := js "203.0.113.7".

(** Six calls ten minutes apart. *)
Definition every_ten_minutes : list Z :=
  [0; 600000; 1200000; 1800000; 2400000; 3000000]%Z.

End RateLimiterSpec.

(** The limiter as the specification words it: the record keeps the
    time the current window started, and only a rollover moves it. *)
Module WindowedLimiter.

Record WindowRecord := mkWindow {
  attemptCount : Z;
  windowStartedAt : Z
}.

Definition isBlocked (ip : jsstring) (now : Z) (m : gmap jsstring WindowRecord)
  : bool * gmap jsstring WindowRecord :=
  match m !! ip with
  | None => (false, <[ip := mkWindow 1 now]> m)
  | Some r =>
      if (now - windowStartedAt r >? AuthRateLimiter.windowMs)%Z
      then (false, <[ip := mkWindow 1 now]> m)
      else ((attemptCount r + 1 >? AuthRateLimiter.maxAttempts)%Z,
            <[ip := mkWindow (attemptCount r + 1) (windowStartedAt r)]> m)
  end.

Fixpoint calls (ip : jsstring) (times : list Z) (m : gmap jsstring WindowRecord)
  : list bool * gmap jsstring WindowRecord :=
  match times with
  | [] => ([], m)
  | now :: rest =>
      let '(b, m') := isBlocked ip now m in
      let '(bs, m'') := calls ip rest m' in
      (b :: bs, m'')
  end.

End WindowedLimiter.

(** *** Reading a rejection, and the header signal as the
    specification words it *)

Definition json_prop (v : json) (k : string) : option json :=
  match v with
  | JObj fields => obj_get fields (js k)
  | _ => None
  end.

(** [body.details.layers], as (name, status) pairs. *)
Definition layer_statuses (r : Response) : option (list (jsstring * jsstring)) :=
  match json_prop (body r) "details" with
  | Some details =>
      match json_prop details "layers" with
      | Some (JArr layers) =>
          mapM (fun layer =>
                  match json_prop layer "name", json_prop layer "status" with
                  | Some (JStr n), Some (JStr s) => Some (n, s)
                  | _, _ => None
                  end) layers
      | _ => None
      end
  | None => None
  end.

Definition status_text (b : bool) : jsstring := js (if b then "valid" else "invalid").

Module CsrfSpec.

Definition recognised_requested_with (request : Request) : Prop :=
  exists x, headers_get (headers request) (js "X-Requested-With") = Some x /\
            In x validXRequestedWithValues.

Definition app_header_matches (request : Request) : Prop :=
  headers_get (headers request) (js "X-App-Name") = Some (js "component-management").

Definition json_content_type (request : Request) : Prop :=
  exists ct, headers_get (headers request) (js "Content-Type") = Some ct /\
             includes ct (js "application/json") = true.

Definition header_present (request : Request) (name : string) : Prop :=
  is_Some (headers_get (headers request) (js name)).

(** A header the code counts: present with a non-empty value. *)
Definition header_given (request : Request) (name : string) : Prop :=
  exists v, headers_get (headers request) (js name) = Some v /\ v <> [].

(** The header signal as the specification states it, with no regard
    to the HTTP method. *)
Definition header_signal_as_specified (request : Request) : Prop :=
  recognised_requested_with request \/
  app_header_matches request \/
  (json_content_type request /\
   (header_present request "X-Requested-With" \/
    header_present request "X-App-Name" \/
    header_present request "Authorization")).

Definition put_json_only : Request :=
  mkRequest (js "PUT") [(js "Content-Type", js "application/json")].

Definition post_json_only : Request :=
  mkRequest (js "POST") [(js "Content-Type", js "application/json")].

Definition post_bare : Request := mkRequest (js "POST") [].

Definition post_from_app : Request :=
  mkRequest (js "POST")
    [(js "Origin", js "https://component-management.vercel.app");
     (js "X-Requested-With", js "XMLHttpRequest")].

Definition production : Env := mkEnv None (Some (js "production")) None None None None.

End CsrfSpec.

(* ================================================================== *)
(** ** Regular expressions                                             *)
(* ================================================================== *)

(** A backtracking matcher for the part of ECMAScript's pattern
    language that the sources use, with its priorities: alternatives
    left to right, greedy quantifiers longest first, lazy ones shortest
    first, an iteration that consumes nothing refused. *)
Module Regex.

Inductive class_item : Type :=
| CChar (c : N)
| CRange (lo hi : N)
| CWord                        (* \w *)
| CSpace                       (* \s *)
| CDigit                       (* \d *)
| CNotWord                     (* \W *)
| CNotSpace                    (* \S *)
| CNotDigit.                   (* \D *)

Inductive regex : Type :=
| Empty
| Never
| Char (c : N)
| Dot
| Class (negated : bool) (items : list class_item)
| WordBoundary
| Seq (r1 r2 : regex)
| Alt (r1 r2 : regex)
| Star (greedy : bool) (r : regex)
| Group (n : nat) (r : regex)
| NegLookahead (r : regex)
| Backref (n : nat).

Definition Plus (greedy : bool) (r : regex) : regex := Seq r (Star greedy r).
Definition Opt (greedy : bool) (r : regex) : regex :=
  if greedy then Alt r Empty else Alt Empty r.

Record RegExp := mkRegExp {
  source : regex;
  ignoreCase : bool
}.

(** Where a match attempt stands: the text already passed (nearest
    character first), the text ahead, and the captures so far. *)
Record mstate := mkState {
  behind : jsstring;
  ahead : jsstring;
  captures : list (nat * jsstring)
}.

Definition is_word (c : N) : bool :=
  is_upper c || is_lower c || is_digit c || (c =? 95).

Definition is_line_terminator (c : N) : bool :=
  (c =? 10) || (c =? 13) || (c =? 8232) || (c =? 8233).

(** Canonicalize without the unicode flag, on the code units that
    matter to the patterns here: Basic Latin letters fold to upper
    case, and no other code unit folds into Basic Latin. *)
Definition canon (i : bool) (c : N) : N := if i then upper_char c else c.

Definition item_has (it : class_item) (c : N) : bool :=
  match it with
  | CChar a => a =? c
  | CRange lo hi => (lo <=? c) && (c <=? hi)
  | CWord => is_word c
  | CSpace => is_space c
  | CDigit => is_digit c
  | CNotWord => negb (is_word c)
  | CNotSpace => negb (is_space c)
  | CNotDigit => negb (is_digit c)
  end.

(** Some member of the item has the same canonical form as [c]. *)
Definition item_match (i : bool) (it : class_item) (c : N) : bool :=
  item_has it c ||
  (i && (item_has it (upper_char c) || item_has it (lower_char c))).

Definition class_match (i : bool) (items : list class_item) (c : N) : bool :=
  existsb (fun it => item_match i it c) items.

Definition step (st : mstate) : mstate :=
  match ahead st with
  | c :: rest => mkState (c :: behind st) rest (captures st)
  | [] => st
  end.

Fixpoint steps (n : nat) (st : mstate) : mstate :=
  match n with
  | O => st
  | S n' => steps n' (step st)
  end.

(** The text between two points of one attempt. *)
Definition consumed (st st' : mstate) : jsstring :=
  firstn (length (ahead st) - length (ahead st')) (ahead st).

Fixpoint capture (caps : list (nat * jsstring)) (n : nat) : option jsstring :=
  match caps with
  | [] => None
  | (k, s) :: rest => if Nat.eqb k n then Some s else capture rest n
  end.

Fixpoint prefix_fold (i : bool) (p s : jsstring) : bool :=
  match p, s with
  | [], _ => true
  | c :: p', d :: s' => (canon i c =? canon i d) && prefix_fold i p' s'
  | _ :: _, [] => false
  end.

Definition on_char (st : mstate) (ok : N -> bool) (k : mstate -> option mstate)
  : option mstate :=
  match ahead st with
  | c :: _ => if ok c then k (step st) else None
  | [] => None
  end.

Definition at_boundary (st : mstate) : bool :=
  let a := match behind st with c :: _ => is_word c | [] => false end in
  let b := match ahead st with c :: _ => is_word c | [] => false end in
  xorb a b.

Fixpoint run (i : bool) (r : regex) (st : mstate) (k : mstate -> option mstate)
  {struct r} : option mstate :=
  match r with
  | Empty => k st
  | Never => None
  | Char c => on_char st (fun d => canon i c =? canon i d) k
  | Dot => on_char st (fun d => negb (is_line_terminator d)) k
  | Class negated items => on_char st (fun d => xorb negated (class_match i items d)) k
  | WordBoundary => if at_boundary st then k st else None
  | Seq r1 r2 => run i r1 st (fun st' => run i r2 st' k)
  | Alt r1 r2 =>
      match run i r1 st k with
      | Some x => Some x
      | None => run i r2 st k
      end
  | Star greedy r1 =>
      (fix loop (fuel : nat) (st : mstate) {struct fuel} : option mstate :=
         match fuel with
         | O => k st
         | S fuel' =>
             let again (_ : unit) :=
               run i r1 st (fun st' =>
                 if Nat.eqb (length (ahead st')) (length (ahead st)) then None
                 else loop fuel' st') in
             if greedy then
               match again tt with
               | Some x => Some x
               | None => k st
               end
             else
               match k st with
               | Some x => Some x
               | None => again tt
               end
         end) (length (ahead st)) st
  | Group n r1 =>
      run i r1 st (fun st' =>
        k (mkState (behind st') (ahead st') ((n, consumed st st') :: captures st')))
  | NegLookahead r1 =>
      match run i r1 st Some with
      | Some _ => None
      | None => k st
      end
  | Backref n =>
      match capture (captures st) n with
      | None => k st
      | Some s =>
          if prefix_fold i s (ahead st) then k (steps (length s) st) else None
      end
  end.

(** One attempt at the current position. *)
Definition match_here (re : RegExp) (behind ahead : jsstring) : option mstate :=
  run (ignoreCase re) (source re) (mkState behind ahead []) Some.

(** [re.test(s)]: is there a match at some position? *)
Fixpoint test_from (re : RegExp) (behind ahead : jsstring) : bool :=
  match match_here re behind ahead with
  | Some _ => true
  | None =>
      match ahead with
      | [] => false
      | c :: rest => test_from re (c :: behind) rest
      end
  end.

Definition test (re : RegExp) (s : jsstring) : bool := test_from re [] s.

(** [s.replace(re, f)] for a global [re]: every match, found left to
    right from the end of the one before, is replaced by what the
    callback gives for the matched text and the captures; [out] holds
    the result so far, last character first. *)
Fixpoint replace_from (fuel : nat) (re : RegExp)
    (f : jsstring -> (nat -> option jsstring) -> jsstring)
    (behind ahead out : jsstring) : jsstring :=
  match fuel with
  | O => rev out ++ ahead
  | S fuel' =>
      match match_here re behind ahead with
      | Some st' =>
          let matched := firstn (length ahead - length (Regex.ahead st')) ahead in
          let out' := rev (f matched (capture (captures st'))) ++ out in
          match matched, ahead with
          | [], [] => rev out'
          | [], c :: rest => replace_from fuel' re f (c :: behind) rest (c :: out')
          | _ :: _, _ =>
              replace_from fuel' re f (Regex.behind st') (Regex.ahead st') out'
          end
      | None =>
          match ahead with
          | [] => rev out
          | c :: rest => replace_from fuel' re f (c :: behind) rest (c :: out)
          end
      end
  end.

Definition replace_with (re : RegExp)
    (f : jsstring -> (nat -> option jsstring) -> jsstring) (s : jsstring) : jsstring :=
  replace_from (S (length s)) re f [] s [].

(** [s.replace(re, text)], for replacement texts without [$]. *)
Definition replace (re : RegExp) (text : jsstring) (s : jsstring) : jsstring :=
  replace_with re (fun _ _ => text) s.

End Regex.

(** *** Pattern syntax

    The patterns are kept as the text between the slashes of the
    source's regular-expression literals and parsed here, so that they
    can be compared with the source character by character.  The one
    liberty: a double quote is written [\x22], its hexadecimal escape. *)
Module RegexSyntax.
Import Regex.

Definition hex_value (c : N) : option N :=
  if is_digit c then Some (c - 48)
  else if (97 <=? c) && (c <=? 102) then Some (c - 87)
  else if (65 <=? c) && (c <=? 70) then Some (c - 55)
  else None.

(** What follows a backslash, inside or outside a class: a class
    escape, or the character denoted. *)
Definition parse_escape (s : jsstring) : option (class_item * jsstring) :=
  match s with
  | 119 :: s' => Some (CWord, s')                       (* \w *)
  | 115 :: s' => Some (CSpace, s')                      (* \s *)
  | 100 :: s' => Some (CDigit, s')                      (* \d *)
  | 87 :: s' => Some (CNotWord, s')                     (* \W *)
  | 83 :: s' => Some (CNotSpace, s')                    (* \S *)
  | 68 :: s' => Some (CNotDigit, s')                    (* \D *)
  | 110 :: s' => Some (CChar 10, s')                    (* \n *)
  | 114 :: s' => Some (CChar 13, s')                    (* \r *)
  | 116 :: s' => Some (CChar 9, s')                     (* \t *)
  | 120 :: h :: l :: s' =>                              (* \xHH *)
      match hex_value h, hex_value l with
      | Some a, Some b => Some (CChar (16 * a + b), s')
      | _, _ => None
      end
  | c :: s' => if is_word c then None else Some (CChar c, s')
  | [] => None
  end.

Definition parse_class_atom (s : jsstring) : option (class_item * jsstring) :=
  match s with
  | 92 :: s' => parse_escape s'
  | c :: s' => Some (CChar c, s')
  | [] => None
  end.

(** The items of a class, up to and including the closing bracket. *)
Fixpoint parse_class_items (fuel : nat) (s : jsstring)
  : option (list class_item * jsstring) :=
  match fuel with
  | O => None
  | S fuel' =>
      match s with
      | 93 :: s' => Some ([], s')
      | _ =>
          match parse_class_atom s with
          | Some (CChar lo, 45 :: s1) =>
              match s1 with
              | 93 :: _ =>
                  '(items, s2) ← parse_class_items fuel' s1;
                  Some (CChar lo :: CChar 45 :: items, s2)
              | _ =>
                  match parse_class_atom s1 with
                  | Some (CChar hi, s2) =>
                      '(items, s3) ← parse_class_items fuel' s2;
                      Some (CRange lo hi :: items, s3)
                  | _ => None
                  end
              end
          | Some (it, s1) =>
              '(items, s2) ← parse_class_items fuel' s1;
              Some (it :: items, s2)
          | None => None
          end
      end
  end.

Definition parse_class (s : jsstring) : option (regex * jsstring) :=
  match s with
  | 94 :: s' =>
      '(items, s'') ← parse_class_items (S (length s')) s'; Some (Class true items, s'')
  | _ =>
      '(items, s'') ← parse_class_items (S (length s)) s; Some (Class false items, s'')
  end.

Definition parse_quantifier (r : regex) (s : jsstring) : regex * jsstring :=
  match s with
  | 42 :: 63 :: s' => (Star false r, s')
  | 42 :: s' => (Star true r, s')
  | 43 :: 63 :: s' => (Plus false r, s')
  | 43 :: s' => (Plus true r, s')
  | 63 :: 63 :: s' => (Opt false r, s')
  | 63 :: s' => (Opt true r, s')
  | _ => (r, s)
  end.

Definition atom_of_item (it : class_item) : regex :=
  match it with
  | CChar c => Char c
  | _ => Class false [it]
  end.

(** Characters that are syntax outside a class. *)
Definition is_syntax (c : N) : bool :=
  existsb (N.eqb c) [94; 36; 92; 46; 42; 43; 63; 40; 41; 91; 93; 123; 125; 124].

(** Disjunction, alternative and term; [n] is the number the next
    capturing group gets. *)
Fixpoint parse_disjunction (fuel : nat) (s : jsstring) (n : nat)
  : option (regex * jsstring * nat) :=
  match fuel with
  | O => None
  | S fuel' =>
      '(r1, s1, n1) ← parse_alternative fuel' s n;
      match s1 with
      | 124 :: s2 =>
          '(r2, s3, n2) ← parse_disjunction fuel' s2 n1;
          Some (Alt r1 r2, s3, n2)
      | _ => Some (r1, s1, n1)
      end
  end
with parse_alternative (fuel : nat) (s : jsstring) (n : nat)
  : option (regex * jsstring * nat) :=
  match fuel with
  | O => None
  | S fuel' =>
      match s with
      | [] => Some (Empty, s, n)
      | 124 :: _ => Some (Empty, s, n)
      | 41 :: _ => Some (Empty, s, n)
      | _ =>
          '(r1, s1, n1) ← parse_term fuel' s n;
          '(r2, s2, n2) ← parse_alternative fuel' s1 n1;
          Some (match r2 with Empty => r1 | _ => Seq r1 r2 end, s2, n2)
      end
  end
with parse_term (fuel : nat) (s : jsstring) (n : nat)
  : option (regex * jsstring * nat) :=
  match fuel with
  | O => None
  | S fuel' =>
      match s with
      | 92 :: 98 :: s' => Some (WordBoundary, s', n)            (* \b *)
      | 40 :: 63 :: 33 :: s' =>                                 (* (?!...) *)
          '(r, s1, n1) ← parse_disjunction fuel' s' n;
          match s1 with
          | 41 :: s2 => Some (NegLookahead r, s2, n1)
          | _ => None
          end
      | 40 :: 63 :: 58 :: s' =>                                 (* (?:...) *)
          '(r, s1, n1) ← parse_disjunction fuel' s' n;
          match s1 with
          | 41 :: s2 => let '(q, s3) := parse_quantifier r s2 in Some (q, s3, n1)
          | _ => None
          end
      | 40 :: 63 :: _ => None
      | 40 :: s' =>                                             (* (...) *)
          '(r, s1, n1) ← parse_disjunction fuel' s' (S n);
          match s1 with
          | 41 :: s2 =>
              let '(q, s3) := parse_quantifier (Group n r) s2 in Some (q, s3, n1)
          | _ => None
          end
      | 91 :: s' =>                                             (* [...] *)
          '(r, s1) ← parse_class s';
          let '(q, s2) := parse_quantifier r s1 in Some (q, s2, n)
      | 46 :: s' =>                                             (* . *)
          let '(q, s1) := parse_quantifier Dot s' in Some (q, s1, n)
      | 92 :: d :: s' =>
          if (49 <=? d) && (d <=? 57) then                      (* \1 .. \9 *)
            let '(q, s1) := parse_quantifier (Backref (N.to_nat (d - 48))) s' in
            Some (q, s1, n)
          else
            '(it, s1) ← parse_escape (d :: s');
            let '(q, s2) := parse_quantifier (atom_of_item it) s1 in Some (q, s2, n)
      | c :: s' =>
          if is_syntax c then None
          else let '(q, s1) := parse_quantifier (Char c) s' in Some (q, s1, n)
      | [] => None
      end
  end.

Definition parse (pattern : jsstring) : option regex :=
  match parse_disjunction (3 * length pattern + 3) pattern 1 with
  | Some (r, [], _) => Some r
  | _ => None
  end.

(** [/pattern/flags]; a pattern outside the supported syntax would
    become [Never], and [RegexFacts.literals_parse] below checks that
    no literal of the sources does. *)
Definition regexp (pattern flags : string) : RegExp :=
  mkRegExp (default Never (parse (js pattern))) (includes (js flags) (js "i")).

End RegexSyntax.

(* ================================================================== *)
(** ** Numbers: binary64 values                                        *)
(* ================================================================== *)

(** JavaScript numbers are binary64 values.  A decimal literal, and
    the exact result of an operation, is rounded to the nearest value;
    a number is printed with the fewest digits that read back as it. *)
Module Binary64.
Local Open Scope Z_scope.

(** A binary64 value that is not NaN: [f * 2^q], or an infinity.  The
    two zeros are one value here, nothing below telling them apart. *)
Inductive double : Type :=
| Finite (f q : Z)
| Infinite (negative : bool).

(** The integer part of the binary logarithm of [n / d], both
    positive. *)
Definition log2_ratio (n d : Z) : Z :=
  let l := Z.log2 n - Z.log2 d in
  if (if 0 <=? l then n <? d * 2 ^ l else n * 2 ^ (- l) <? d) then l - 1 else l.

(** The value nearest to [n / d], a tie going to the even significand:
    53 bits from [2^-1022] up, the multiples of [2^-1074] below, and
    [None], an infinity, from [2^1024 - 2^970] up. *)
Definition round_ratio (n d : Z) : option (Z * Z) :=
  let q := Z.max (log2_ratio n d - 52) (-1074) in
  let num := if q <? 0 then n * 2 ^ (- q) else n in
  let den := if q <? 0 then d else d * 2 ^ q in
  let f := num / den in
  let r := num mod den in
  let f := if (den <? 2 * r) || ((den =? 2 * r) && Z.odd f) then f + 1 else f in
  if 2 ^ 1024 <=? f * 2 ^ Z.max q 0 then None else Some (f, q).

(** The value of the decimal [m * 10^e], as [JSON.parse] and
    StringToNumber read a literal and as an exact result is rounded. *)
Definition nearest (m e : Z) : double :=
  if m =? 0 then Finite 0 0
  else
    let n := if 0 <=? e then Z.abs m * 10 ^ e else Z.abs m in
    let d := if 0 <=? e then 1 else 10 ^ (- e) in
    match round_ratio n d with
    | Some (f, q) => Finite (Z.sgn m * f) q
    | None => Infinite (m <? 0)
    end.

Definition same (x y : double) : bool :=
  match x, y with
  | Finite f1 q1, Finite f2 q2 =>
      let q := Z.min q1 q2 in
      f1 * 2 ^ (q1 - q) =? f2 * 2 ^ (q2 - q)
  | Infinite a, Infinite b => Bool.eqb a b
  | _, _ => false
  end.

Definition is_zero (x : double) : bool :=
  match x with
  | Finite f _ => f =? 0
  | Infinite _ => false
  end.

(** [x < n] for an integer [n]. *)
Definition below (x : double) (n : Z) : bool :=
  match x with
  | Finite f q => if 0 <=? q then f * 2 ^ q <? n else f <? n * 2 ^ (- q)
  | Infinite negative => negative
  end.

(** An exponent [j] with [f * 2^q < 10^j], for a positive [f]: the
    binary logarithm is below [l + 1], and the decimal logarithm of 2
    lies between 0.30102 and 0.30103. *)
Definition start (f q : Z) : Z :=
  let l := Z.log2 f + q in
  if l <? 0 then (l + 1) * 30102 / 100000 + 1 else (l + 1) * 30103 / 100000 + 1.

(** The decimals [s * 10^j] that read as [f * 2^q], on the coarsest
    grid [10^j] that has one: the two multiples of [10^j] around the
    value are tried, the nearer one is taken when both read as it,
    the even one when they are as near, and the grid is refined
    otherwise. *)
Fixpoint search (fuel : nat) (f q j : Z) : Z * Z :=
  match fuel with
  | O => (0, 0)
  | S fuel' =>
      let vn := f * (if 0 <=? q then 2 ^ q else 1) * (if j <? 0 then 10 ^ (- j) else 1) in
      let vd := (if q <? 0 then 2 ^ (- q) else 1) * (if 0 <=? j then 10 ^ j else 1) in
      let lo := vn / vd in
      let r := vn mod vd in
      let under := (0 <? lo) && same (nearest lo j) (Finite f q) in
      let over := same (nearest (lo + 1) j) (Finite f q) in
      if under && over then
        if (2 * r <? vd) || ((2 * r =? vd) && Z.even lo) then (lo, j) else (lo + 1, j)
      else if under then (lo, j)
      else if over then (lo + 1, j)
      else search fuel' f q (j - 1)
  end.

(** The shortest decimal [(m', e')] that reads as the value of
    [m * 10^e], which is how Number::toString finds the digits of a
    number; an integer comes as [(z, 0)].  [None] when the value is an
    infinity. *)
Definition shortest (m e : Z) : option (Z * Z) :=
  match nearest m e with
  | Infinite _ => None
  | Finite f q =>
      if f =? 0 then Some (0, 0)
      else
        let j0 := start (Z.abs f) q in
        let '(s, j) := search (Z.to_nat (j0 + 1 + Z.max (- q) 0)) (Z.abs f) q j0 in
        Some (if 0 <=? j then (Z.sgn f * s * 10 ^ j, 0) else (Z.sgn f * s, j))
  end.

(** The integer that [f * 2^q] is, when it is one. *)
Definition integer (f q : Z) : Z :=
  if 0 <=? q then f * 2 ^ q else f / 2 ^ (- q).

End Binary64.

(* ================================================================== *)
(** ** Numbers in text                                                 *)
(* ================================================================== *)

Module Num.

(** What [parseInt] and the arithmetic on its results give: an integer
    that is a binary64 value, an infinity, or NaN. *)
Inductive number : Type :=
| NaN
| Infinity (negative : bool)
| Integer (z : Z).

(** The number that the exact integer [z] is rounded to. *)
Definition round (z : Z) : number :=
  match Binary64.nearest z 0 with
  | Binary64.Finite f q => Integer (Binary64.integer f q)
  | Binary64.Infinite negative => Infinity negative
  end.

(** [x * k] for an integer constant [k]. *)
Definition mul (x : number) (k : Z) : number :=
  match x with
  | NaN => NaN
  | Infinity negative =>
      if (k =? 0)%Z then NaN else Infinity (xorb negative (k <? 0)%Z)
  | Integer z => round (z * k)%Z
  end.

(** [x > n] for an integer [n] that is a binary64 value. *)
Definition greater (x : number) (n : Z) : bool :=
  match x with
  | NaN => false
  | Infinity negative => negb negative
  | Integer z => (z >? n)%Z
  end.

(** The value of a finite number. *)
Definition finite (x : number) : option Z :=
  match x with
  | Integer z => Some z
  | _ => None
  end.

Fixpoint digits_value (radix : Z) (digit : N -> option Z) (s : jsstring) (acc : option Z)
  : option Z :=
  match s with
  | c :: s' =>
      match digit c with
      | Some d => digits_value radix digit s' (Some (radix * default 0%Z acc + d)%Z)
      | None => acc
      end
  | [] => acc
  end.

Definition dec_digit (c : N) : option Z :=
  if is_digit c then Some (Z.of_N (c - 48)) else None.

Definition hex_digit (c : N) : option Z :=
  option_map Z.of_N (RegexSyntax.hex_value c).

(** [parseInt(s)]: leading white space, a sign, a [0x] prefix, then
    the longest run of digits, whose integer is rounded to a number;
    NaN without a digit. *)
Definition parseInt (s : jsstring) : number :=
  let s := trimStart s in
  let '(sign, s) :=
    match s with
    | 45 :: s' => ((-1)%Z, s')
    | 43 :: s' => (1%Z, s')
    | _ => (1%Z, s)
    end in
  let value :=
    match s with
    | 48 :: 120 :: s' | 48 :: 88 :: s' => digits_value 16 hex_digit s' None
    | _ => digits_value 10 dec_digit s None
    end in
  match value with
  | Some z => round (sign * z)%Z
  | None => NaN
  end.

End Num.

(* ================================================================== *)
(** ** src/utils/validation.ts: the sanitisers                         *)
(* ================================================================== *)

Module Sanitize.
Import Regex RegexSyntax.

Definition allowedHTMLTags : list jsstring := List.map js [
  "div"; "span"; "p"; "h1"; "h2"; "h3"; "h4"; "h5"; "h6";
  "button"; "input"; "label"; "form"; "a"; "textarea"; "select"; "option";
  "ul"; "ol"; "li"; "dl"; "dt"; "dd"; "table"; "tr"; "td"; "th"; "thead"; "tbody"; "tfoot";
  "section"; "article"; "header"; "footer"; "nav"; "main"; "aside";
  "strong"; "em"; "b"; "i"; "u"; "br"; "hr"; "small"; "sub"; "sup"; "mark";
  "img"; "figure"; "figcaption";
  "details"; "summary";
  "code"; "pre"; "kbd"; "samp"; "var";
  "blockquote"; "cite"; "q"; "abbr"; "dfn";
  "time"; "address";
  "canvas";
  "svg"; "path"; "circle"; "rect"; "ellipse"; "line"; "polygon";
  "g"; "defs"; "title"; "desc"
]%string.

Definition allowedHTMLAttributes : list jsstring := List.map js [
  "class"; "id"; "style"; "data-*"; "aria-*"; "role";
  "type"; "name"; "value"; "placeholder"; "href"; "target";
  "src"; "alt"; "width"; "height"; "title";
  "viewBox"; "xmlns"; "xmlns:*"; "d"; "fill"; "stroke"; "stroke-width";
  "stroke-linecap"; "stroke-linejoin";
  "cx"; "cy"; "r"; "rx"; "ry"; "x"; "y"; "x1"; "y1"; "x2"; "y2";
  "points"; "transform"; "opacity"; "fill-opacity"; "stroke-opacity"
]%string.

Definition dangerousHTMLPatternSources : list string := [
  "<script\b[^<]*(?:(?!<\/script>)<[^<]*)*<\/script>";
  "<iframe\b[^>]*>";
  "<object\b[^>]*>";
  "<embed\b[^>]*>";
  "<link\b[^>]*>";
  "<meta\b[^>]*>";
  "<base\b[^>]*>";
  "<form\b[^>]*action\s*=\s*[\x22'][^\x22']*[\x22'][^>]*>";
  "on\w+\s*=\s*[\x22'][^\x22']*[\x22']";
  "on\w+\s*=\s*[^\x22'\s>]+";
  "javascript:";
  "vbscript:";
  "data:text\/html";
  "data:text\/javascript";
  "data:application\/x-javascript";
  "<svg\b[^>]*on\w+\s*=";
  "<math\b[^>]*on\w+\s*=";
  "&lt;script";
  "&gt;.*?&lt;\/script&gt;";
  "&#x[0-9a-f]+;?";
  "&#[0-9]+;?"
]%string.

Definition dangerousHTMLPatterns : list RegExp :=
  Eval vm_compute in List.map (fun p => regexp p "gi") dangerousHTMLPatternSources.

Definition dangerousSVGPatternSources : list string := [
  "<foreignObject\b[^>]*>";
  "<use\b[^>]*>";
  "<image\b[^>]*>";
  "<animate\b[^>]*>";
  "<animateTransform\b[^>]*>";
  "<animateMotion\b[^>]*>";
  "<set\b[^>]*>";
  "href\s*=\s*[\x22'][^\x22']*[\x22']";
  "xlink:href\s*=\s*[\x22'][^\x22']*[\x22']";
  "<script\b[^<]*(?:(?!<\/script>)<[^<]*)*<\/script>"
]%string.

Definition dangerousSVGPatterns : list RegExp :=
  Eval vm_compute in List.map (fun p => regexp p "gi") dangerousSVGPatternSources.

Definition dangerousCSSPatternSources : list string := [
  "javascript:";
  "expression\s*\(";
  "behavior\s*:";
  "binding\s*:";
  "@import";
  "url\s*\(\s*[\x22']?\s*javascript:";
  "url\s*\(\s*[\x22']?\s*data:text\/html";
  "url\s*\(\s*[\x22']?\s*data:text\/javascript";
  "vbscript:";
  "mozbinding:";
  "-moz-binding";
  "filter\s*:\s*progid";
  "zoom\s*:\s*expression";
  "behavior\s*:\s*url";
  "content\s*:\s*url\s*\(";
  "@charset";
  "@namespace"
]%string.

Definition dangerousCSSPatterns : list RegExp :=
  Eval vm_compute in List.map (fun p => regexp p "gi") dangerousCSSPatternSources.

(** [patterns.forEach(pattern => { sanitized = sanitized.replace(pattern, text) })]. *)
Definition replace_each (patterns : list RegExp) (text : jsstring) (s : jsstring)
  : jsstring :=
  fold_left (fun sanitized pattern => replace pattern text sanitized) patterns s.

Definition re_amp : RegExp := Eval vm_compute in regexp "&" "g".
Definition re_lt : RegExp := Eval vm_compute in regexp "<" "g".
Definition re_gt : RegExp := Eval vm_compute in regexp ">" "g".
Definition re_dq : RegExp := Eval vm_compute in regexp "\x22" "g".
Definition re_sq : RegExp := Eval vm_compute in regexp "'" "g".
Definition re_slash : RegExp := Eval vm_compute in regexp "\/" "g".

Definition encodeHTMLEntities (str : jsstring) : jsstring :=
  replace re_slash (js "&#x2F;")
    (replace re_sq (js "&#x27;")
      (replace re_dq (js "&quot;")
        (replace re_gt (js "&gt;")
          (replace re_lt (js "&lt;")
            (replace re_amp (js "&amp;") str))))).

(** A capture that took part in the match; [undefined] would print as
    such in a template, but every group read below always takes part. *)
Definition group (caps : nat -> option jsstring) (n : nat) : jsstring :=
  default (js "undefined") (caps n).

Definition re_css_comment : RegExp := Eval vm_compute in regexp "\/\*[\s\S]*?\*\/" "g".
Definition re_css_url : RegExp :=
  Eval vm_compute in regexp "url\s*\(\s*[\x22']?([^\x22')]+)[\x22']?\s*\)" "gi".
Definition re_quotes : RegExp := Eval vm_compute in regexp "[\x22']" "g".
Definition re_css_at_rule : RegExp :=
  Eval vm_compute in regexp "@(import|charset|namespace)\b[^;]+;?" "gi".
Definition re_css_declaration : RegExp :=
  Eval vm_compute in regexp "([\w-]+)\s*:\s*([^;]+);?" "gi".
Definition re_spaces : RegExp := Eval vm_compute in regexp "\s+" "g".
Definition re_semicolons : RegExp := Eval vm_compute in regexp ";\s*;" "g".

Definition safeSchemes : list jsstring :=
  [js "https:"; js "http:"; js "data:image/"; js "data:font/"].

Definition css_url (matched : jsstring) (caps : nat -> option jsstring) : jsstring :=
  let url := group caps 1 in
  let isUrlSafe :=
    existsb (fun scheme => startsWith (toLowerCase url) scheme || startsWith url (js "/"))
            safeSchemes in
  if isUrlSafe && negb (includes (toLowerCase url) (js "javascript:"))
               && negb (includes (toLowerCase url) (js "vbscript:"))
  then js "url(" ++ [dq] ++ replace re_quotes [] url ++ [dq] ++ js ")"
  else js "/* unsafe url removed */".

Definition css_declaration (matched : jsstring) (caps : nat -> option jsstring)
  : jsstring :=
  let property := group caps 1 in
  let value := group caps 2 in
  let prop := toLowerCase property in
  let val := toLowerCase value in
  if (str_eqb prop (js "content") || str_eqb prop (js "background"))
     && includes val (js "url(")
  then property ++ js ": /* url not allowed in " ++ prop ++ js " */;"
  else if str_eqb prop (js "position") && str_eqb val (js "fixed")
  then property ++ js ": absolute; /* fixed positioning restricted */"
  else if str_eqb prop (js "z-index") &&
          (let zValue := Num.parseInt val in Num.greater zValue 9999)
  then property ++ js ": 9999; /* z-index capped */"
  else matched.

Definition sanitizeCSS (css : jsstring) : jsstring :=
  if negb (truthy css) then []
  else
    let sanitized := css in
    let sanitized :=
      replace_each dangerousCSSPatterns (js "/* removed dangerous content */") sanitized in
    let sanitized := replace re_css_comment [] sanitized in
    let sanitized := replace_with re_css_url css_url sanitized in
    let sanitized :=
      replace re_css_at_rule (js "/* dangerous @-rule removed */") sanitized in
    let sanitized := replace_with re_css_declaration css_declaration sanitized in
    trim (replace re_semicolons (js ";") (replace re_spaces (js " ") sanitized)).

Definition re_attribute : RegExp :=
  Eval vm_compute in regexp "\s+([\w:-]+)\s*=\s*[\x22']([^\x22']*)[\x22']" "gi".
Definition re_javascript : RegExp := Eval vm_compute in regexp "javascript:" "gi".
Definition re_vbscript : RegExp := Eval vm_compute in regexp "vbscript:" "gi".

Definition attribute_allowed (attr : jsstring) : bool :=
  existsb (fun allowed =>
             if endsWith_char allowed 42
             then startsWith attr (removelast allowed)
             else str_eqb attr allowed)
          allowedHTMLAttributes.

Definition html_attribute (matched : jsstring) (caps : nat -> option jsstring)
  : jsstring :=
  let attrName := group caps 1 in
  let attrValue := group caps 2 in
  let attr := toLowerCase attrName in
  if negb (attribute_allowed attr) then []
  else if str_eqb attr (js "style") then
    let cleanedStyle := sanitizeCSS attrValue in
    if truthy cleanedStyle
    then js " " ++ attrName ++ js "=" ++ [dq] ++ cleanedStyle ++ [dq]
    else []
  else if test re_javascript attrValue || test re_vbscript attrValue then []
  else if startsWith attr (js "data-") || startsWith attr (js "aria-")
  then js " " ++ attrName ++ js "=" ++ [dq] ++ encodeHTMLEntities attrValue ++ [dq]
  else js " " ++ attrName ++ js "=" ++ [dq] ++ encodeHTMLEntities attrValue ++ [dq].

Definition sanitizeHTMLAttributes (tag : jsstring) : jsstring :=
  replace_with re_attribute html_attribute tag.

Definition re_svg_element : RegExp :=
  Eval vm_compute in
    regexp "<(svg|g|path|circle|rect|ellipse|line|polygon|defs|title|desc)\b([^>]*)>" "gi".

Definition sanitizeSVG (svgContent : jsstring) : jsstring :=
  let sanitized :=
    replace_each dangerousSVGPatterns (js "<!-- removed for security -->") svgContent in
  replace_with re_svg_element
    (fun matched caps =>
       sanitizeHTMLAttributes (js "<" ++ group caps 1 ++ group caps 2 ++ js ">"))
    sanitized.

Definition re_tag : RegExp :=
  Eval vm_compute in regexp "<\/?([a-zA-Z][a-zA-Z0-9]*)\b[^>]*>" "gi".

Definition sanitizeHTMLTags (html : jsstring) : jsstring :=
  replace_with re_tag
    (fun matched caps =>
       if arr_includes allowedHTMLTags (toLowerCase (group caps 1))
       then sanitizeHTMLAttributes matched
       else [])
    html.

Definition re_has_svg : RegExp := Eval vm_compute in regexp "<svg\b[^>]*>" "i".
Definition re_svg_block : RegExp :=
  Eval vm_compute in regexp "<svg\b[^>]*>[\s\S]*?<\/svg>" "gi".
Definition re_ent_lt : RegExp := Eval vm_compute in regexp "&lt;" "gi".
Definition re_ent_gt : RegExp := Eval vm_compute in regexp "&gt;" "gi".
Definition re_ent_quot : RegExp := Eval vm_compute in regexp "&quot;" "gi".
Definition re_ent_x27 : RegExp := Eval vm_compute in regexp "&#x27;" "gi".
Definition re_ent_x2F : RegExp := Eval vm_compute in regexp "&#x2F;" "gi".
Definition re_empty_tag : RegExp :=
  Eval vm_compute in regexp "<(\w+)(\s[^>]*)?\s*><\/\1>" "gi".

Definition sanitizeHTML (html : jsstring) : jsstring :=
  if negb (truthy html) then []
  else
    let sanitized := html in
    let sanitized := replace_each dangerousHTMLPatterns [] sanitized in
    let sanitized :=
      if test re_has_svg sanitized
      then replace_with re_svg_block (fun svgMatch _ => sanitizeSVG svgMatch) sanitized
      else sanitized in
    let sanitized :=
      replace re_ent_x2F (js "/")
        (replace re_ent_x27 (js "'")
          (replace re_ent_quot [dq]
            (replace re_ent_gt (js ">")
              (replace re_ent_lt (js "<") sanitized)))) in
    let sanitized := sanitizeHTMLTags sanitized in
    let sanitized := replace_each dangerousHTMLPatterns [] sanitized in
    trim (replace re_spaces (js " ") (replace re_empty_tag [] sanitized)).

Definition criticalPatternSources : list string := [
  "\beval\s*\(";
  "\bnew\s+Function\s*\(";
  "setTimeout\s*\(\s*['\x22`][^'\x22`]*<script";
  "setInterval\s*\(\s*['\x22`][^'\x22`]*<script";
  "document\.write\s*\(";
  "document\.writeln\s*\(";
  "location\s*=\s*['\x22`]javascript:";
  "window\s*\[\s*['\x22`]eval['\x22`]\s*\]";
  "\[\s*['\x22`]constructor['\x22`]\s*\]";
  "\bimport\s*\(";
  "\brequire\s*\(";
  "<script[^>]*>";
  "javascript:";
  "vbscript:";
  "data:text\/html"
]%string.

Definition criticalPatterns : list RegExp :=
  Eval vm_compute in List.map (fun p => regexp p "gi") criticalPatternSources.

Definition sanitizeJS (js_ : jsstring) : jsstring :=
  if negb (truthy js_) then []
  else
    let sanitized :=
      replace_each criticalPatterns (js "/* potentially dangerous code removed */") js_ in
    let sanitized :=
      trim (replace re_semicolons (js ";") (replace re_spaces (js " ") sanitized)) in
    if truthy sanitized then sanitized else js "/* Empty JavaScript content */".

(** Every regular-expression literal above, as written. *)
Definition literal_sources : list string :=
  dangerousHTMLPatternSources ++ dangerousSVGPatternSources ++
  dangerousCSSPatternSources ++ criticalPatternSources ++ [
  "&"; "<"; ">"; "\x22"; "'"; "\/";
  "\/\*[\s\S]*?\*\/";
  "url\s*\(\s*[\x22']?([^\x22')]+)[\x22']?\s*\)";
  "[\x22']";
  "@(import|charset|namespace)\b[^;]+;?";
  "([\w-]+)\s*:\s*([^;]+);?";
  "\s+"; ";\s*;";
  "\s+([\w:-]+)\s*=\s*[\x22']([^\x22']*)[\x22']";
  "<(svg|g|path|circle|rect|ellipse|line|polygon|defs|title|desc)\b([^>]*)>";
  "<\/?([a-zA-Z][a-zA-Z0-9]*)\b[^>]*>";
  "<svg\b[^>]*>";
  "<svg\b[^>]*>[\s\S]*?<\/svg>";
  "&lt;"; "&gt;"; "&quot;"; "&#x27;"; "&#x2F;";
  "<(\w+)(\s[^>]*)?\s*><\/\1>";
  "[<>]"
]%string.

End Sanitize.

(* ================================================================== *)
(** ** src/utils/validation.ts: schemas and validators                 *)
(* ================================================================== *)

(** The Zod schemas, read on the parsed JSON body the handlers pass in
    ([request.json()]): an absent key is [undefined], and no other
    value is.  An issue is its path joined with dots and its message. *)
Module Zod.

Definition issue : Type := jsstring * jsstring.

(** The outcome of parsing one value: Zod's valid, dirty (a check
    failed, the value stands) and aborted (wrong type). *)
Inductive outcome (A : Type) : Type :=
| Valid (a : A)
| Dirty (a : A) (issues : list issue)
| Aborted (issues : list issue).
Arguments Valid {A} a.
Arguments Dirty {A} a issues.
Arguments Aborted {A} issues.

Definition issues_of {A} (o : outcome A) : list issue :=
  match o with
  | Valid _ => []
  | Dirty _ iss | Aborted iss => iss
  end.

Definition value_of {A} (o : outcome A) : option A :=
  match o with
  | Valid a | Dirty a _ => Some a
  | Aborted _ => None
  end.

Definition is_aborted {A} (o : outcome A) : bool :=
  match o with Aborted _ => true | _ => false end.

Definition parsed_type (v : json) : string :=
  match v with
  | JNull => "null"
  | JBool _ => "boolean"
  | JNum _ _ | JInfinity _ => "number"
  | JStr _ => "string"
  | JArr _ => "array"
  | JObj _ => "object"
  end.

Definition invalid_type (path : string) (expected : string) (v : option json) : issue :=
  (js path,
   match v with
   | None => js "Required"
   | Some v => js "Expected " ++ js expected ++ js ", received " ++ js (parsed_type v)
   end).

(** [z.string()] with an optional [.min(1, msg)] and a [.max(n, msg)]. *)
Definition string_schema (path : string) (min_msg : option string)
    (max : N) (max_msg : string) (v : option json) : outcome jsstring :=
  match v with
  | Some (JStr s) =>
      let too_short :=
        match min_msg with
        | Some msg => if N.of_nat (length s) <? 1 then [(js path, js msg)] else []
        | None => []
        end in
      let too_long := if max <? N.of_nat (length s) then [(js path, js max_msg)] else [] in
      match too_short ++ too_long with
      | [] => Valid s
      | iss => Dirty s iss
      end
  | _ => Aborted [invalid_type path "string" v]
  end.

(** [schema.default(d)]. *)
Definition with_default {A} (d : A) (schema : option json -> outcome A)
    (v : option json) : outcome A :=
  match v with
  | None => Valid d
  | Some _ => schema v
  end.

(** [schema.optional()], as [.partial()] wraps every field. *)
Definition optional {A} (schema : option json -> outcome A)
    (v : option json) : outcome (option A) :=
  match v with
  | None => Valid None
  | Some _ =>
      match schema v with
      | Valid a => Valid (Some a)
      | Dirty a iss => Dirty (Some a) iss
      | Aborted iss => Aborted iss
      end
  end.

Definition as_string (v : json) : option jsstring :=
  match v with JStr s => Some s | _ => None end.

(** [z.union([z.string(), z.array(z.string())]).transform(...)]. *)
Definition tags_schema (v : option json) : outcome (list jsstring) :=
  match v with
  | Some (JStr val) =>
      Valid (List.filter truthy (List.map trim (split 44 val)))
  | Some (JArr l) =>
      match mapM as_string l with
      | Some val => Valid val
      | None => Aborted [(js "tags", js "Invalid input")]
      end
  | _ => Aborted [(js "tags", js "Invalid input")]
  end.

Definition name_schema :=
  string_schema "name" (Some "Component name is required"%string) 100
    "Component name too long".
Definition category_schema := string_schema "category" None 50 "Category name too long".
Definition html_schema := string_schema "html" None 50000 "HTML content too large".
Definition css_schema := string_schema "css" None 50000 "CSS content too large".
Definition js_schema :=
  string_schema "js" None 50000 "JavaScript content too large".

Record ComponentData := mkComponent {
  name : jsstring;
  category : jsstring;
  html : jsstring;
  css : jsstring;
  js_ : jsstring;
  tags : list jsstring
}.

Record UpdateComponentData := mkUpdate {
  u_name : option jsstring;
  u_category : option jsstring;
  u_html : option jsstring;
  u_css : option jsstring;
  u_js : option jsstring;
  u_tags : option (list jsstring)
}.

Definition field (fields : list (jsstring * json)) (k : string) : option json :=
  obj_get fields (js k).

(** [safeParse]: the data, or the issues. *)
Definition SafeParse (A : Type) : Type := (list issue + A)%type.

(** The object schema over the six fields: the issues of all fields
    in the order of the shape, then those of a refinement; the object
    is returned when there is none. *)
Definition object_schema {A B C D E F R : Type} (mk : A -> B -> C -> D -> E -> F -> R)
    (n : outcome A) (c : outcome B) (h : outcome C) (s : outcome D)
    (j : outcome E) (t : outcome F) (refinement : list issue) : SafeParse R :=
  match (issues_of n ++ issues_of c ++ issues_of h ++ issues_of s ++
         issues_of j ++ issues_of t) ++ refinement,
        value_of n, value_of c, value_of h, value_of s, value_of j, value_of t with
  | [], Some n, Some c, Some h, Some s, Some j, Some t => inr (mk n c h s j t)
  | iss, _, _, _, _, _, _ => inl iss
  end.

Definition ComponentSchema (data : json) : SafeParse ComponentData :=
  match data with
  | JObj fields =>
      object_schema mkComponent
        (name_schema (field fields "name"))
        (with_default (js "Other") category_schema (field fields "category"))
        (with_default [] html_schema (field fields "html"))
        (with_default [] css_schema (field fields "css"))
        (with_default [] js_schema (field fields "js"))
        (with_default [] tags_schema (field fields "tags"))
        []
  | _ => inl [invalid_type "" "object" (Some data)]
  end.

(** [Object.keys(data).length] of the parsed update: the schema's keys
    that the input has. *)
Definition update_keys (fields : list (jsstring * json)) : nat :=
  length (List.filter (fun k => bool_decide (is_Some (field fields k)))
            ["name"; "category"; "html"; "css"; "js"; "tags"]%string).

(** [ComponentSchema.partial().refine(data => Object.keys(data).length > 0, msg)];
    the refinement runs unless a field aborted. *)
Definition UpdateComponentSchema (data : json) : SafeParse UpdateComponentData :=
  match data with
  | JObj fields =>
      let n := optional name_schema (field fields "name") in
      let c := optional category_schema (field fields "category") in
      let h := optional html_schema (field fields "html") in
      let s := optional css_schema (field fields "css") in
      let j := optional js_schema (field fields "js") in
      let t := optional tags_schema (field fields "tags") in
      let aborted :=
        is_aborted n || is_aborted c || is_aborted h || is_aborted s ||
        is_aborted j || is_aborted t in
      let refinement :=
        if aborted then []
        else if (0 <? update_keys fields)%nat then []
        else [([], js "At least one field must be provided for update")] in
      object_schema mkUpdate n c h s j t refinement
  | _ => inl [invalid_type "" "object" (Some data)]
  end.

(** An outcome without issues is a valid one: what every schema above
    produces. *)
Definition sound {A} (o : outcome A) : Prop :=
  issues_of o = [] -> exists a, o = Valid a.

End Zod.

Module Validation.
Import Regex RegexSyntax Sanitize Zod.

(** What the two validators return. *)
Inductive result (A : Type) : Type :=
| Success (data : A) (warnings : list jsstring)
| Failure (error : jsstring) (details : list issue).
Arguments Success {A} data warnings.
Arguments Failure {A} error details.

Definition re_angle : RegExp := Eval vm_compute in regexp "[<>]" "g".

Definition strip_angle (s : jsstring) : jsstring := replace re_angle [] s.

Definition validateAndSanitizeComponent (data : json) : result ComponentData :=
  match ComponentSchema data with
  | inl errors => Failure (js "Validation failed") errors
  | inr validated =>
      let originalHTML := html validated in
      let originalCSS := css validated in
      let originalJS := js_ validated in
      let sanitized :=
        mkComponent
          (strip_angle (trim (name validated)))
          (strip_angle (trim (category validated)))
          (sanitizeHTML (html validated))
          (sanitizeCSS (css validated))
          (sanitizeJS (js_ validated))
          (List.filter truthy
             (List.map (fun tag => strip_angle (trim tag)) (tags validated))) in
      let warnings :=
        (if negb (str_eqb originalHTML (html sanitized)) && (0 <? length originalHTML)%nat
         then [js "HTML content was sanitized for security"] else []) ++
        (if negb (str_eqb originalCSS (css sanitized)) && (0 <? length originalCSS)%nat
         then [js "CSS content was sanitized for security"] else []) ++
        (if negb (str_eqb originalJS (js_ sanitized)) && (0 <? length originalJS)%nat
         then [js "JavaScript content was sanitized for security"] else []) in
      Success sanitized warnings
  end.

Definition validateAndSanitizeUpdate (data : json) : result UpdateComponentData :=
  match UpdateComponentSchema data with
  | inl errors => Failure (js "Validation failed") errors
  | inr validated =>
      Success
        (mkUpdate
           (option_map trim (u_name validated))
           (option_map trim (u_category validated))
           (option_map sanitizeHTML (u_html validated))
           (option_map sanitizeCSS (u_css validated))
           (option_map sanitizeJS (u_js validated))
           (option_map (fun tags => List.filter truthy (List.map trim tags))
                       (u_tags validated)))
        []
  end.

End Validation.

(** *** The payload contract as the specification words it *)
Module PayloadSpec.
Import Zod.

Definition chars (s : jsstring) : N := N.of_nat (length s).

(** A present field: a string of at most [n] characters. *)
Definition string_at_most (n : N) (v : json) : Prop :=
  exists s, v = JStr s /\ chars s <= n.

Definition absent_or (P : json -> Prop) (v : option json) : Prop :=
  match v with
  | None => True
  | Some x => P x
  end.

Definition name_ok (v : json) : Prop :=
  exists s, v = JStr s /\ 1 <= chars s /\ chars s <= 100.

Definition tags_ok (v : json) : Prop :=
  (exists s, v = JStr s) \/
  (exists l, v = JArr l /\ Forall (fun x => exists s, x = JStr s) l).

Definition create_acceptable (data : json) : Prop :=
  exists fields, data = JObj fields /\
    (exists v, field fields "name" = Some v /\ name_ok v) /\
    absent_or (string_at_most 50) (field fields "category") /\
    absent_or (string_at_most 50000) (field fields "html") /\
    absent_or (string_at_most 50000) (field fields "css") /\
    absent_or (string_at_most 50000) (field fields "js") /\
    absent_or tags_ok (field fields "tags").

Definition some_field_present (fields : list (jsstring * json)) : Prop :=
  exists k, In k ["name"; "category"; "html"; "css"; "js"; "tags"]%string /\
            is_Some (field fields k).

Definition update_acceptable (data : json) : Prop :=
  exists fields, data = JObj fields /\
    absent_or name_ok (field fields "name") /\
    absent_or (string_at_most 50) (field fields "category") /\
    absent_or (string_at_most 50000) (field fields "html") /\
    absent_or (string_at_most 50000) (field fields "css") /\
    absent_or (string_at_most 50000) (field fields "js") /\
    absent_or tags_ok (field fields "tags") /\
    some_field_present fields.

(** The value a string field takes: the string given, else the default. *)
Definition string_or (d : jsstring) (v : option json) : jsstring :=
  match v with
  | Some (JStr s) => s
  | _ => d
  end.

(** The value [tags] takes: a string split at commas, each piece
    trimmed and the empty ones dropped; an array as it is; else empty. *)
Definition tags_or_empty (v : option json) : list jsstring :=
  match v with
  | Some (JStr s) => List.filter (fun t => bool_decide (t <> [])) (List.map trim (split 44 s))
  | Some (JArr l) => omap as_string l
  | _ => []
  end.

Definition is_angle (c : N) : bool := (c =? 60) || (c =? 62).

Definition no_angle (s : jsstring) : Prop := Forall (fun c => c <> 60 /\ c <> 62) s.

Definition trimmed (s : jsstring) : Prop := trim s = s.

Definition img_onerror : jsstring :=
  js "<img src=x onerror=" ++ [dq] ++ js "alert(1)" ++ [dq] ++ js ">".

Definition btn_payload : json :=
  JObj [(js "name", JStr (js "Btn"));
        (js "category", JStr (js "UI"));
        (js "html", JStr (js "<script>x</script><div>Btn</div>"));
        (js "css", JStr []);
        (js "js", JStr []);
        (js "tags", JArr [JStr (js "ui")])].

(** A name and a tag with white space next to an angle bracket. *)
Definition bracket_payload : json :=
  JObj [(js "name", JStr (js "< a"));
        (js "tags", JArr [JStr (js "< >"); JStr (js "x")])].

End PayloadSpec.

(* ================================================================== *)
(** ** Platform: base64 ([btoa], [atob])                               *)
(* ================================================================== *)

Module Base64.

(** The character of a six-bit value, in the standard alphabet. *)
Definition b64_char (i : N) : N :=
  if i <? 26 then 65 + i
  else if i <? 52 then 71 + i
  else if i <? 62 then i - 4
  else if i =? 62 then 43
  else 47.

Definition b64_index (c : N) : option N :=
  if is_upper c then Some (c - 65)
  else if is_lower c then Some (c - 71)
  else if is_digit c then Some (c + 4)
  else if c =? 43 then Some 62
  else if c =? 47 then Some 63
  else None.

(** The six-bit values of a byte string, without padding. *)
Fixpoint sextets (bytes : list N) : list N :=
  match bytes with
  | a :: b :: c :: rest =>
      a / 4 :: (a mod 4) * 16 + b / 16 :: (b mod 16) * 4 + c / 64 :: c mod 64
        :: sextets rest
  | [a; b] => [a / 4; (a mod 4) * 16 + b / 16; (b mod 16) * 4]
  | [a] => [a / 4; (a mod 4) * 16]
  | [] => []
  end.

Definition padding (bytes : list N) : jsstring :=
  match (length bytes mod 3)%nat with
  | 1%nat => [61; 61]
  | 2%nat => [61]
  | _ => []
  end.

(** [btoa(s)]: [None] is the InvalidCharacterError thrown when a code
    unit is above 0xFF. *)
Definition btoa (s : jsstring) : option jsstring :=
  if forallb (fun c => c <=? 255) s
  then Some (List.map b64_char (sextets s) ++ padding s)
  else None.

(** The bytes of a list of six-bit values; a last group of one value
    cannot occur (its length is refused before). *)
Fixpoint bytes_of (sx : list N) : list N :=
  match sx with
  | w :: x :: y :: z :: rest =>
      w * 4 + x / 16 :: (x mod 16) * 16 + y / 4 :: (y mod 4) * 64 + z
        :: bytes_of rest
  | [w; x; y] => [w * 4 + x / 16; (x mod 16) * 16 + y / 4]
  | [w; x] => [w * 4 + x / 16]
  | _ => []
  end.

Definition is_ascii_whitespace (c : N) : bool :=
  (c =? 9) || (c =? 10) || (c =? 12) || (c =? 13) || (c =? 32).

(** One or two trailing [=] removed. *)
Definition strip_padding (s : jsstring) : jsstring :=
  match rev s with
  | 61 :: 61 :: r => rev r
  | 61 :: r => rev r
  | _ => s
  end.

(** [atob(s)], the forgiving base64 decoding: [None] is the
    InvalidCharacterError. *)
Definition atob (s : jsstring) : option jsstring :=
  let s := List.filter (fun c => negb (is_ascii_whitespace c)) s in
  let s := if (length s mod 4 =? 0)%nat then strip_padding s else s in
  if (length s mod 4 =? 1)%nat then None
  else option_map bytes_of (mapM b64_index s).

End Base64.

(* ================================================================== *)
(** ** Platform: JSON text ([JSON.stringify], [JSON.parse])            *)
(* ================================================================== *)

Module JSONText.

Definition hex_char (d : N) : N := if d <? 10 then 48 + d else 87 + d.

Definition hex4 (c : N) : jsstring :=
  [hex_char (c / 4096); hex_char ((c / 256) mod 16);
   hex_char ((c / 16) mod 16); hex_char (c mod 16)].

Definition unicode_escape (c : N) : jsstring := 92 :: 117 :: hex4 c.

Definition is_lead (c : N) : bool := (55296 <=? c) && (c <=? 56319).
Definition is_trail (c : N) : bool := (56320 <=? c) && (c <=? 57343).

(** One code unit that is no surrogate, as QuoteJSONString writes it. *)
Definition escape_char (c : N) : jsstring :=
  if c =? 8 then js "\b"
  else if c =? 9 then js "\t"
  else if c =? 10 then js "\n"
  else if c =? 12 then js "\f"
  else if c =? 13 then js "\r"
  else if c =? 34 then [92; 34]
  else if c =? 92 then [92; 92]
  else if c <? 32 then unicode_escape c
  else [c].

(** A surrogate pair is written as it is, a lone surrogate escaped. *)
Fixpoint quote_chars (s : jsstring) : jsstring :=
  match s with
  | [] => []
  | c :: rest =>
      if is_lead c then
        match rest with
        | d :: rest' =>
            if is_trail d then c :: d :: quote_chars rest'
            else unicode_escape c ++ quote_chars rest
        | [] => unicode_escape c
        end
      else if is_trail c then unicode_escape c ++ quote_chars rest
      else escape_char c ++ quote_chars rest
  end.

Definition quote (s : jsstring) : jsstring := 34 :: quote_chars s ++ [34].

Fixpoint digits_fuel (fuel : nat) (n : N) (acc : jsstring) : jsstring :=
  match fuel with
  | O => acc
  | S fuel' =>
      let acc' := 48 + n mod 10 :: acc in
      if n <? 10 then acc' else digits_fuel fuel' (n / 10) acc'
  end.

(** The decimal digits of a natural number. *)
Definition digits (n : N) : jsstring := digits_fuel (S (N.to_nat (N.size n))) n [].

Fixpoint strip_zeros (rev_digits : jsstring) : jsstring :=
  match rev_digits with
  | 48 :: rest => strip_zeros rest
  | _ => rev_digits
  end.

(** The text of the decimal [m * 10^e] by the rules of Number::toString
    on the significant digits and the position of the point: an
    integer below 10^21 is written as its digits. *)
Definition decimal_text (m e : Z) : jsstring :=
  let sign := if (m <? 0)%Z then js "-" else [] in
  let ds := digits (Z.abs_N m) in
  if (e =? 0)%Z && (Z.abs m <? 10 ^ 21)%Z then sign ++ ds
  else
    let n := (Z.of_nat (length ds) + e)%Z in
    let s := rev (strip_zeros (rev ds)) in
    let k := Z.of_nat (length s) in
    sign ++
    (if (k <=? n)%Z && (n <=? 21)%Z then s ++ repeat 48 (Z.to_nat (n - k))
     else if (0 <? n)%Z && (n <=? 21)%Z
     then firstn (Z.to_nat n) s ++ js "." ++ skipn (Z.to_nat n) s
     else if (-6 <? n)%Z && (n <=? 0)%Z
     then js "0." ++ repeat 48 (Z.to_nat (- n)) ++ s
     else
       let x := (n - 1)%Z in
       let exponent := js (if (x <? 0)%Z then "e-" else "e+") ++ digits (Z.abs_N x) in
       match s with
       | [d] => d :: exponent
       | d :: rest => d :: js "." ++ rest ++ exponent
       | [] => []
       end).

(** Number::toString: the text of the shortest decimal that reads as
    the number. *)
Definition number_to_string (m e : Z) : jsstring :=
  match Binary64.shortest m e with
  | Some (m', e') => decimal_text m' e'
  | None => js (if (m <? 0)%Z then "-Infinity" else "Infinity")
  end.

(** [JSON.stringify(v)] of a value that holds no [undefined]; a number
    that is not finite is written [null]. *)
Fixpoint stringify (v : json) : jsstring :=
  match v with
  | JNull => js "null"
  | JBool b => js (if b then "true" else "false")
  | JNum m e =>
      match Binary64.shortest m e with
      | Some (m', e') => decimal_text m' e'
      | None => js "null"
      end
  | JInfinity _ => js "null"
  | JStr s => quote s
  | JArr l => js "[" ++ join (js ",") (List.map stringify l) ++ js "]"
  | JObj fields =>
      js "{" ++
      join (js ",") (List.map (fun kv => quote (fst kv) ++ js ":" ++ stringify (snd kv)) fields)
      ++ js "}"
  end.

Definition is_json_ws (c : N) : bool :=
  (c =? 32) || (c =? 9) || (c =? 10) || (c =? 13).

Fixpoint skip_ws (s : jsstring) : jsstring :=
  match s with
  | c :: rest => if is_json_ws c then skip_ws rest else s
  | [] => []
  end.

Definition parse_hex4 (a b c d : N) : option N :=
  match RegexSyntax.hex_value a, RegexSyntax.hex_value b,
        RegexSyntax.hex_value c, RegexSyntax.hex_value d with
  | Some a, Some b, Some c, Some d => Some (4096 * a + 256 * b + 16 * c + d)
  | _, _, _, _ => None
  end.

(** The characters of a string after its opening quote, up to the
    closing one; [acc] holds those read, last first. *)
Fixpoint parse_chars (s acc : jsstring) : option (jsstring * jsstring) :=
  match s with
  | [] => None
  | c :: rest =>
      if c =? 34 then Some (rev acc, rest)
      else if c =? 92 then
        match rest with
        | [] => None
        | e :: rest' =>
            if e =? 117 then
              match rest' with
              | h1 :: h2 :: h3 :: h4 :: rest'' =>
                  match parse_hex4 h1 h2 h3 h4 with
                  | Some u => parse_chars rest'' (u :: acc)
                  | None => None
                  end
              | _ => None
              end
            else if e =? 34 then parse_chars rest' (34 :: acc)
            else if e =? 92 then parse_chars rest' (92 :: acc)
            else if e =? 47 then parse_chars rest' (47 :: acc)
            else if e =? 98 then parse_chars rest' (8 :: acc)
            else if e =? 102 then parse_chars rest' (12 :: acc)
            else if e =? 110 then parse_chars rest' (10 :: acc)
            else if e =? 114 then parse_chars rest' (13 :: acc)
            else if e =? 116 then parse_chars rest' (9 :: acc)
            else None
        end
      else if c <? 32 then None
      else parse_chars rest (c :: acc)
  end.

Fixpoint span_digits (s : jsstring) : jsstring * jsstring :=
  match s with
  | c :: rest =>
      if is_digit c then let '(ds, r) := span_digits rest in (c :: ds, r)
      else ([], s)
  | [] => ([], [])
  end.

(** The value of a run of digits read after the value [v]. *)
Definition dval (ds : jsstring) (v : N) : N :=
  fold_left (fun v c => 10 * v + (c - 48)) ds v.

Fixpoint canonical (fuel : nat) (m e : Z) : json :=
  match fuel with
  | O => JNum m e
  | S fuel' =>
      if (e <? 0)%Z && (m mod 10 =? 0)%Z then canonical fuel' (m / 10) (e + 1)
      else JNum m e
  end.

(** The number [m * 10^e] in the canonical form of [JNum]. *)
Definition number (m e : Z) : json :=
  if (m =? 0)%Z then JNum 0 0
  else if (e =? 0)%Z then JNum m 0
  else if (0 <? e)%Z then JNum (m * 10 ^ e) 0
  else canonical (Z.to_nat (- e)) m e.

(** The number that the literal [m * 10^e] is read as. *)
Definition json_number (m e : Z) : json :=
  match Binary64.shortest m e with
  | Some (m', e') => JNum m' e'
  | None => JInfinity (m <? 0)%Z
  end.

(** An array index: the decimal text, without a leading zero, of an
    integer below [2^32 - 1]. *)
Definition array_index (k : jsstring) : option N :=
  match k with
  | [] => None
  | [48] => Some 0
  | c :: _ =>
      if (49 <=? c) && (c <=? 57) && forallb is_digit k && (length k <=? 10)%nat
         && (dval k 0 <? 4294967295)
      then Some (dval k 0) else None
  end.

(** CreateDataProperty on the own properties of an object, in the
    order of their creation: a key that is there keeps its place and
    takes the new value. *)
Fixpoint define (fields : list (jsstring * json)) (k : jsstring) (v : json)
  : list (jsstring * json) :=
  match fields with
  | [] => [(k, v)]
  | (k', v') :: rest =>
      if str_eqb k' k then (k', v) :: rest else (k', v') :: define rest k v
  end.

(** An array-index property put at its place among those before it. *)
Fixpoint place (i : N) (kv : jsstring * json) (sorted : list (N * (jsstring * json)))
  : list (N * (jsstring * json)) :=
  match sorted with
  | [] => [(i, kv)]
  | (i', kv') :: rest =>
      if i <? i' then (i, kv) :: sorted else (i', kv') :: place i kv rest
  end.

(** The own properties of the object that the members of a JSON text
    make, as they are enumerated: the array indices in ascending
    order, then the other keys in the order of their creation. *)
Definition own_properties (members : list (jsstring * json)) : list (jsstring * json) :=
  let fields := fold_left (fun fields kv => define fields (fst kv) (snd kv)) members [] in
  let indexed :=
    fold_left (fun sorted kv =>
                 match array_index (fst kv) with
                 | Some i => place i kv sorted
                 | None => sorted
                 end) fields [] in
  List.map snd indexed ++
  List.filter (fun kv => negb (bool_decide (is_Some (array_index (fst kv))))) fields.

(** After the character [c], when it is present. *)
Definition after (c : N) (s : jsstring) : option jsstring :=
  match s with
  | d :: rest => if d =? c then Some rest else None
  | [] => None
  end.

Fixpoint strip_prefix (p s : jsstring) : option jsstring :=
  match p, s with
  | [], _ => Some s
  | c :: p', d :: s' => if c =? d then strip_prefix p' s' else None
  | _ :: _, [] => None
  end.

(** The fraction after the integer part: its digits and the rest. *)
Definition parse_fraction (s : jsstring) : option (jsstring * jsstring) :=
  match after 46 s with
  | Some s1 =>
      let '(f, s2) := span_digits s1 in
      match f with [] => None | _ => Some (f, s2) end
  | None => Some ([], s)
  end.

Definition parse_exponent (s : jsstring) : option (Z * jsstring) :=
  match s with
  | c :: s1 =>
      if (c =? 101) || (c =? 69) then
        let '(esign, s2) :=
          match after 45 s1, after 43 s1 with
          | Some t, _ => ((-1)%Z, t)
          | None, Some t => (1%Z, t)
          | None, None => (1%Z, s1)
          end in
        let '(ex, s3) := span_digits s2 in
        match ex with
        | [] => None
        | _ => Some ((esign * Z.of_N (dval ex 0))%Z, s3)
        end
      else Some (0%Z, s)
  | [] => Some (0%Z, s)
  end.

Definition parse_number (s : jsstring) : option (json * jsstring) :=
  let '(negative, s1) :=
    match after 45 s with
    | Some s' => (true, s')
    | None => (false, s)
    end in
  let '(int, s2) := span_digits s1 in
  match int with
  | [] => None
  | d :: more =>
      if (d =? 48) && negb (bool_decide (more = [])) then None
      else
        '(frac, s3) ← parse_fraction s2;
        '(ex, s4) ← parse_exponent s3;
        let mantissa := Z.of_N (dval (int ++ frac) 0) in
        Some (json_number (if negative then (- mantissa)%Z else mantissa)
                          (ex - Z.of_nat (length frac)),
              s4)
  end.

(** A value, the members of an object after its brace or a comma, and
    the elements of an array likewise; [None] is the SyntaxError. *)
Fixpoint parse_value (fuel : nat) (s : jsstring) : option (json * jsstring) :=
  match fuel with
  | O => None
  | S fuel' =>
      match skip_ws s with
      | [] => None
      | c :: s' =>
          if c =? 34 then
            '(str, r) ← parse_chars s' []; Some (JStr str, r)
          else if c =? 123 then
            match after 125 (skip_ws s') with
            | Some r => Some (JObj [], r)
            | None =>
                '(members, r) ← parse_members fuel' s';
                Some (JObj (own_properties members), r)
            end
          else if c =? 91 then
            match after 93 (skip_ws s') with
            | Some r => Some (JArr [], r)
            | None => '(items, r) ← parse_elements fuel' s'; Some (JArr items, r)
            end
          else
            match strip_prefix (js "true") (c :: s'),
                  strip_prefix (js "false") (c :: s'),
                  strip_prefix (js "null") (c :: s') with
            | Some r, _, _ => Some (JBool true, r)
            | _, Some r, _ => Some (JBool false, r)
            | _, _, Some r => Some (JNull, r)
            | None, None, None => parse_number (c :: s')
            end
      end
  end
with parse_members (fuel : nat) (s : jsstring)
  : option (list (jsstring * json) * jsstring) :=
  match fuel with
  | O => None
  | S fuel' =>
      s' ← after 34 (skip_ws s);
      '(key, r1) ← parse_chars s' [];
      r2 ← after 58 (skip_ws r1);
      '(v, r3) ← parse_value fuel' r2;
      match after 44 (skip_ws r3), after 125 (skip_ws r3) with
      | Some r4, _ =>
          '(fields, r5) ← parse_members fuel' r4; Some ((key, v) :: fields, r5)
      | None, Some r4 => Some ([(key, v)], r4)
      | None, None => None
      end
  end
with parse_elements (fuel : nat) (s : jsstring) : option (list json * jsstring) :=
  match fuel with
  | O => None
  | S fuel' =>
      '(v, r1) ← parse_value fuel' s;
      match after 44 (skip_ws r1), after 93 (skip_ws r1) with
      | Some r2, _ => '(items, r3) ← parse_elements fuel' r2; Some (v :: items, r3)
      | None, Some r2 => Some ([v], r2)
      | None, None => None
      end
  end.

(** [JSON.parse(text)]. *)
Definition parse (text : jsstring) : option json :=
  match parse_value (S (length text)) text with
  | Some (v, r) => match skip_ws r with [] => Some v | _ => None end
  | None => None
  end.

End JSONText.

(* ================================================================== *)
(** ** Platform: [TextEncoder] and HMAC with SHA-256                    *)
(* ================================================================== *)

(** Bytes are numbers below 256, as the elements of a [Uint8Array]. *)
Module WebCrypto.

Definition replacement : list N := [239; 191; 189].

(** [new TextEncoder().encode(s)]: UTF-8, a lone surrogate becoming
    U+FFFD. *)
Fixpoint utf8 (s : jsstring) : list N :=
  match s with
  | [] => []
  | c :: rest =>
      if JSONText.is_lead c then
        match rest with
        | d :: rest' =>
            if JSONText.is_trail d then
              let cp := 65536 + (c - 55296) * 1024 + (d - 56320) in
              240 + cp / 262144 :: 128 + (cp / 4096) mod 64
                :: 128 + (cp / 64) mod 64 :: 128 + cp mod 64 :: utf8 rest'
            else replacement ++ utf8 rest
        | [] => replacement
        end
      else if JSONText.is_trail c then replacement ++ utf8 rest
      else if c <? 128 then c :: utf8 rest
      else if c <? 2048 then 192 + c / 64 :: 128 + c mod 64 :: utf8 rest
      else 224 + c / 4096 :: 128 + (c / 64) mod 64 :: 128 + c mod 64 :: utf8 rest
  end.

Definition mask32 : N := 4294967295.

Definition add32 (a b : N) : N := (a + b) mod 4294967296.

Definition rotr (n x : N) : N :=
  N.land (N.lor (N.shiftr x n) (N.shiftl x (32 - n))) mask32.

Definition Ch (x y z : N) : N :=
  N.lxor (N.land x y) (N.land (N.lxor x mask32) z).
Definition Maj (x y z : N) : N :=
  N.lxor (N.land x y) (N.lxor (N.land x z) (N.land y z)).
Definition Sigma0 (x : N) : N := N.lxor (rotr 2 x) (N.lxor (rotr 13 x) (rotr 22 x)).
Definition Sigma1 (x : N) : N := N.lxor (rotr 6 x) (N.lxor (rotr 11 x) (rotr 25 x)).
Definition sigma0 (x : N) : N := N.lxor (rotr 7 x) (N.lxor (rotr 18 x) (N.shiftr x 3)).
Definition sigma1 (x : N) : N := N.lxor (rotr 17 x) (N.lxor (rotr 19 x) (N.shiftr x 10)).

(** The constants, as FIPS 180-4 defines them: the first 32 bits of the
    fractional parts of the cube roots of the first 64 primes, and of
    the square roots of the first 8 primes for the initial hash. *)
Definition divides (d n : N) : bool := n mod d =? 0.

Definition is_prime (n : N) : bool :=
  (2 <=? n) &&
  forallb (fun d => negb (divides d n) || (n <? d * d))
          (List.map N.of_nat (seq 2 (N.to_nat n - 2))).

Fixpoint primes_from (fuel count : nat) (n : N) : list N :=
  match fuel, count with
  | S fuel, S rest =>
      if is_prime n then n :: primes_from fuel rest (n + 1)
      else primes_from fuel count (n + 1)
  | _, _ => []
  end.

Definition first_primes (count : nat) : list N := primes_from 400 count 2.

(** The largest [r] with [r ^ 3 <= n], found bit by bit below [2 ^ bits]. *)
Fixpoint cube_root (bits : nat) (n r : N) : N :=
  match bits with
  | O => r
  | S bits =>
      let r1 := r + 2 ^ N.of_nat bits in
      if r1 ^ 3 <=? n then cube_root bits n r1 else cube_root bits n r
  end.

Definition cube_root_fraction (p : N) : N := cube_root 40 (p * 2 ^ 96) 0 mod 2 ^ 32.
Definition square_root_fraction (p : N) : N := N.sqrt (p * 2 ^ 64) mod 2 ^ 32.

Definition K : list N := Eval vm_compute in List.map cube_root_fraction (first_primes 64).

Definition H0 : list N := Eval vm_compute in List.map square_root_fraction (first_primes 8).

(** The message, a 1 bit, zeros, and the bit length on 64 bits. *)
Definition pad (msg : list N) : list N :=
  let len := N.of_nat (length msg) in
  let zeros := N.to_nat ((119 - len mod 64) mod 64) in
  let bits := 8 * len in
  msg ++ [128] ++ repeat 0 zeros ++
  List.map (fun i => (bits / 2 ^ (8 * i)) mod 256) [7; 6; 5; 4; 3; 2; 1; 0].

(** Big-endian 32-bit words of a run of bytes. *)
Fixpoint words (bytes : list N) : list N :=
  match bytes with
  | a :: b :: c :: d :: rest => 16777216 * a + 65536 * b + 256 * c + d :: words rest
  | _ => []
  end.

(** The message schedule, latest word first: [w] holds W(t-1), W(t-2), ... *)
Fixpoint schedule (n : nat) (w : list N) : list N :=
  match n with
  | O => w
  | S n' =>
      let next :=
        add32 (add32 (sigma1 (nth 1 w 0)) (nth 6 w 0))
              (add32 (sigma0 (nth 14 w 0)) (nth 15 w 0)) in
      schedule n' (next :: w)
  end.

Definition round (state : list N) (kw : N * N) : list N :=
  match state with
  | [a; b; c; d; e; f; g; h] =>
      let t1 := add32 (add32 (add32 h (Sigma1 e)) (add32 (Ch e f g) (fst kw))) (snd kw) in
      let t2 := add32 (Sigma0 a) (Maj a b c) in
      [add32 t1 t2; a; b; c; add32 d t1; e; f; g]
  | _ => state
  end.

Definition compress (state : list N) (block : list N) : list N :=
  let w := rev (schedule 48 (rev (words block))) in
  let out := fold_left round (combine K w) state in
  List.map (fun p => add32 (fst p) (snd p)) (combine state out).

Fixpoint blocks (fuel : nat) (state : list N) (bytes : list N) : list N :=
  match fuel with
  | O => state
  | S fuel' =>
      match bytes with
      | [] => state
      | _ => blocks fuel' (compress state (firstn 64 bytes)) (skipn 64 bytes)
      end
  end.

Definition word_bytes (w : N) : list N :=
  [(w / 16777216) mod 256; (w / 65536) mod 256; (w / 256) mod 256; w mod 256].

Definition sha256 (msg : list N) : list N :=
  let padded := pad msg in
  flat_map word_bytes (blocks (length padded) H0 padded).

Definition xor_pad (byte : N) (key : list N) : list N :=
  List.map (fun k => N.lxor k byte) (key ++ repeat 0 (64 - length key)).

(** HMAC (RFC 2104) with SHA-256, block size 64. *)
Definition hmac_sha256 (key msg : list N) : list N :=
  let key := if (64 <? length key)%nat then sha256 key else key in
  sha256 (xor_pad 92 key ++ sha256 (xor_pad 54 key ++ msg)).

(** An imported HMAC key: [importKey('raw', ...)] refuses an empty key
    with a DataError. *)
Definition importKey (secret : jsstring) : option (list N) :=
  match utf8 secret with
  | [] => None
  | key => Some key
  end.

(** [sign('HMAC', key, data)]. *)
Definition sign (key : list N) (message : jsstring) : list N :=
  hmac_sha256 key (utf8 message).

(** [verify('HMAC', key, signature, data)]. *)
Definition verify (key : list N) (signature : list N) (message : jsstring) : bool :=
  bool_decide (signature = hmac_sha256 key (utf8 message)).

End WebCrypto.

(* ================================================================== *)
(** ** JavaScript coercions of parsed JSON values                      *)
(* ================================================================== *)

Module JSValue.
Import JSONText.

Inductive jsnumber : Type :=
| NaN
| Infinity (negative : bool)
| Decimal (m e : Z).

(** [!!v]. *)
Definition truthy_value (v : json) : bool :=
  match v with
  | JNull => false
  | JBool b => b
  | JNum m e => negb (Binary64.is_zero (Binary64.nearest m e))
  | JInfinity _ => true
  | JStr s => truthy s
  | JArr _ | JObj _ => true
  end.

Definition of_json_number (v : json) : jsnumber :=
  match v with
  | JNum m e => Decimal m e
  | _ => NaN
  end.

Definition radix_digit (radix : Z) (c : N) : option Z :=
  match Num.hex_digit c with
  | Some d => if (d <? radix)%Z then Some d else None
  | None => None
  end.

Definition radix_literal (radix : Z) (ds : jsstring) : jsnumber :=
  match ds with
  | [] => NaN
  | _ =>
      if forallb (fun c => bool_decide (is_Some (radix_digit radix c))) ds
      then match Num.digits_value radix (radix_digit radix) ds None with
           | Some z => Decimal z 0
           | None => NaN
           end
      else NaN
  end.

(** StrDecimalLiteral, all of the text. *)
Definition decimal_literal (s : jsstring) : jsnumber :=
  let '(negative, s1) :=
    match s with
    | 45 :: s' => (true, s')
    | 43 :: s' => (false, s')
    | _ => (false, s)
    end in
  if str_eqb s1 (js "Infinity") then Infinity negative
  else
    let '(int, s2) := span_digits s1 in
    let '(frac, s3) :=
      match s2 with
      | 46 :: s' => span_digits s'
      | _ => ([], s2)
      end in
    match int ++ frac with
    | [] => NaN
    | ds =>
        let exponent :=
          match s3 with
          | [] => Some 0%Z
          | 101 :: s' | 69 :: s' =>
              let '(esign, s'') :=
                match s' with
                | 45 :: t => ((-1)%Z, t)
                | 43 :: t => (1%Z, t)
                | _ => (1%Z, s')
                end in
              match span_digits s'' with
              | ((_ :: _) as ex, []) => Some (esign * Z.of_N (dval ex 0))%Z
              | _ => None
              end
          | _ => None
          end in
        match exponent with
        | None => NaN
        | Some ex =>
            let mantissa := Z.of_N (dval ds 0) in
            of_json_number
              (number (if negative then (- mantissa)%Z else mantissa)
                      (ex - Z.of_nat (length frac)))
        end
    end.

(** StringToNumber. *)
Definition string_to_number (s : jsstring) : jsnumber :=
  match trim s with
  | [] => Decimal 0 0
  | 48 :: 120 :: ds | 48 :: 88 :: ds => radix_literal 16 ds
  | 48 :: 111 :: ds | 48 :: 79 :: ds => radix_literal 8 ds
  | 48 :: 98 :: ds | 48 :: 66 :: ds => radix_literal 2 ds
  | t => decimal_literal t
  end.

(** ToString of a value read from JSON.  An array is joined with
    commas, [null] standing for the empty text; an object without a
    [toString] of its own is [[object Object]]; [None] is the
    TypeError of an object with a [toString] of its own, which is no
    function whatever the JSON text gave it, [valueOf] returning the
    object itself or being no function either. *)
Fixpoint to_string (v : json) : option jsstring :=
  match v with
  | JNull => Some (js "null")
  | JBool b => Some (js (if b then "true" else "false"))
  | JNum m e => Some (number_to_string m e)
  | JInfinity negative => Some (js (if negative then "-Infinity" else "Infinity"))
  | JStr s => Some s
  | JArr l =>
      option_map (join (js ","))
        ((fix elements (l : list json) : option (list jsstring) :=
            match l with
            | [] => Some []
            | x :: rest =>
                match match x with JNull => Some [] | _ => to_string x end,
                      elements rest with
                | Some text, Some texts => Some (text :: texts)
                | _, _ => None
                end
            end) l)
  | JObj fields =>
      match obj_get fields (js "toString") with
      | Some _ => None
      | None => Some (js "[object Object]")
      end
  end.

(** [`${x}`] for a property that may be [undefined]. *)
Definition template (x : option json) : option jsstring :=
  match x with
  | Some v => to_string v
  | None => Some (js "undefined")
  end.

(** ToNumber: an array or an object goes through its text; [None] is
    the TypeError of [to_string]. *)
Definition to_number (v : json) : option jsnumber :=
  match v with
  | JNull => Some (Decimal 0 0)
  | JBool b => Some (Decimal (if b then 1 else 0) 0)
  | JNum m e => Some (Decimal m e)
  | JInfinity negative => Some (Infinity negative)
  | JStr s => Some (string_to_number s)
  | JArr _ | JObj _ => option_map string_to_number (to_string v)
  end.

(** [x < n] for an integer [n] that is a binary64 value. *)
Definition less_than (x : jsnumber) (n : Z) : bool :=
  match x with
  | NaN => false
  | Infinity negative => negative
  | Decimal m e => Binary64.below (Binary64.nearest m e) n
  end.

(** [v.k] on a value that is not [null]. *)
Definition prop (v : json) (k : string) : option json :=
  match v with
  | JObj fields => obj_get fields (js k)
  | _ => None
  end.

(** [v === text] for a string literal [text]. *)
Definition is_string (v : option json) (text : string) : bool :=
  match v with
  | Some (JStr s) => str_eqb s (js text)
  | _ => false
  end.

End JSValue.

(* ================================================================== *)
(** ** src/jwt.ts: JWTManager                                          *)
(* ================================================================== *)

Module TokenConfig.
Record t := mk {
  accessTokenExpiry : jsstring;
  refreshTokenExpiry : jsstring
}.
End TokenConfig.

Module JWTManager.
Import Regex RegexSyntax JSONText JSValue Base64.

(** What the methods throw: the four errors of the class, and the
    exceptions of the platform functions they call. *)
Inductive Error : Type :=
| InvalidJWTFormat            (* 'Invalid JWT format' *)
| InvalidJWTSignature         (* 'Invalid JWT signature' *)
| JWTExpired                  (* 'JWT expired' *)
| InvalidRefreshToken         (* 'Invalid refresh token' *)
| SecretRequired              (* 'JWT_SECRET environment variable is required' *)
| InvalidCharacterError       (* btoa, atob *)
| DataError                   (* importKey *)
| SyntaxError                 (* JSON.parse *)
| TypeError.                  (* a property of null, an object as a primitive *)

Definition Result (A : Type) : Type := (Error + A)%type.

Definition throw {A} (e : Error) : Result A := inl e.

Definition or_throw {A} (e : Error) (x : option A) : Result A :=
  match x with
  | Some a => inr a
  | None => inl e
  end.

Definition bind {A B} (x : Result A) (k : A -> Result B) : Result B :=
  match x with
  | inl e => inl e
  | inr a => k a
  end.

Notation "'let*' x := e 'in' k" := (bind e (fun x => k))
  (at level 10, x name, e at level 100, k at level 200).

Record t := mk {
  secret : jsstring;
  accessTokenExpiry : jsstring;
  refreshTokenExpiry : jsstring
}.

Record AuthTokens := mkTokens {
  accessToken : jsstring;
  refreshToken : jsstring;
  expiresIn : option Z
}.

(** [new JWTManager(secret, config)]. *)
Definition new (secret : jsstring) (config : option TokenConfig.t) : t :=
  mk secret
     (or_else (option_map TokenConfig.accessTokenExpiry config) (js "1h"))
     (or_else (option_map TokenConfig.refreshTokenExpiry config) (js "30d")).

Definition fromEnv (env : Env) : Result t :=
  match JWT_SECRET env with
  | Some s =>
      if truthy s then
        inr (new s (Some (TokenConfig.mk
                            (or_else (ACCESS_TOKEN_EXPIRY env) (js "1h"))
                            (or_else (REFRESH_TOKEN_EXPIRY env) (js "30d")))))
      else throw SecretRequired
  | None => throw SecretRequired
  end.

(** [parseExpiry]: the seconds when the result is finite.  [None] is
    NaN or an infinity: the callers add the result to the clock and
    hand it to [JSON.stringify], which writes [null] for each of the
    three. *)
Definition parseExpiry (expiry : jsstring) : option Z :=
  let unit := match rev expiry with c :: _ => [c] | [] => [] end in
  let value := Num.parseInt (removelast expiry) in
  Num.finite
    (if str_eqb unit (js "s") then value
     else if str_eqb unit (js "m") then Num.mul value 60
     else if str_eqb unit (js "h") then Num.mul (Num.mul value 60) 60
     else if str_eqb unit (js "d") then Num.mul (Num.mul (Num.mul value 24) 60) 60
     else Num.Integer (60 * 60)%Z).

Definition re_equals : RegExp := Eval vm_compute in regexp "=" "g".
Definition re_plus : RegExp := Eval vm_compute in regexp "\+" "g".
Definition re_slash : RegExp := Eval vm_compute in regexp "\/" "g".
Definition re_minus : RegExp := Eval vm_compute in regexp "-" "g".
Definition re_underscore : RegExp := Eval vm_compute in regexp "_" "g".

(** [btoa(s).replace(/=/g, '').replace(/\+/g, '-').replace(/\//g, '_')]. *)
Definition encodeBase64Url (s : jsstring) : Result jsstring :=
  let* b := or_throw InvalidCharacterError (btoa s) in
  inr (replace re_slash (js "_") (replace re_plus (js "-") (replace re_equals [] b))).

(** [atob(s.replace(/-/g, '+').replace(/_/g, '/'))]. *)
Definition decodeBase64Url (s : jsstring) : Result jsstring :=
  or_throw InvalidCharacterError
    (atob (replace re_underscore (js "/") (replace re_minus (js "+") s))).

Definition header : json :=
  JObj [(js "alg", JStr (js "HS256")); (js "typ", JStr (js "JWT"))].

(** [Math.floor(Date.now() / 1000)]. *)
Definition seconds (nowMs : Z) : Z := (nowMs / 1000)%Z.

(** [now + expirySeconds]. *)
Definition plus (now : Z) (expirySeconds : option Z) : option Z :=
  match expirySeconds with
  | Some e => Num.finite (Num.round (now + e)%Z)
  | None => None
  end.

(** A number that may not be finite, as [JSON.stringify] sees it. *)
Definition number_or_null (x : option Z) : json :=
  match x with
  | Some z => JInt z
  | None => JNull
  end.

(** The properties of an object literal that are not [undefined]. *)
Definition defined (fields : list (jsstring * option json)) : list (jsstring * json) :=
  omap (fun kv => option_map (pair (fst kv)) (snd kv)) fields.

(** [createJWT(payload, expirySeconds)] at the time [nowMs]. *)
Definition createJWT (this : t) (payload : list (jsstring * option json))
    (expirySeconds : option Z) (nowMs : Z) : Result jsstring :=
  let now := seconds nowMs in
  let jwtPayload :=
    JObj (defined payload ++
          [(js "iat", JInt now);
           (js "exp", number_or_null (plus now expirySeconds))]) in
  let* encodedHeader := encodeBase64Url (stringify header) in
  let* encodedPayload := encodeBase64Url (stringify jwtPayload) in
  let message := encodedHeader ++ js "." ++ encodedPayload in
  let* key := or_throw DataError (WebCrypto.importKey (secret this)) in
  let signature := WebCrypto.sign key message in
  let* encodedSignature := encodeBase64Url signature in
  inr (message ++ js "." ++ encodedSignature).

(** [generateTokens(userId, config)]; [userId] is declared a string,
    and [refreshTokens] passes whatever [payload.userId] holds. *)
Definition generateTokens (this : t) (userId : option json)
    (config : option TokenConfig.t) (nowMs : Z) : Result AuthTokens :=
  let accessExpiry :=
    parseExpiry (or_else (option_map TokenConfig.accessTokenExpiry config)
                         (accessTokenExpiry this)) in
  let refreshExpiry :=
    parseExpiry (or_else (option_map TokenConfig.refreshTokenExpiry config)
                         (refreshTokenExpiry this)) in
  let accessTokenPayload := [(js "userId", userId); (js "type", Some (JStr (js "access")))] in
  let refreshTokenPayload := [(js "userId", userId); (js "type", Some (JStr (js "refresh")))] in
  let* accessToken := createJWT this accessTokenPayload accessExpiry nowMs in
  let* refreshToken := createJWT this refreshTokenPayload refreshExpiry nowMs in
  inr (mkTokens accessToken refreshToken accessExpiry).

(** [payload.exp && payload.exp < now]: the comparison turns [exp]
    into a number, which throws a TypeError on an object that has no
    primitive value. *)
Definition expired (payload : json) (now : Z) : Result bool :=
  match prop payload "exp" with
  | Some exp =>
      if truthy_value exp then
        let* x := or_throw TypeError (to_number exp) in
        inr (less_than x now)
      else inr false
  | None => inr false
  end.

(** [verifyToken(token)] at the time [nowMs]. *)
Definition verifyToken (this : t) (token : jsstring) (nowMs : Z) : Result json :=
  match split 46 token with
  | [encodedHeader; encodedPayload; encodedSignature] =>
      let message := encodedHeader ++ js "." ++ encodedPayload in
      let* key := or_throw DataError (WebCrypto.importKey (secret this)) in
      let* signature := decodeBase64Url encodedSignature in
      if negb (WebCrypto.verify key signature message) then throw InvalidJWTSignature
      else
        let* payloadJson := decodeBase64Url encodedPayload in
        let* payload := or_throw SyntaxError (parse payloadJson) in
        let now := seconds nowMs in
        match payload with
        | JNull => throw TypeError
        | _ =>
            let* late := expired payload now in
            if late then throw JWTExpired else inr payload
        end
  | _ => throw InvalidJWTFormat
  end.

(** [refreshTokens(refreshToken)] at the time [nowMs]. *)
Definition refreshTokens (this : t) (refreshToken : jsstring) (nowMs : Z)
  : Result AuthTokens :=
  let* payload := verifyToken this refreshToken nowMs in
  if negb (is_string (prop payload "type") "refresh")
  then throw InvalidRefreshToken
  else generateTokens this (prop payload "userId") None nowMs.

End JWTManager.

(* ================================================================== *)
(** ** src/middleware/auth.ts: the authentication gateway              *)
(* ================================================================== *)

Module Auth.
Import JSONText JSValue.

(** The message of an error: the texts the class throws; a platform
    exception is written by its name, its text being the platform's. *)
Definition message (e : JWTManager.Error) : jsstring :=
  match e with
  | JWTManager.InvalidJWTFormat => js "Invalid JWT format"
  | JWTManager.InvalidJWTSignature => js "Invalid JWT signature"
  | JWTManager.JWTExpired => js "JWT expired"
  | JWTManager.InvalidRefreshToken => js "Invalid refresh token"
  | JWTManager.SecretRequired => js "JWT_SECRET environment variable is required"
  | JWTManager.InvalidCharacterError => js "InvalidCharacterError"
  | JWTManager.DataError => js "DataError"
  | JWTManager.SyntaxError => js "SyntaxError"
  | JWTManager.TypeError => js "TypeError"
  end.

Definition json_response (status : Z) (fields : list (jsstring * json)) : Response :=
  mkResponse status json_headers (JObj fields).

(** [getCookieValue]: [None] is [null] or [undefined]. *)
Fixpoint cookie_value (cookies : list jsstring) (name : jsstring) : option jsstring :=
  match cookies with
  | [] => None
  | cookie :: rest =>
      match split 61 (trim cookie) with
      | key :: values =>
          if str_eqb key name then List.head values else cookie_value rest name
      | [] => cookie_value rest name
      end
  end.

Definition getCookieValue (cookieHeader : option jsstring) (name : jsstring)
  : option jsstring :=
  match cookieHeader with
  | Some h => if truthy h then cookie_value (split 59 h) name else None
  | None => None
  end.

(** [validateJWT(token, env, request)] at the time [nowMs], the request
    being optional: [None] is the [null] of a successful
    authentication.  With a request the subject is written into a log
    line inside the [try], and a subject that has no text is caught as
    any other failure. *)
Definition validateJWT_for (request : option Request) (token : jsstring) (env : Env)
    (nowMs : Z) : option Response :=
  if negb (otruthy (JWT_SECRET env)) then
    Some (json_response 501
            [(js "error", JStr (js "JWT not configured"));
             (js "message", JStr (js "JWT authentication not available"))])
  else
    match JWTManager.bind (JWTManager.fromEnv env)
            (fun jwtManager => JWTManager.verifyToken jwtManager token nowMs) with
    | inr payload =>
        if negb (is_string (prop payload "type") "access") then
          Some (json_response 401
                  [(js "error", JStr (js "Invalid token type"));
                   (js "message", JStr (js "Only access tokens are allowed"))])
        else
          match request with
          | Some _ =>
              match template (prop payload "userId") with
              | Some _ => None
              | None =>
                  Some (json_response 401
                          [(js "error", JStr (js "Invalid JWT"));
                           (js "message", JStr (message JWTManager.TypeError))])
              end
          | None => None
          end
    | inl error =>
        Some (json_response 401
                [(js "error", JStr (js "Invalid JWT"));
                 (js "message", JStr (message error))])
    end.

(** [validateJWT(token, env)], the call without a request. *)
Definition validateJWT (token : jsstring) (env : Env) (nowMs : Z) : option Response :=
  validateJWT_for None token env nowMs.

(** [checkCookieAuth]; an exception of [JSON.parse] or of reading a
    property of [null] is caught and gives [false]. *)
Definition checkCookieAuth (request : Request) (env : Env) : bool :=
  match SESSIONS env with
  | None => false
  | Some sessions =>
      let cookieHeader := headers_get (headers request) (js "Cookie") in
      match getCookieValue cookieHeader (js "adminSession") with
      | Some sessionId =>
          if negb (truthy sessionId) then false
          else
            match sessions !! sessionId with
            | Some sessionData =>
                if truthy sessionData then
                  match parse sessionData with
                  | Some JNull => false
                  | Some session =>
                      match prop session "isAdmin" with
                      | Some (JBool true) => true
                      | _ => false
                      end
                  | None => false
                  end
                else false
            | None => false
            end
      | None => false
      end
  end.

Definition constantTimeEquals (a b : jsstring) : bool :=
  if negb (length a =? length b)%nat then false
  else
    let result :=
      fold_left (fun result p => N.lor result (N.lxor (fst p) (snd p))) (combine a b) 0 in
    result =? 0.

Definition validatePassword (request : Request) (env : Env) : bool :=
  match ADMIN_PASSWORD env with
  | None => false
  | Some adminPassword =>
      if negb (truthy adminPassword) then false
      else
        let authHeader := headers_get (headers request) (js "Authorization") in
        let adminKeyHeader := headers_get (headers request) (js "X-Admin-API-Key") in
        let providedPassword :=
          match authHeader with
          | Some a =>
              if startsWith a (js "Bearer ") then Some (substring_from 7 a)
              else if truthy a then Some a
              else if otruthy adminKeyHeader then adminKeyHeader
              else None
          | None => if otruthy adminKeyHeader then adminKeyHeader else None
          end in
        match providedPassword with
        | Some p => if truthy p then constantTimeEquals p adminPassword else false
        | None => false
        end
  end.

Definition misconfigured : Response :=
  json_response 500
    [(js "error", JStr (js "Admin authentication not configured"));
     (js "message", JStr (js "Please contact system administrator"))].

Definition authentication_required : Response :=
  json_response 401
    [(js "error", JStr (js "Authentication required"));
     (js "message",
       JStr (js "Admin authentication required. Please login or provide valid credentials."));
     (js "methods", JObj [
        (js "jwt", JStr (js "Provide Authorization: Bearer <access_token> header"));
        (js "cookie", JStr (js "Login via /api/auth/login endpoint"));
        (js "header",
          JStr (js "Provide X-Admin-API-Key header or Authorization header with password"))])].

(** The first step of [requireAuth]: a Bearer header whose token
    [validateJWT] accepts. *)
Definition jwt_accepted (request : Request) (env : Env) (nowMs : Z) : bool :=
  match headers_get (headers request) (js "Authorization") with
  | Some authHeader =>
      if startsWith authHeader (js "Bearer ") then
        match validateJWT_for (Some request) (substring_from 7 authHeader) env nowMs with
        | None => true
        | Some _ => false
        end
      else false
  | None => false
  end.

(** [requireAuth(request, env)] at the time [nowMs]. *)
Definition requireAuth (request : Request) (env : Env) (nowMs : Z) : option Response :=
  if jwt_accepted request env nowMs then None
  else if checkCookieAuth request env then None
  else if validatePassword request env then None
  else if negb (otruthy (ADMIN_PASSWORD env)) then Some misconfigured
  else Some authentication_required.

Definition requireAdminAuth := requireAuth.

Definition too_many_attempts : Response :=
  mkResponse 429
    [(js "Content-Type", js "application/json"); (js "Retry-After", js "900")]
    (JObj [(js "error", JStr (js "Too many authentication attempts"));
           (js "message",
             JStr (js "Too many failed authentication attempts. Please try again later."));
           (js "retryAfter", JStr (js "15 minutes"))]).

(** [requireAdminAuthWithRateLimit], threading the limiter's map. *)
Definition requireAdminAuthWithRateLimit (request : Request) (env : Env) (nowMs : Z)
    (limiter : gmap jsstring AuthRateLimiter.AttemptRecord)
  : option Response * gmap jsstring AuthRateLimiter.AttemptRecord :=
  let clientIP := or_else (headers_get (headers request) (js "cf-connecting-ip"))
                          (js "unknown") in
  let '(limited, limiter) := AuthRateLimiter.isRateLimited clientIP nowMs limiter in
  if limited then (Some too_many_attempts, limiter)
  else
    match requireAuth request env nowMs with
    | None => (None, AuthRateLimiter.reset clientIP limiter)
    | Some authResult => (Some authResult, limiter)
    end.

End Auth.

(* ================================================================== *)
(** ** Vocabulary of the token properties                              *)
(* ================================================================== *)

(** *** Texts: bytes, Latin-1 strings, the JSON values of a payload *)
Module TextSpec.
Import Base64 JSONText.

(** Bytes in lower-case hexadecimal, as digests are printed. *)
Definition hex (bytes : list N) : jsstring :=
  flat_map (fun b => [hex_char (b / 16); hex_char (b mod 16)]) bytes.

Definition byte (c : N) : Prop := c < 256.
Definition sextet (i : N) : Prop := i < 64.

(** A character of the alphabet is no white space, padding, minus,
    underscore or dot. *)
Definition plain (c : N) : Prop :=
  is_ascii_whitespace c = false /\ c <> 61 /\ c <> 45 /\ c <> 95 /\ c <> 46.

Definition latin1 (s : jsstring) : Prop := Forall (fun c => c < 256) s.

Definition digit (c : N) : Prop := 48 <= c /\ c <= 57.

(** What may follow a value inside an object: a comma or the closing
    brace. *)
Definition closes (rest : jsstring) : Prop :=
  exists r, rest = 44 :: r \/ rest = 125 :: r.

(** The values of a token payload: strings of Latin-1 characters,
    integers below 2^53, and null. *)
Definition simple (v : json) : Prop :=
  match v with
  | JStr s => latin1 s
  | JNum m e => e = 0%Z /\ (Z.abs m < 2 ^ 53)%Z
  | JNull => True
  | _ => False
  end.

Definition simple_member (kv : jsstring * json) : Prop :=
  latin1 (fst kv) /\ simple (snd kv).

Definition member_text (kv : jsstring * json) : jsstring :=
  quote (fst kv) ++ js ":" ++ stringify (snd kv).

(** Values whose text has only Latin-1 characters. *)
Definition printable (v : json) : Prop :=
  match v with
  | JStr s => latin1 s
  | JNum _ _ | JNull => True
  | _ => False
  end.

Definition printable_member (kv : jsstring * json) : Prop :=
  latin1 (fst kv) /\ printable (snd kv).

End TextSpec.

(** *** Tokens as [createJWT] builds them *)
Module TokenSpec.
Import JSONText JSValue Base64 WebCrypto JWTManager TextSpec.

(** The character of a six-bit value in the URL-safe alphabet. *)
Definition url_char (i : N) : N :=
  let c := b64_char i in
  if c =? 43 then 45 else if c =? 47 then 95 else c.

(** A safe integer, on which JavaScript's arithmetic is exact. *)
Definition safe (z : Z) : Prop := (Z.abs z < 2 ^ 53)%Z.

(** The payload [createJWT] signs for a string [userId]. *)
Definition issued_payload (userId : jsstring) (kind : string) (now : Z)
    (expirySeconds : option Z) : json :=
  JObj [(js "userId", JStr userId);
        (js "type", JStr (js kind));
        (js "iat", JInt now);
        (js "exp", number_or_null (plus now expirySeconds))].

Definition token_payload (userId : jsstring) (kind : string)
  : list (jsstring * option json) :=
  [(js "userId", Some (JStr userId)); (js "type", Some (JStr (js kind)))].

(** The three parts of the token of a payload text. *)
Definition encoded (s : jsstring) : jsstring := List.map url_char (sextets s).

Definition token_of (secret : jsstring) (payload : json) : jsstring :=
  let message := encoded (stringify header) ++ js "." ++ encoded (stringify payload) in
  message ++ js "." ++ encoded (sign (utf8 secret) message).

Definition kind_ok (kind : string) : Prop := latin1 (js kind).

Definition simple_payload (payload : json) : Prop :=
  match payload with
  | JObj fields =>
      fields <> [] /\ Forall simple_member fields /\ own_properties fields = fields
  | _ => False
  end.

(** The token is valid until its [exp], in seconds. *)
Definition in_time (expiry : option Z) (issued verified : Z) : Prop :=
  forall e, expiry = Some e -> safe (issued + e) /\ (verified <= issued + e)%Z.

(** The payload that the second part of a token carries. *)
Definition carried (p : jsstring) : option json :=
  match decodeBase64Url p with
  | inr text => parse text
  | inl _ => None
  end.

Definition signature_of (this : t) (h p : jsstring) : list N :=
  hmac_sha256 (utf8 (secret this)) (utf8 (h ++ js "." ++ p)).


(** The clock at [ms] and the expiries it adds stay safe integers. *)
Definition clock (this : t) (ms : Z) : Prop :=
  safe (seconds ms) /\
  (forall e, parseExpiry (accessTokenExpiry this) = Some e -> safe (seconds ms + e)) /\
  (forall e, parseExpiry (refreshTokenExpiry this) = Some e -> safe (seconds ms + e)).

(** Neither token issued at [issuedMs] has expired at [nowMs]. *)
Definition valid_at (this : t) (issuedMs nowMs : Z) : Prop :=
  (forall e, parseExpiry (accessTokenExpiry this) = Some e ->
             (seconds nowMs <= seconds issuedMs + e)%Z) /\
  (forall e, parseExpiry (refreshTokenExpiry this) = Some e ->
             (seconds nowMs <= seconds issuedMs + e)%Z).

End TokenSpec.

(** *** Managers, tokens, requests and environments of the examples *)
Module TokenSamples.
Import JSONText JSValue JWTManager Auth.

(** A manager as [fromEnv] builds it from a secret alone. *)
Definition manager : t := new (js "secret") None.

(** The subject of the login route, and one outside Latin-1. *)
Definition admin : jsstring := js "admin".

(** The access token of a pair, the empty string if issuing failed. *)
Definition access_of (r : Result AuthTokens) : jsstring :=
  match r with inr tokens => accessToken tokens | inl _ => [] end.

Definition refresh_of (r : Result AuthTokens) : jsstring :=
  match r with inr tokens => refreshToken tokens | inl _ => [] end.

(** A manager whose access tokens carry [exp = 0] when issued at the
    second 1700000000. *)
Definition epoch_manager : t :=
  new (js "secret") (Some (TokenConfig.mk (js "-1700000000s") (js "30d"))).

(** A token signed with the secret whose second part is any text. *)
Definition signed (this : t) (text : jsstring) : Result jsstring :=
  let* h := encodeBase64Url (stringify header) in
  let* p := encodeBase64Url text in
  let* s := encodeBase64Url (WebCrypto.sign (WebCrypto.utf8 (secret this)) (h ++ js "." ++ p)) in
  inr (h ++ js "." ++ p ++ js "." ++ s).

Definition token_or_empty (r : Result jsstring) : jsstring :=
  match r with inr token => token | inl _ => [] end.

(** What the login route stores for a session. *)
Definition session_text : jsstring :=
  stringify (JObj [(js "isAdmin", JBool true);
                   (js "createdAt", JInt 1700000000000);
                   (js "ip", JStr (js "unknown"))]).

Definition env_with_session : Env :=
  mkEnv None None None None None (Some {[ js "5f0c" := session_text ]}).

Definition request_with_session : Request :=
  mkRequest (js "GET") [(js "Cookie", js "adminSession=5f0c")].

Definition env_with_jwt : Env :=
  mkEnv None None (Some (js "secret")) None None None.

Definition request_with_bearer : Request :=
  mkRequest (js "GET")
    [(js "Authorization",
      js "Bearer " ++ access_of (generateTokens manager (Some (JStr admin)) None 1700000000123))].

Definition request_without_credentials : Request := mkRequest (js "GET") [].

End TokenSamples.

(** *** Vocabulary of the gateway properties *)
Module AuthSpec.
Import JSONText JSValue JWTManager Auth.

(** The client a request is counted under by the rate limiter. *)
Definition clientIP (request : Request) : jsstring :=
  or_else (headers_get (headers request) (js "cf-connecting-ip")) (js "unknown").

(** A character that is neither of the separators of a cookie header. *)
Definition cookie_char (c : N) : Prop := c <> 59 /\ c <> 61.

(** The manager [fromEnv] builds for the secret [s]. *)
Definition manager_of (env : Env) (s : jsstring) : JWTManager.t :=
  JWTManager.mk s
    (or_else (ACCESS_TOKEN_EXPIRY env) (js "1h"))
    (or_else (REFRESH_TOKEN_EXPIRY env) (js "30d")).

End AuthSpec.

(** *** Vocabulary of the further token properties *)
Module TokenShape.
Import JSONText JSValue Base64 WebCrypto JWTManager TextSpec TokenSpec.

(** The characters of unpadded URL-safe base64. *)
Definition url_safe (c : N) : Prop :=
  is_upper c || is_lower c || is_digit c || (c =? 45) || (c =? 95) = true.

(** A token of three dot-separated runs of URL-safe characters. *)
Definition compact (token : jsstring) : Prop :=
  exists h p s,
    split 46 token = [h; p; s] /\
    Forall url_safe h /\ Forall url_safe p /\ Forall url_safe s.

(** The units of [parseExpiry] and the seconds in each. *)
Definition unit_seconds (u : N) : option Z :=
  if u =? 115 then Some 1%Z
  else if u =? 109 then Some 60%Z
  else if u =? 104 then Some 3600%Z
  else if u =? 100 then Some 86400%Z
  else None.

End TokenShape.

(* ================================================================== *)
(** ** src/auth-routes.ts: login, logout, status, refresh              *)
(* ================================================================== *)

(** The handlers take what the platform hands them: the value of
    [request.json()] ([None] when it rejects), the identifier of
    [crypto.randomUUID()], and the readings of [Date.now()].  The KV
    namespace is the map of [Env]; the expiry that the platform applies
    [expirationTtl] seconds after a [put] is outside the model, which
    speaks of the namespace as the handler leaves it. *)
Module AuthRoutes.
Import JSONText JSValue JWTManager Auth.

Definition production_origin : jsstring := js "https://component-management.vercel.app".

Definition cors (origin : jsstring) : Headers :=
  [(js "Access-Control-Allow-Origin", origin);
   (js "Access-Control-Allow-Methods", js "GET, POST, PUT, DELETE, OPTIONS");
   (js "Access-Control-Allow-Headers", js "Content-Type, Authorization, X-Requested-With");
   (js "Access-Control-Allow-Credentials", js "true");
   (js "Access-Control-Max-Age", js "86400")].

Definition corsHeaders : Headers := cors production_origin.

Definition allowedOrigins : list jsstring :=
  [js "https://component-management.vercel.app";
   js "http://localhost:3000";
   js "http://localhost:5173"].

(** [getCorsHeaders(origin)]. *)
Definition getCorsHeaders (origin : option jsstring) : Headers :=
  let corsOrigin :=
    match origin with
    | Some o => if truthy o && arr_includes allowedOrigins o then o else production_origin
    | None => production_origin
    end in
  cors corsOrigin.

(** [{ ...corsHeaders, 'Content-Type': 'application/json', ...more }]. *)
Definition route_headers (more : Headers) : Headers :=
  corsHeaders ++ [(js "Content-Type", js "application/json")] ++ more.

Definition respond (status : Z) (more : Headers) (fields : list (jsstring * json))
  : Response :=
  mkResponse status (route_headers more) (JObj fields).

(** The rejection of the CSRF guard, sent on with the route's headers. *)
Definition forward (r : Response) : Response :=
  mkResponse (status r) (route_headers []) (body r).

(** 270 days, in seconds. *)
Definition sessionTTL : Z := 270 * 24 * 60 * 60.

Definition session_cookie (sessionId : jsstring) : jsstring :=
  js "adminSession=" ++ sessionId ++
  js "; HttpOnly; Secure; SameSite=None; Max-Age=" ++ number_to_string sessionTTL 0 ++
  js "; Path=/".

Definition cleared_cookie : jsstring :=
  js "adminSession=; HttpOnly; Secure; SameSite=None; Max-Age=0; Path=/".

(** [v.length] of a parsed value; [None] is [undefined]. *)
Definition length_of (v : json) : option json :=
  match v with
  | JStr s => Some (JInt (Z.of_nat (length s)))
  | JArr l => Some (JInt (Z.of_nat (length l)))
  | JObj fields => obj_get fields (js "length")
  | _ => None
  end.

(** [x === n] for an integer [n]. *)
Definition is_integer (x : option json) (n : Z) : bool :=
  match x with
  | Some (JNum m 0) => (m =? n)%Z
  | _ => false
  end.

(** [constantTimeEquals(password, adminPassword)] on the password of
    the body, which is only cast to a string: a value of another type
    whose [length] is that of the password makes the loop call
    [charCodeAt] on it, a TypeError. *)
Definition password_equals (password : json) (adminPassword : jsstring) : Result bool :=
  match password with
  | JStr s => inr (constantTimeEquals s adminPassword)
  | _ =>
      if is_integer (length_of password) (Z.of_nat (length adminPassword)) then
        match adminPassword with
        | [] => inr true
        | _ :: _ => throw TypeError
        end
      else inr false
  end.

(** [const { k } = body]: a TypeError on [null]. *)
Definition destructure (body : json) (k : string) : Result (option json) :=
  match body with
  | JNull => throw TypeError
  | _ => inr (prop body k)
  end.

(** [x === true]. *)
Definition is_true (x : option json) : bool :=
  match x with
  | Some (JBool true) => true
  | _ => false
  end.

Definition truthy_option (v : option json) : bool :=
  match v with
  | Some x => truthy_value x
  | None => false
  end.

Definition sessionData (createdAt : Z) (request : Request) : json :=
  JObj [(js "isAdmin", JBool true);
        (js "createdAt", JInt createdAt);
        (js "ip",
          JStr (or_else (headers_get (headers request) (js "cf-connecting-ip"))
                        (js "unknown")))].

Definition user : json :=
  JObj [(js "id", JStr (js "admin")); (js "role", JStr (js "admin"))].

(** The tokens of the login, [null] when JWT is not configured or
    issuing throws. *)
Definition login_tokens (env : Env) (tokenMs : Z) : option AuthTokens :=
  if otruthy (JWT_SECRET env) then
    match JWTManager.bind (fromEnv env)
            (fun jwtManager =>
               generateTokens jwtManager (Some (JStr (js "admin"))) None tokenMs) with
    | inr tokens => Some tokens
    | inl _ => None
    end
  else None.

(** The environment after a write to the namespace. *)
Definition with_sessions (env : Env) (sessions : gmap jsstring jsstring) : Env :=
  mkEnv (ADMIN_PASSWORD env) (ENVIRONMENT env) (JWT_SECRET env)
        (ACCESS_TOKEN_EXPIRY env) (REFRESH_TOKEN_EXPIRY env) (Some sessions).

Definition login_failed : Response :=
  respond 500 []
    [(js "error", JStr (js "Login failed"));
     (js "message", JStr (js "Internal server error during authentication"))].

(** [POST /api/auth/login]: the response and the environment with the
    namespace as the handler leaves it.  [createdAt] and [tokenMs] are
    the two readings of the clock. *)
Definition login (request : Request) (body : option json) (env : Env)
    (sessionId : jsstring) (createdAt tokenMs : Z) : Response * Env :=
  match requireCSRFProtection request env with
  | Some csrfResult => (forward csrfResult, env)
  | None =>
      match body with
      | None => (login_failed, env)
      | Some body =>
          match destructure body "password" with
          | inl _ => (login_failed, env)
          | inr password =>
              match password with
              | Some password =>
                if negb (truthy_value password) then
                  (respond 400 []
                     [(js "error", JStr (js "Password required"));
                      (js "message", JStr (js "Please provide admin password"))], env)
                else
                  match ADMIN_PASSWORD env with
                  | Some adminPassword =>
                    if negb (truthy adminPassword) then
                      (respond 500 []
                         [(js "error", JStr (js "Authentication not configured"));
                          (js "message", JStr (js "Please contact system administrator"))],
                       env)
                    else
                      match password_equals password adminPassword with
                      | inl _ => (login_failed, env)
                      | inr false =>
                          (respond 401 []
                             [(js "error", JStr (js "Invalid password"));
                              (js "message", JStr (js "Incorrect admin password"))], env)
                      | inr true =>
                          match SESSIONS env with
                          | None =>
                              (respond 500 []
                                 [(js "error", JStr (js "Session storage not configured"));
                                  (js "message",
                                    JStr (js "Please contact system administrator"))], env)
                          | Some sessions =>
                              let sessions :=
                                <[sessionId := stringify (sessionData createdAt request)]>
                                  sessions in
                              let env := with_sessions env sessions in
                              let token_fields :=
                                match login_tokens env tokenMs with
                                | Some jwtTokens =>
                                    [(js "accessToken", JStr (accessToken jwtTokens));
                                     (js "refreshToken", JStr (refreshToken jwtTokens));
                                     (js "tokenExpiresIn",
                                       number_or_null (expiresIn jwtTokens));
                                     (js "user", user)]
                                | None => []
                                end in
                              (respond 200 [(js "Set-Cookie", session_cookie sessionId)]
                                 ([(js "success", JBool true);
                                   (js "message", JStr (js "Authentication successful"));
                                   (js "expiresIn", JInt sessionTTL)] ++ token_fields),
                               env)
                          end
                      end
                  | None =>
                      (respond 500 []
                         [(js "error", JStr (js "Authentication not configured"));
                          (js "message", JStr (js "Please contact system administrator"))],
                       env)
                  end
              | None =>
                  (respond 400 []
                     [(js "error", JStr (js "Password required"));
                      (js "message", JStr (js "Please provide admin password"))], env)
              end
          end
      end
  end.

(** [POST /api/auth/logout]. *)
Definition logout (request : Request) (env : Env) : Response * Env :=
  match requireCSRFProtection request env with
  | Some csrfResult => (forward csrfResult, env)
  | None =>
      let cookieHeader := headers_get (headers request) (js "Cookie") in
      let sessionId := getCookieValue cookieHeader (js "adminSession") in
      let env :=
        match sessionId, SESSIONS env with
        | Some sessionId, Some sessions =>
            if truthy sessionId then with_sessions env (delete sessionId sessions)
            else env
        | _, _ => env
        end in
      (respond 200 [(js "Set-Cookie", cleared_cookie)]
         [(js "success", JBool true);
          (js "message", JStr (js "Logged out successfully"))], env)
  end.

(** [GET /api/auth/status]. *)
Definition session_status (request : Request) (env : Env) : Response :=
  let cookieHeader := headers_get (headers request) (js "Cookie") in
  let sessionId := getCookieValue cookieHeader (js "adminSession") in
  let no_session :=
    respond 200 []
      [(js "authenticated", JBool false); (js "message", JStr (js "No valid session"))] in
  let expired_session :=
    respond 200 [(js "Set-Cookie", cleared_cookie)]
      [(js "authenticated", JBool false); (js "message", JStr (js "Session expired"))] in
  let failed :=
    respond 500 []
      [(js "authenticated", JBool false);
       (js "message", JStr (js "Error checking authentication status"))] in
  match sessionId, SESSIONS env with
  | Some sessionId, Some sessions =>
      if negb (truthy sessionId) then no_session
      else
        match sessions !! sessionId with
        | Some sessionData =>
            if negb (truthy sessionData) then expired_session
            else
              match parse sessionData with
              | None | Some JNull => failed
              | Some session =>
                  respond 200 []
                    (defined
                       [(js "authenticated",
                          Some (JBool (is_true (prop session "isAdmin"))));
                        (js "createdAt", prop session "createdAt");
                        (js "message", Some (JStr (js "Valid session")))])
              end
        | None => expired_session
        end
  | _, _ => no_session
  end.

Definition refresh_failed (error : Error) : Response :=
  respond 401 []
    [(js "error", JStr (js "Token refresh failed"));
     (js "message", JStr (message error))].

(** [POST /api/auth/refresh]; a token of the body that is not a string
    has no [split], a TypeError. *)
Definition refresh (body : option json) (env : Env) (nowMs : Z) : Response :=
  if negb (otruthy (JWT_SECRET env)) then
    respond 501 []
      [(js "error", JStr (js "JWT not configured"));
       (js "message", JStr (js "JWT authentication not available"))]
  else
    match body with
    | None => refresh_failed SyntaxError
    | Some body =>
        match destructure body "refreshToken" with
        | inl error => refresh_failed error
        | inr refreshToken =>
            if negb (truthy_option refreshToken) then
              respond 400 []
                [(js "error", JStr (js "Refresh token required"));
                 (js "message", JStr (js "Please provide refresh token"))]
            else
              match
                JWTManager.bind (fromEnv env) (fun jwtManager =>
                  match refreshToken with
                  | Some (JStr token) => refreshTokens jwtManager token nowMs
                  | _ => throw TypeError
                  end)
              with
              | inr newTokens =>
                  respond 200 []
                    [(js "success", JBool true);
                     (js "accessToken", JStr (JWTManager.accessToken newTokens));
                     (js "refreshToken", JStr (JWTManager.refreshToken newTokens));
                     (js "expiresIn", number_or_null (expiresIn newTokens));
                     (js "user", user)]
              | inl error => refresh_failed error
              end
        end
    end.

End AuthRoutes.

(* ================================================================== *)
(** ** src/admin-routes.ts: CORS headers and the gate of the routes    *)
(* ================================================================== *)

Module AdminRoutes.
Import JSONText JSValue JWTManager Auth.

Definition production_origin : jsstring := js "https://component-management.vercel.app".

(** [getCorsHeaders(env, request)]; the function of [src/index.ts] of
    the same name differs only in the list of allowed headers, to
    which it adds [X-App-Name]. *)
Definition allowedOrigin (env : Env) (request : option Request) : jsstring :=
  match request with
  | Some request =>
      match headers_get (headers request) (js "Origin") with
      | Some origin =>
          if isDevelopment env && truthy origin &&
             (includes origin (js "localhost") || includes origin (js "127.0.0.1"))
          then origin
          else production_origin
      | None => production_origin
      end
  | None => production_origin
  end.

Definition getCorsHeaders (env : Env) (request : option Request) : Headers :=
  [(js "Access-Control-Allow-Origin", allowedOrigin env request);
   (js "Access-Control-Allow-Methods", js "GET, POST, PUT, DELETE, OPTIONS");
   (js "Access-Control-Allow-Headers", js "Content-Type, Authorization, X-Requested-With");
   (js "Access-Control-Allow-Credentials", js "true");
   (js "Access-Control-Max-Age", js "86400")].

(** A response of the middleware sent on with the CORS headers. *)
Definition forward (env : Env) (request : Request) (r : Response) : Response :=
  mkResponse (status r)
    (getCorsHeaders env (Some request) ++ [(js "Content-Type", js "application/json")])
    (body r).

(** [adminRouter.all('*', ...)], the middleware before every admin
    route: [None] lets the request go on to its handler. *)
Definition gate (request : Request) (env : Env) (nowMs : Z)
    (limiter : AuthRateLimiter.t) : option Response * AuthRateLimiter.t :=
  if str_eqb (method request) (js "OPTIONS") then (None, limiter)
  else
    match requireCSRFProtection request env with
    | Some csrfResult => (Some (forward env request csrfResult), limiter)
    | None =>
        match requireAdminAuthWithRateLimit request env nowMs limiter with
        | (Some authResult, limiter) => (Some (forward env request authResult), limiter)
        | (None, limiter) => (None, limiter)
        end
    end.

End AdminRoutes.

(** *** Vocabulary of the update and entity properties *)
Module UpdateSpec.
Import Zod PayloadSpec.

(** A field of an update that is present, as a string or as tags. *)
Definition present_string (v : option json) : option jsstring :=
  match v with
  | Some (JStr s) => Some s
  | _ => None
  end.

Definition present_tags (v : option json) : option (list jsstring) :=
  option_map (fun x => tags_or_empty (Some x)) v.

(** The entity that stands for a character. *)
Definition entity (c : N) : jsstring :=
  if c =? 38 then js "&amp;"
  else if c =? 60 then js "&lt;"
  else if c =? 62 then js "&gt;"
  else if c =? 34 then js "&quot;"
  else if c =? 39 then js "&#x27;"
  else if c =? 47 then js "&#x2F;"
  else [c].

(** The characters that [encodeHTMLEntities] leaves in no text. *)
Definition markup_char (c : N) : bool :=
  (c =? 60) || (c =? 62) || (c =? 34) || (c =? 39) || (c =? 47).

End UpdateSpec.

(** *** Requests, bodies and environments of the further examples *)
Module ExtraSamples.
Import JSONText JSValue JWTManager Auth AuthRoutes TokenSamples.

Definition password : jsstring := js "correct horse".

(** An environment with a password, a JWT secret and an empty
    namespace of sessions. *)
Definition env_admin : Env :=
  mkEnv (Some password) None (Some (js "secret")) None None (Some ∅).

(** The headers that pass the CSRF guard in production. *)
Definition trusted : Headers :=
  [(js "Origin", js "https://component-management.vercel.app");
   (js "X-Requested-With", js "XMLHttpRequest");
   (js "Content-Type", js "application/json")].

Definition login_request : Request := mkRequest (js "POST") trusted.

Definition login_body : json := JObj [(js "password", JStr password)].

Definition session_id : jsstring := js "1b9d6bcd-bbfd-4b2d-9b5d-ab8dfbbd4bed".

Definition cookie_request : Request :=
  mkRequest (js "GET") [(js "Cookie", js "adminSession=" ++ session_id)].

Definition logout_request : Request :=
  mkRequest (js "POST") (trusted ++ [(js "Cookie", js "adminSession=" ++ session_id)]).

(** The environment after the login of [login_request]. *)
Definition env_logged_in : Env :=
  snd (login login_request (Some login_body) env_admin session_id
         1700000000123 1700000000124).

(** A request that carries the password, from a client that has used
    up its attempts. *)
Definition password_request : Request :=
  mkRequest (js "GET") [(js "Authorization", js "Bearer " ++ password)].

Definition locked : AuthRateLimiter.t :=
  {[ js "unknown" := AuthRateLimiter.mkRecord 5 1700000000000 ]}.

(** A Referer on another host whose text begins with the allowed origin. *)
Definition lookalike_request : Request :=
  mkRequest (js "POST")
    [(js "Referer", js "https://component-management.vercel.app.example.net/")].

Definition production_env : Env := mkEnv None None None None None None.

(** An update of the name alone. *)
Definition rename : json := JObj [(js "name", JStr (js " <b>Card</b> "))].

End ExtraSamples.

(* ================================================================== *)
(** * Properties                                                       *)
(* ================================================================== *)

(* ------------------------------------------------------------------ *)
(** *** Rate limiter                                                   *)
(* ------------------------------------------------------------------ *)

Module RateLimiterFacts.
Import AuthRateLimiter RateLimiterSpec.

Lemma isRateLimited_fresh (ip : jsstring) (now : Z) (attempts : t) :
  attempts !! ip = None ->
  isRateLimited ip now attempts = (false, <[ip := mkRecord 1 now]> attempts).
Proof. intros H. unfold isRateLimited. now rewrite H. Qed.

Lemma isRateLimited_rollover (ip : jsstring) (now : Z) (attempts : t) r :
  attempts !! ip = Some r ->
  (now - lastAttempt r > windowMs)%Z ->
  isRateLimited ip now attempts = (false, <[ip := mkRecord 1 now]> attempts).
Proof.
  intros H Hw. unfold isRateLimited. rewrite H.
  destruct (Z.gtb_spec (now - lastAttempt r) windowMs); [reflexivity | lia].
Qed.

Lemma isRateLimited_count (ip : jsstring) (now : Z) (attempts : t) r :
  attempts !! ip = Some r ->
  (now - lastAttempt r <= windowMs)%Z ->
  isRateLimited ip now attempts =
    ((count r + 1 >? maxAttempts)%Z, <[ip := mkRecord (count r + 1) now]> attempts).
Proof.
  intros H Hw. unfold isRateLimited. rewrite H.
  destruct (Z.gtb_spec (now - lastAttempt r) windowMs); [lia | reflexivity].
Qed.

Lemma isRateLimited_other (ip ip' : jsstring) (now : Z) (attempts : t) :
  ip <> ip' ->
  snd (isRateLimited ip now attempts) !! ip' = attempts !! ip'.
Proof.
  intros Hne. unfold isRateLimited.
  destruct (attempts !! ip) as [r|]; [destruct (_ >? _)%Z|]; simpl;
    now rewrite lookup_insert_ne.
Qed.

(** Every call leaves a record stamped with the time of that call. *)
Lemma isRateLimited_stamp (ip : jsstring) (now : Z) (attempts : t) :
  exists c, snd (isRateLimited ip now attempts) !! ip = Some (mkRecord c now).
Proof.
  unfold isRateLimited.
  destruct (attempts !! ip) as [r|]; [destruct (_ >? _)%Z|]; simpl;
    eexists; apply lookup_insert_eq.
Qed.

Lemma calls_paced (ip : jsstring) (times : list Z) : forall (attempts : t) c prev,
  attempts !! ip = Some (mkRecord c prev) ->
  paced prev times ->
  fst (calls ip times attempts) = answers_from c (length times).
Proof.
  induction times as [|now rest IH]; intros attempts c prev Hrec Hp; [reflexivity|].
  destruct Hp as [Hgap Hp]. simpl.
  rewrite (isRateLimited_count ip now attempts _ Hrec) by exact Hgap. simpl.
  specialize (IH (<[ip := mkRecord (c + 1) now]> attempts) (c + 1)%Z now
                 (lookup_insert_eq _ _ _) Hp).
  destruct (calls ip rest _) as [bs fin]. simpl in *. now rewrite IH.
Qed.

Lemma answers_from_lookup n : forall c (k : nat),
  (k < n)%nat ->
  answers_from c n !! k = Some (c + Z.of_nat k + 1 >? maxAttempts)%Z.
Proof.
  induction n as [|n IH]; intros c k Hk; [lia|].
  destruct k as [|k]; simpl.
  - now rewrite Z.add_0_r.
  - rewrite IH by lia. do 2 f_equal. lia.
Qed.

End RateLimiterFacts.

Module RateLimiterClaims.
Import AuthRateLimiter RateLimiterSpec RateLimiterFacts.

(** C4, counterexample.  The record is created at time 0; the third
    call comes 20 minutes later, more than one window after the window
    started, yet the count goes on to 3 instead of going back to 1, and
    the sixth call is blocked.  A limiter that measured from the start
    of the window would have answered [false] six times. *)
Lemma C4_counterexample :
  snd (calls client [0%Z] empty) !! client = Some (mkRecord 1 0) /\
  (1200000 - 0 > windowMs)%Z /\
  snd (calls client [0; 600000; 1200000]%Z empty) !! client
    = Some (mkRecord 3 1200000) /\
  fst (calls client every_ten_minutes empty)
    = [false; false; false; false; false; true] /\
  fst (WindowedLimiter.calls client every_ten_minutes ∅)
    = [false; false; false; false; false; false].
Proof. vm_compute. repeat split; reflexivity. Qed.

(** C4, as amended.  The count goes back to 1 exactly when the client
    has no record or the call comes more than 15 minutes after the
    client's previous call (the record keeps the time of the last
    attempt, not of the start of a window); otherwise the call adds one
    and answers whether the count now exceeds 5.  Hence, in a run of
    calls each at most 15 minutes after the one before, calls 1 to 5
    answer [false] and every later call answers [true]; and after
    [reset] the next call answers [false]. *)
Theorem C4_rate_limiter :
  (forall (ip : jsstring) (now : Z) (attempts : t),
      attempts !! ip = None ->
      isRateLimited ip now attempts = (false, <[ip := mkRecord 1 now]> attempts)) /\
  (forall (ip : jsstring) (now : Z) (attempts : t) r,
      attempts !! ip = Some r ->
      (now - lastAttempt r > windowMs)%Z ->
      isRateLimited ip now attempts = (false, <[ip := mkRecord 1 now]> attempts)) /\
  (forall (ip : jsstring) (now : Z) (attempts : t) r,
      attempts !! ip = Some r ->
      (now - lastAttempt r <= windowMs)%Z ->
      isRateLimited ip now attempts =
        (bool_decide (5 < count r + 1)%Z,
         <[ip := mkRecord (count r + 1) now]> attempts)) /\
  (forall (ip : jsstring) (first : Z) (rest : list Z) (attempts : t) (k : nat),
      attempts !! ip = None ->
      paced first rest ->
      (k < length (first :: rest))%nat ->
      fst (calls ip (first :: rest) attempts) !! k = Some (bool_decide (5 <= k)%nat)) /\
  (forall (ip : jsstring) (now : Z) (attempts : t),
      fst (isRateLimited ip now (reset ip attempts)) = false).
Proof.
  split; [exact isRateLimited_fresh|].
  split; [exact isRateLimited_rollover|].
  split.
  { intros ip now attempts r Hr Hw.
    rewrite (isRateLimited_count ip now attempts r Hr Hw).
    f_equal. unfold maxAttempts.
    destruct (Z.gtb_spec (count r + 1) 5); case_bool_decide; auto; lia. }
  split.
  { intros ip first rest attempts k Hnone Hp Hk.
    cbn [calls]. rewrite (isRateLimited_fresh ip first attempts Hnone).
    pose proof (calls_paced ip rest (<[ip := mkRecord 1 first]> attempts) 1%Z first
                  (lookup_insert_eq _ _ _) Hp) as Hc.
    destruct (calls ip rest _) as [bs fin]. simpl in Hc. subst bs. simpl fst.
    destruct k as [|k]; [reflexivity|].
    simpl in Hk. simpl. rewrite answers_from_lookup by lia.
    f_equal. unfold maxAttempts.
    destruct (Z.gtb_spec (1 + Z.of_nat k + 1) 5); case_bool_decide; auto; lia. }
  intros ip now attempts. unfold reset.
  now rewrite isRateLimited_fresh by apply lookup_delete_eq.
Qed.

(** An instance: seven calls one minute apart, the sixth of them. *)
Lemma C4_rate_limiter_witness :
  fst (calls client [0; 60000; 120000; 180000; 240000; 300000; 360000]%Z empty) !! 5%nat
    = Some true.
Proof.
  destruct C4_rate_limiter as (_ & _ & _ & Hrun & _).
  apply (Hrun client 0%Z [60000; 120000; 180000; 240000; 300000; 360000]%Z empty 5%nat).
  - reflexivity.
  - unfold paced, windowMs. lia.
  - simpl. lia.
Defined.

End RateLimiterClaims.

(* ------------------------------------------------------------------ *)
(** *** CSRF guard                                                     *)
(* ------------------------------------------------------------------ *)

Module CsrfFacts.
Import CsrfSpec.

Lemma str_eqb_true (a b : jsstring) : str_eqb a b = true <-> a = b.
Proof. unfold str_eqb. apply bool_decide_eq_true. Qed.

Lemma str_eqb_false (a b : jsstring) : str_eqb a b = false <-> a <> b.
Proof. unfold str_eqb. apply bool_decide_eq_false. Qed.

Lemma arr_includes_In (l : list jsstring) (s : jsstring) :
  arr_includes l s = true <-> In s l.
Proof.
  unfold arr_includes. rewrite existsb_exists. split.
  - intros (x & Hin & Heq). apply str_eqb_true in Heq. now subst.
  - intros Hin. exists s. split; [exact Hin | now apply str_eqb_true].
Qed.

Lemma truthy_nonempty (s : jsstring) : truthy s = true <-> s <> [].
Proof. destruct s; simpl; split; intros; congruence. Qed.

Lemma otruthy_given (request : Request) (name : string) :
  otruthy (headers_get (headers request) (js name)) = true <-> header_given request name.
Proof.
  unfold header_given. destruct (headers_get _ _) as [v|]; simpl.
  - rewrite truthy_nonempty. split; [intros H; now exists v | intros (w & [= <-] & H); exact H].
  - split; [discriminate | intros (w & [=] & _)].
Qed.

Lemma valid_value_truthy (x : jsstring) :
  In x validXRequestedWithValues -> truthy x = true.
Proof.
  unfold validXRequestedWithValues. simpl.
  intros [<-|[<-|[<-|[<-|[]]]]]; reflexivity.
Qed.

(** The first test of [validateCustomHeaders]. *)
Lemma requested_with_test (request : Request) :
  let x := headers_get (headers request) (js "X-Requested-With") in
  (otruthy x && match x with
                | Some v => arr_includes validXRequestedWithValues v
                | None => false
                end) = true
  <-> recognised_requested_with request.
Proof.
  unfold recognised_requested_with. cbv zeta.
  destruct (headers_get _ _) as [v|]; cbn [otruthy].
  - rewrite andb_true_iff, arr_includes_In. split.
    + intros [_ Hin]. now exists v.
    + intros (w & [= <-] & Hin). split; [now apply valid_value_truthy | exact Hin].
  - split; [discriminate | intros (w & [=] & _)].
Qed.

Lemma protectionCount_cases (a b c : bool) :
  protectionCount [a; b; c] =
    (Z.b2z a + Z.b2z b + Z.b2z c)%Z.
Proof. destruct a, b, c; reflexivity. Qed.

Lemma layer_statuses_rejection (need : Z) (o h j : bool) :
  layer_statuses (csrf_rejection need o h j) =
    Some [(js "Valid Origin/Referer", status_text o);
          (js "Custom Headers", status_text h);
          (js "JWT Signature", status_text j)].
Proof. destruct o, h, j; vm_compute; reflexivity. Qed.

Lemma not_mutating (m : jsstring) :
  arr_includes mutating_methods m = false <->
  m <> js "POST" /\ m <> js "PUT" /\ m <> js "DELETE".
Proof.
  rewrite <- not_true_iff_false, arr_includes_In.
  unfold mutating_methods. simpl. intuition congruence.
Qed.

End CsrfFacts.

Module CsrfClaims.
Import CsrfSpec CsrfFacts.

(** C6.  A request whose upper-cased method is none of POST, PUT and
    DELETE passes, whatever its headers and the environment.  For the
    other requests the guard counts the origin, header and bearer
    signals and passes exactly when the count reaches 2, or 1 in
    development mode; below that it answers 403 with a payload that
    lists the status of each of the three signals. *)
Theorem C6_csrf_guard (request : Request) (env : Env) :
  let m := toUpperCase (method request) in
  let o := validateReferer request env in
  let h := validateCustomHeaders request in
  let j := validateJWTSignature request in
  let n := (Z.b2z o + Z.b2z h + Z.b2z j)%Z in
  let need := if isDevelopment env then 1%Z else 2%Z in
  (m <> js "POST" /\ m <> js "PUT" /\ m <> js "DELETE" ->
     forall (hs : Headers) (env' : Env),
       requireCSRFProtection (mkRequest (method request) hs) env' = None) /\
  (m = js "POST" \/ m = js "PUT" \/ m = js "DELETE" ->
     (requireCSRFProtection request env = None <-> (need <= n)%Z) /\
     ((n < need)%Z ->
        exists r, requireCSRFProtection request env = Some r /\
                  status r = 403%Z /\
                  layer_statuses r =
                    Some [(js "Valid Origin/Referer", status_text o);
                          (js "Custom Headers", status_text h);
                          (js "JWT Signature", status_text j)])).
Proof.
  cbv zeta. split.
  - intros Hm hs env'. apply not_mutating in Hm.
    unfold requireCSRFProtection. cbn [method]. now rewrite Hm.
  - intros Hm.
    assert (Hin : arr_includes mutating_methods (toUpperCase (method request)) = true).
    { apply arr_includes_In. unfold mutating_methods.
      destruct Hm as [H|[H|H]]; rewrite H; cbn [In]; tauto. }
    unfold requireCSRFProtection. rewrite Hin. cbn [negb].
    rewrite protectionCount_cases.
    destruct (Z.ltb_spec
                (Z.b2z (validateReferer request env) +
                 Z.b2z (validateCustomHeaders request) +
                 Z.b2z (validateJWTSignature request))
                (if isDevelopment env then 1 else 2)%Z) as [Hlt|Hge].
    + split.
      * split; [discriminate | lia].
      * intros _. eexists. split; [reflexivity|]. split; [reflexivity|].
        apply layer_statuses_rejection.
    + split.
      * split; [intros _; exact Hge | reflexivity].
      * lia.
Qed.

(** Instances: a bare POST is refused in production, and the same POST
    with the production origin and an XMLHttpRequest marker passes. *)
Lemma C6_csrf_guard_witness :
  (exists r, requireCSRFProtection post_bare production = Some r /\ status r = 403%Z) /\
  requireCSRFProtection post_from_app production = None.
Proof.
  split.
  - destruct (C6_csrf_guard post_bare production) as [_ H].
    destruct H as [_ H]; [left; reflexivity|].
    destruct H as (r & Hr & Hs & _); [vm_compute; reflexivity|].
    exists r. split; assumption.
  - destruct (C6_csrf_guard post_from_app production) as [_ H].
    destruct H as [H _]; [left; reflexivity|].
    apply H. vm_compute. discriminate.
Defined.

(** C7, counterexample.  A PUT that carries a JSON content type and no
    other header gets a true header signal, although none of the three
    conditions the specification lists holds for it. *)
Lemma C7_counterexample :
  toUpperCase (method put_json_only) = js "PUT" /\
  headers put_json_only = [(js "Content-Type", js "application/json")] /\
  validateCustomHeaders put_json_only = true /\
  (header_signal_as_specified put_json_only -> False).
Proof.
  split; [reflexivity|]. split; [reflexivity|]. split; [reflexivity|].
  unfold header_signal_as_specified, recognised_requested_with,
    app_header_matches, header_present.
  intros [(x & H & _)|[H|(_ & [H|[H|H]])]];
    try (vm_compute in H; discriminate);
    destruct H as [v H]; vm_compute in H; discriminate.
Qed.

(** C7, as amended.  The header signal is true exactly when a
    recognised X-Requested-With value is present, or X-App-Name has its
    expected value, or the content type is JSON and either the method
    is not POST or one of X-Requested-With, X-App-Name and
    Authorization is given with a non-empty value.  So a POST with
    only a JSON content type gets a false signal, while a PUT or
    DELETE with only a JSON content type gets a true one. *)
Theorem C7_header_signal (request : Request) :
  (validateCustomHeaders request = true <->
     recognised_requested_with request \/
     app_header_matches request \/
     (json_content_type request /\
      (toUpperCase (method request) <> js "POST" \/
       header_given request "X-Requested-With" \/
       header_given request "X-App-Name" \/
       header_given request "Authorization"))) /\
  (toUpperCase (method request) = js "POST" ->
   json_content_type request ->
   headers_get (headers request) (js "X-Requested-With") = None ->
   headers_get (headers request) (js "X-App-Name") = None ->
   headers_get (headers request) (js "Authorization") = None ->
   validateCustomHeaders request = false).
Proof.
  assert (Hmain : validateCustomHeaders request = true <->
     recognised_requested_with request \/
     app_header_matches request \/
     (json_content_type request /\
      (toUpperCase (method request) <> js "POST" \/
       header_given request "X-Requested-With" \/
       header_given request "X-App-Name" \/
       header_given request "Authorization"))).
  { pose proof (requested_with_test request) as Hx. cbv zeta in Hx.
    pose proof (otruthy_given request "X-Requested-With") as Hg1.
    pose proof (otruthy_given request "X-App-Name") as Hg2.
    pose proof (otruthy_given request "Authorization") as Hg3.
    unfold validateCustomHeaders, app_header_matches, json_content_type.
    destruct (otruthy (headers_get (headers request) (js "X-Requested-With")) && _) eqn:E1.
    { split; [intros _; left; now apply Hx | reflexivity]. }
    assert (Hnx : ~ recognised_requested_with request).
    { intros H. apply Hx in H. congruence. }
    case_bool_decide as E2.
    { split; [intros _; right; left; exact E2 | reflexivity]. }
    destruct (headers_get (headers request) (js "Content-Type")) as [ct|] eqn:E3.
    2:{ split; [discriminate|]. intros [H|[H|((ct & [=] & _) & _)]]; contradiction. }
    destruct (includes ct (js "application/json")) eqn:E4.
    2:{ split; [discriminate|].
        intros [H|[H|((ct' & [= <-] & Hinc) & _)]]; try contradiction. congruence. }
    destruct (str_eqb (toUpperCase (method request)) (js "POST")) eqn:E5.
    - apply str_eqb_true in E5.
      destruct (otruthy (headers_get (headers request) (js "X-Requested-With"))) eqn:G1;
        [|destruct (otruthy (headers_get (headers request) (js "X-App-Name"))) eqn:G2;
          [|destruct (otruthy (headers_get (headers request) (js "Authorization"))) eqn:G3]];
        cbn.
      + split; [intros _|reflexivity]. right; right. split; [now exists ct|].
        right; left. now apply Hg1.
      + split; [intros _|reflexivity]. right; right. split; [now exists ct|].
        right; right; left. now apply Hg2.
      + split; [intros _|reflexivity]. right; right. split; [now exists ct|].
        right; right; right. now apply Hg3.
      + split; [discriminate|].
        intros [H|[H|(_ & [H|[H|[H|H]]])]]; try contradiction.
        * apply Hg1 in H. discriminate.
        * apply Hg2 in H. discriminate.
        * apply Hg3 in H. discriminate.
    - apply str_eqb_false in E5. cbn.
      split; [intros _|reflexivity]. right; right. split; [now exists ct|]. now left. }
  split; [exact Hmain|].
  intros Hpost Hjson H1 H2 H3.
  apply not_true_iff_false. intros Ht. apply Hmain in Ht.
  unfold recognised_requested_with, app_header_matches, header_given in Ht.
  rewrite H1, H2, H3 in Ht.
  destruct Ht as [(x & [=] & _)|[[=]|(_ & [H|[(v & [=] & _)|[(v & [=] & _)|(v & [=] & _)]]])]].
  contradiction.
Qed.

(** Instances: the bare JSON POST, signal false; and the bare JSON PUT,
    signal true because its method is not POST. *)
Lemma C7_header_signal_witness :
  validateCustomHeaders post_json_only = false /\
  validateCustomHeaders put_json_only = true.
Proof.
  split.
  - destruct (C7_header_signal post_json_only) as [_ H].
    apply H; try reflexivity.
    exists (js "application/json"). split; reflexivity.
  - destruct (C7_header_signal put_json_only) as [H _].
    apply H. right; right. split.
    + exists (js "application/json"). split; reflexivity.
    + left. vm_compute. discriminate.
Defined.

End CsrfClaims.

(* ------------------------------------------------------------------ *)
(** *** Regular-expression literals                                    *)
(* ------------------------------------------------------------------ *)

Module RegexFacts.
Import Regex RegexSyntax.

(** Every literal of the sources is within the supported syntax. *)
Lemma literals_parse :
  forallb (fun p => bool_decide (is_Some (parse (js p)))) Sanitize.literal_sources = true.
Proof. vm_compute. reflexivity. Qed.

End RegexFacts.

(* ------------------------------------------------------------------ *)
(** *** Sanitiser on the known payloads                                *)
(* ------------------------------------------------------------------ *)

Module SanitizeClaims.
Import Sanitize Zod Validation PayloadSpec.

(** C5.  Sanitising the [img] element with an [onerror] handler leaves
    [<img src=x >], with neither [onerror] nor [alert(1)] in it; and
    the create payload whose html is a script block followed by a [div]
    passes validation with the html [<div>Btn</div>], which has no
    [<script] in it in any letter case. *)
Theorem C5_known_payloads :
  sanitizeHTML img_onerror = js "<img src=x >" /\
  includes (toLowerCase (sanitizeHTML img_onerror)) (js "onerror") = false /\
  includes (sanitizeHTML img_onerror) (js "alert(1)") = false /\
  exists data warnings,
    validateAndSanitizeComponent btn_payload = Success data warnings /\
    html data = js "<div>Btn</div>" /\
    includes (toLowerCase (html data)) (js "<script") = false.
Proof.
  split; [vm_compute; reflexivity|].
  split; [vm_compute; reflexivity|].
  split; [vm_compute; reflexivity|].
  eexists; eexists. split; [vm_compute; reflexivity|].
  split; vm_compute; reflexivity.
Qed.

End SanitizeClaims.

(* ------------------------------------------------------------------ *)
(** *** Schemas and validators                                         *)
(* ------------------------------------------------------------------ *)

Module ValidationFacts.
Import Zod Validation PayloadSpec.

Lemma string_schema_valid (path : string) (min_msg : option string) (max : N)
    (max_msg : string) (v : option json) (s : jsstring) :
  string_schema path min_msg max max_msg v = Valid s <->
  v = Some (JStr s) /\ (is_Some min_msg -> 1 <= chars s) /\ chars s <= max.
Proof.
  unfold string_schema, chars.
  destruct v as [[| | | |s'| |]|]; try (split; [discriminate | intros ([=] & _)]).
  destruct min_msg as [msg|].
  - destruct (N.ltb_spec (N.of_nat (length s')) 1);
      destruct (N.ltb_spec max (N.of_nat (length s'))); cbn;
      (split; [intros [=]; subst; repeat split; auto; lia
              | intros ([= ->] & H1 & H2); try reflexivity;
                try (specialize (H1 (mk_is_Some _ _ eq_refl))); lia]).
  - destruct (N.ltb_spec max (N.of_nat (length s'))); cbn;
      (split; [intros [=]; subst; repeat split; auto; try lia; intros [? [=]]
              | intros ([= ->] & H1 & H2); try reflexivity; lia]).
Qed.

Lemma string_schema_issues (path : string) (min_msg : option string) (max : N)
    (max_msg : string) (v : option json) :
  issues_of (string_schema path min_msg max max_msg v) = [] ->
  exists s, string_schema path min_msg max max_msg v = Valid s.
Proof.
  unfold string_schema.
  destruct v as [[| | | |s'| |]|]; try discriminate.
  destruct (_ ++ _) eqn:E; [eauto | discriminate].
Qed.

Lemma object_schema_inr {A B C D E F R : Type} (mk : A -> B -> C -> D -> E -> F -> R)
    (n : outcome A) (c : outcome B) (h : outcome C) (s : outcome D)
    (j : outcome E) (t : outcome F) (refinement : list issue) (r : R) :
  sound n -> sound c -> sound h -> sound s -> sound j -> sound t ->
  (object_schema mk n c h s j t refinement = inr r <->
   exists a b c' d e f,
     n = Valid a /\ c = Valid b /\ h = Valid c' /\ s = Valid d /\
     j = Valid e /\ t = Valid f /\ refinement = [] /\ r = mk a b c' d e f).
Proof.
  intros Hn Hc Hh Hs Hj Ht. unfold object_schema. split.
  - destruct (_ ++ refinement) eqn:Hnil; [|discriminate].
    apply app_eq_nil in Hnil as [E0 ->].
    apply app_eq_nil in E0 as [En E1]. apply app_eq_nil in E1 as [Ec E2].
    apply app_eq_nil in E2 as [Eh E3]. apply app_eq_nil in E3 as [Es E4].
    apply app_eq_nil in E4 as [Ej Et].
    destruct (Hn En) as [a ->], (Hc Ec) as [b ->], (Hh Eh) as [c' ->],
             (Hs Es) as [d ->], (Hj Ej) as [e ->], (Ht Et) as [f ->].
    cbn. intros [= <-]. exists a, b, c', d, e, f. repeat split; reflexivity.
  - intros (a & b & c' & d & e & f & -> & -> & -> & -> & -> & -> & -> & ->).
    reflexivity.
Qed.

Lemma string_schema_sound (path : string) (min_msg : option string) (max : N)
    (max_msg : string) (v : option json) :
  sound (string_schema path min_msg max max_msg v).
Proof. intros H. now apply string_schema_issues. Qed.

Lemma mapM_as_string (l : list json) (t : list jsstring) :
  mapM as_string l = Some t <-> l = List.map JStr t.
Proof.
  revert t. induction l as [|x l IH]; intros t.
  - cbn. split; [intros [= <-]; reflexivity | destruct t; [reflexivity | discriminate]].
  - rewrite mapM_Some. split.
    + intros H. inversion H as [|? ? ? ? Hx Hl]; subst. cbn.
      destruct x; try discriminate. cbn in Hx. injection Hx as ->.
      f_equal. apply IH. now apply mapM_Some.
    + destruct t as [|s t]; [discriminate|]. cbn. intros [= -> ->].
      constructor; [reflexivity|]. apply mapM_Some. now apply IH.
Qed.

Lemma tags_schema_sound (v : option json) : sound (tags_schema v).
Proof.
  intros H. unfold tags_schema in *.
  destruct v as [[| | | |s|l|]|]; try discriminate; [eauto|].
  destruct (mapM as_string l); [eauto | discriminate].
Qed.

Lemma tags_schema_valid (v : option json) (t : list jsstring) :
  tags_schema v = Valid t <->
  (exists s, v = Some (JStr s) /\ t = List.filter truthy (List.map trim (split 44 s))) \/
  (v = Some (JArr (List.map JStr t))).
Proof.
  unfold tags_schema. split.
  - destruct v as [[| | | |s|l|]|]; try discriminate.
    + intros [= <-]. left. eauto.
    + destruct (mapM as_string l) as [t'|] eqn:E; [|discriminate].
      intros [= <-]. right. apply mapM_as_string in E. now subst.
  - intros [(s & -> & ->)| ->]; [reflexivity|].
    assert (H : mapM as_string (List.map JStr t) = Some t) by now apply mapM_as_string.
    now rewrite H.
Qed.

Lemma with_default_sound {A} (d : A) (schema : option json -> outcome A) (v : option json) :
  (forall v, sound (schema v)) -> sound (with_default d schema v).
Proof. intros H. destruct v; cbn; [apply H | intros _; eauto]. Qed.

Lemma optional_sound {A} (schema : option json -> outcome A) (v : option json) :
  (forall v, sound (schema v)) -> sound (optional schema v).
Proof.
  intros H. destruct v as [x|]; cbn; [|intros _; eauto].
  specialize (H (Some x)). unfold sound in *.
  destruct (schema (Some x)); cbn in *; [eauto| |]; intros E;
    destruct (H E) as [? [=]].
Qed.

Lemma with_default_valid {A} (d : A) (schema : option json -> outcome A)
    (v : option json) (a : A) :
  with_default d schema v = Valid a <->
  (v = None /\ a = d) \/ (is_Some v /\ schema v = Valid a).
Proof.
  destruct v as [x|]; cbn.
  - split; [intros H; right; split; [eauto | exact H] | intros [[[=] _]|[_ H]]; exact H].
  - split; [intros [= <-]; now left | intros [[_ ->]|[[? [=]] _]]; reflexivity].
Qed.

Lemma optional_valid {A} (schema : option json -> outcome A)
    (v : option json) (a : option A) :
  optional schema v = Valid a <->
  (v = None /\ a = None) \/ (is_Some v /\ exists x, a = Some x /\ schema v = Valid x).
Proof.
  destruct v as [y|]; cbn.
  - destruct (schema (Some y)) eqn:E; split;
      try (intros [= <-]; right; split; eauto);
      try discriminate;
      intros [[[=] _]|[_ (x & -> & [=])]]; subst; reflexivity.
  - split; [intros [= <-]; now left | intros [[_ ->]|[[? [=]] _]]; reflexivity].
Qed.

Lemma string_accepts (path : string) (max : N) (max_msg : string) (x : json) :
  (exists a, string_schema path None max max_msg (Some x) = Valid a) <->
  string_at_most max x.
Proof.
  unfold string_at_most. split.
  - intros (a & H). apply string_schema_valid in H as ([= ->] & _ & H). eauto.
  - intros (s & -> & H). exists s. apply string_schema_valid.
    repeat split; [intros [? [=]] | exact H].
Qed.

Lemma name_accepts (x : json) :
  (exists a, name_schema (Some x) = Valid a) <-> name_ok x.
Proof.
  unfold name_ok, name_schema. split.
  - intros (a & H). apply string_schema_valid in H as ([= ->] & H1 & H2).
    exists a. repeat split; [apply H1; eauto | exact H2].
  - intros (s & -> & H1 & H2). exists s. apply string_schema_valid.
    repeat split; [intros _; exact H1 | exact H2].
Qed.

Lemma tags_accepts (x : json) :
  (exists t, tags_schema (Some x) = Valid t) <-> tags_ok x.
Proof.
  unfold tags_ok. split.
  - intros (t & H). apply tags_schema_valid in H as [(s & [= ->] & _)|[= ->]].
    + left. eauto.
    + right. eexists. split; [reflexivity|].
      apply List.Forall_forall. intros y Hy. apply in_map_iff in Hy as (s & <- & _). eauto.
  - intros [(s & ->)|(l & -> & Hl)].
    + eexists. apply tags_schema_valid. left. eauto.
    + assert (exists t, l = List.map JStr t) as [t ->].
      { induction Hl as [|y l (s & ->) _ (t & ->)]; [now exists [] | now exists (s :: t)]. }
      exists t. apply tags_schema_valid. now right.
Qed.

Lemma with_default_accepts {A} (d : A) (schema : option json -> outcome A)
    (P : json -> Prop) (v : option json) :
  (forall x, (exists a, schema (Some x) = Valid a) <-> P x) ->
  ((exists a, with_default d schema v = Valid a) <-> absent_or P v).
Proof.
  intros H. destruct v as [x|]; cbn; [apply H|]. split; [trivial | eauto].
Qed.

Lemma optional_accepts {A} (schema : option json -> outcome A)
    (P : json -> Prop) (v : option json) :
  (forall x, (exists a, schema (Some x) = Valid a) <-> P x) ->
  ((exists a, optional schema v = Valid a) <-> absent_or P v).
Proof.
  intros H. destruct v as [x|]; cbn; [|split; [trivial | eauto]].
  rewrite <- H. destruct (schema (Some x)); split;
    try (intros (? & [=])); eauto.
Qed.

Lemma update_keys_present (fields : list (jsstring * json)) :
  (0 <? update_keys fields)%nat = true <-> some_field_present fields.
Proof.
  unfold update_keys, some_field_present.
  rewrite Nat.ltb_lt. split.
  - intros H.
    destruct (List.filter _ _) as [|k ks] eqn:E; [cbn in H; lia|].
    assert (Hin : In k (k :: ks)) by now left.
    rewrite <- E in Hin. apply filter_In in Hin as [Hin Hk].
    exists k. split; [exact Hin | now apply bool_decide_eq_true in Hk].
  - intros (k & Hin & Hk).
    assert (Hf : In k (List.filter
                         (fun k => bool_decide (is_Some (field fields k)))
                         ["name"; "category"; "html"; "css"; "js"; "tags"]%string)).
    { apply filter_In. split; [exact Hin | now apply bool_decide_eq_true]. }
    destruct (List.filter _ _); [destruct Hf | cbn; lia].
Qed.

Lemma ComponentSchema_accepts (data : json) :
  (exists validated, ComponentSchema data = inr validated) <-> create_acceptable data.
Proof.
  unfold create_acceptable, ComponentSchema.
  destruct data as [| | | | | |fields];
    try solve [split; [intros (? & [=]) | intros (? & [=] & _)]].
  pose proof (with_default_accepts (js "Other") category_schema _
                (field fields "category") (string_accepts "category" 50 _)) as Hc.
  pose proof (with_default_accepts [] html_schema _
                (field fields "html") (string_accepts "html" 50000 _)) as Hh.
  pose proof (with_default_accepts [] css_schema _
                (field fields "css") (string_accepts "css" 50000 _)) as Hs.
  pose proof (with_default_accepts [] js_schema _
                (field fields "js") (string_accepts "js" 50000 _)) as Hj.
  pose proof (with_default_accepts [] tags_schema _
                (field fields "tags") tags_accepts) as Ht.
  split.
  - intros (validated & H).
    apply object_schema_inr in H;
      try (apply with_default_sound; intros);
      try apply string_schema_sound; try apply tags_schema_sound.
    destruct H as (a & b & c & d & e & f & Ha & Hb & Hc' & Hd & He & Hf & _ & _).
    exists fields. split; [reflexivity|].
    split.
    { destruct (field fields "name") as [x|] eqn:En.
      - exists x. split; [reflexivity|]. apply name_accepts. eauto.
      - discriminate. }
    split; [apply Hc; eauto|]. split; [apply Hh; eauto|].
    split; [apply Hs; eauto|]. split; [apply Hj; eauto | apply Ht; eauto].
  - intros (fields' & [= <-] & (x & En & Hn) & Pc & Ph & Ps & Pj & Pt).
    rewrite En. apply name_accepts in Hn as [a Ha].
    apply Hc in Pc as [b Hb]. apply Hh in Ph as [c Hc'].
    apply Hs in Ps as [d Hd]. apply Hj in Pj as [e He]. apply Ht in Pt as [f Hf].
    exists (mkComponent a b c d e f).
    apply object_schema_inr;
      try (apply with_default_sound; intros);
      try apply string_schema_sound; try apply tags_schema_sound.
    exists a, b, c, d, e, f. repeat split; assumption.
Qed.

Lemma default_string_value (path : string) (max : N) (max_msg : string)
    (d : jsstring) (v : option json) (a : jsstring) :
  with_default d (string_schema path None max max_msg) v = Valid a ->
  a = string_or d v.
Proof.
  intros H. apply with_default_valid in H as [[-> ->]|[_ H]]; [reflexivity|].
  apply string_schema_valid in H as [-> _]. reflexivity.
Qed.

Lemma omap_as_string (t : list jsstring) : omap as_string (List.map JStr t) = t.
Proof. induction t as [|s t IH]; [reflexivity | cbn; now rewrite IH]. Qed.

Lemma filter_truthy (l : list jsstring) :
  List.filter truthy l = List.filter (fun t => bool_decide (t <> [])) l.
Proof.
  apply filter_ext. intros [|c s]; cbn [truthy]; symmetry.
  - apply bool_decide_eq_false. intros H. now apply H.
  - now apply bool_decide_eq_true.
Qed.

Lemma default_tags_value (v : option json) (t : list jsstring) :
  with_default [] tags_schema v = Valid t -> t = tags_or_empty v.
Proof.
  intros H. apply with_default_valid in H as [[-> ->]|[_ H]]; [reflexivity|].
  apply tags_schema_valid in H as [(s & -> & ->)| ->]; cbn.
  - apply filter_truthy.
  - now rewrite omap_as_string.
Qed.

Lemma ComponentSchema_value (data : json) (validated : ComponentData) :
  ComponentSchema data = inr validated ->
  exists fields, data = JObj fields /\
    validated =
      mkComponent (string_or [] (field fields "name"))
                  (string_or (js "Other") (field fields "category"))
                  (string_or [] (field fields "html"))
                  (string_or [] (field fields "css"))
                  (string_or [] (field fields "js"))
                  (tags_or_empty (field fields "tags")).
Proof.
  unfold ComponentSchema. destruct data as [| | | | | |fields]; try discriminate.
  intros H. exists fields. split; [reflexivity|].
  apply object_schema_inr in H;
    try (apply with_default_sound; intros);
    try apply string_schema_sound; try apply tags_schema_sound.
  destruct H as (a & b & c & d & e & f & Ha & Hb & Hc & Hd & He & Hf & _ & ->).
  apply string_schema_valid in Ha as [Ha _]. rewrite Ha. cbn [string_or].
  apply default_string_value in Hb, Hc, Hd, He. apply default_tags_value in Hf.
  now subst.
Qed.

Lemma UpdateComponentSchema_accepts (data : json) :
  (exists validated, UpdateComponentSchema data = inr validated) <->
  update_acceptable data.
Proof.
  unfold update_acceptable, UpdateComponentSchema.
  destruct data as [| | | | | |fields];
    try solve [split; [intros (? & [=]) | intros (? & [=] & _)]].
  cbv zeta.
  pose proof (optional_accepts name_schema _ (field fields "name") name_accepts) as Hn.
  pose proof (optional_accepts category_schema _
                (field fields "category") (string_accepts "category" 50 _)) as Hc.
  pose proof (optional_accepts html_schema _
                (field fields "html") (string_accepts "html" 50000 _)) as Hh.
  pose proof (optional_accepts css_schema _
                (field fields "css") (string_accepts "css" 50000 _)) as Hs.
  pose proof (optional_accepts js_schema _
                (field fields "js") (string_accepts "js" 50000 _)) as Hj.
  pose proof (optional_accepts tags_schema _ (field fields "tags") tags_accepts) as Ht.
  split.
  - intros (validated & H).
    apply object_schema_inr in H;
      try (apply optional_sound; intros);
      try apply string_schema_sound; try apply tags_schema_sound.
    destruct H as (a & b & c & d & e & f & Ha & Hb & Hc' & Hd & He & Hf & Hr & _).
    rewrite Ha, Hb, Hc', Hd, He, Hf in Hr. cbn [is_aborted orb] in Hr.
    exists fields. split; [reflexivity|].
    split; [apply Hn; eauto|]. split; [apply Hc; eauto|]. split; [apply Hh; eauto|].
    split; [apply Hs; eauto|]. split; [apply Hj; eauto|]. split; [apply Ht; eauto|].
    apply update_keys_present.
    destruct (0 <? update_keys fields)%nat; [reflexivity | discriminate].
  - intros (fields' & [= <-] & Pn & Pc & Ph & Ps & Pj & Pt & Hsome).
    apply Hn in Pn as [a Ha]. apply Hc in Pc as [b Hb]. apply Hh in Ph as [c Hc'].
    apply Hs in Ps as [d Hd]. apply Hj in Pj as [e He]. apply Ht in Pt as [f Hf].
    exists (mkUpdate a b c d e f).
    apply object_schema_inr;
      try (apply optional_sound; intros);
      try apply string_schema_sound; try apply tags_schema_sound.
    exists a, b, c, d, e, f. repeat split; try assumption.
    rewrite Ha, Hb, Hc', Hd, He, Hf. cbn [is_aborted orb].
    apply update_keys_present in Hsome. now rewrite Hsome.
Qed.

Lemma create_success (data : json) :
  (exists d w, validateAndSanitizeComponent data = Success d w) <->
  (exists validated, ComponentSchema data = inr validated).
Proof.
  unfold validateAndSanitizeComponent.
  destruct (ComponentSchema data) as [errors|validated].
  - split; [intros (? & ? & [=]) | intros (? & [=])].
  - split; [eauto | intros _; eauto].
Qed.

Lemma update_success (data : json) :
  (exists d w, validateAndSanitizeUpdate data = Success d w) <->
  (exists validated, UpdateComponentSchema data = inr validated).
Proof.
  unfold validateAndSanitizeUpdate.
  destruct (UpdateComponentSchema data) as [errors|validated].
  - split; [intros (? & ? & [=]) | intros (? & [=])].
  - split; [eauto | intros _; eauto].
Qed.

Lemma angle_class (c : N) :
  Regex.class_match false [Regex.CChar 60; Regex.CChar 62] c = is_angle c.
Proof.
  unfold Regex.class_match, Regex.item_match, is_angle.
  cbn [existsb Regex.item_has andb].
  rewrite !orb_false_r. now rewrite (N.eqb_sym 60 c), (N.eqb_sym 62 c).
Qed.

Lemma strip_angle_from (ahead : jsstring) : forall (fuel : nat) (behind out : jsstring),
  (length ahead < fuel)%nat ->
  Regex.replace_from fuel re_angle (fun _ _ => []) behind ahead out =
    rev out ++ List.filter (fun c => negb (is_angle c)) ahead.
Proof.
  induction ahead as [|c rest IH]; intros fuel behind out Hfuel;
    (destruct fuel as [|fuel]; [cbn in Hfuel; lia|]).
  - cbn. now rewrite app_nil_r.
  - cbn [Regex.replace_from]. unfold Regex.match_here, re_angle.
    cbn [Regex.run Regex.source Regex.ignoreCase Regex.on_char Regex.ahead xorb].
    rewrite angle_class. cbn [List.filter].
    destruct (is_angle c); cbn [negb].
    + cbn [Regex.step Regex.ahead Regex.behind Regex.captures length].
      replace (S (length rest) - length rest)%nat with 1%nat by lia.
      cbn [firstn rev app]. apply IH. cbn in Hfuel. lia.
    + rewrite IH by (cbn in Hfuel; lia). cbn [rev]. now rewrite <- app_assoc.
Qed.

Lemma strip_angle_filter (s : jsstring) :
  strip_angle s = List.filter (fun c => negb (is_angle c)) s.
Proof.
  unfold strip_angle, Regex.replace, Regex.replace_with.
  now rewrite strip_angle_from by lia.
Qed.

Lemma strip_angle_no_angle (s : jsstring) : no_angle (strip_angle s).
Proof.
  rewrite strip_angle_filter. unfold no_angle.
  apply List.Forall_forall. intros c Hc. apply filter_In in Hc as [_ Hc].
  unfold is_angle in Hc. apply negb_true_iff, orb_false_iff in Hc as [H1 H2].
  apply N.eqb_neq in H1, H2. now split.
Qed.

End ValidationFacts.

Module ValidationClaims.
Import Zod Validation PayloadSpec ValidationFacts.

(** C8.  Create validation succeeds exactly on the objects whose name
    is a string of 1 to 100 characters, whose category, html, css and
    js, when present, are strings of at most 50, 50,000, 50,000 and
    50,000 characters, and whose tags, when present, are a string or an
    array of strings; the parsed payload takes "Other" for an absent
    category, the empty string for absent html, css and js, and for
    tags the comma-separated pieces trimmed and without the empty ones,
    or the array as given, or the empty array.  Update validation
    succeeds exactly on the objects whose present fields meet the same
    constraints and that have at least one of the six fields; the empty
    object is refused with a validation error. *)
Theorem C8_payload_contract :
  (forall data : json,
     (exists d w, validateAndSanitizeComponent data = Success d w) <->
     create_acceptable data) /\
  (forall (data : json) (validated : ComponentData),
     ComponentSchema data = inr validated ->
     exists fields, data = JObj fields /\
       validated =
         mkComponent (string_or [] (field fields "name"))
                     (string_or (js "Other") (field fields "category"))
                     (string_or [] (field fields "html"))
                     (string_or [] (field fields "css"))
                     (string_or [] (field fields "js"))
                     (tags_or_empty (field fields "tags"))) /\
  (forall data : json,
     (exists d w, validateAndSanitizeUpdate data = Success d w) <->
     update_acceptable data) /\
  validateAndSanitizeUpdate (JObj []) =
    Failure (js "Validation failed")
            [([], js "At least one field must be provided for update")].
Proof.
  split.
  { intros data. rewrite create_success. apply ComponentSchema_accepts. }
  split; [exact ComponentSchema_value|].
  split.
  { intros data. rewrite update_success. apply UpdateComponentSchema_accepts. }
  vm_compute. reflexivity.
Qed.

(** An instance: the payload of the specification's example is
    acceptable, so it validates, and its parsed category is the one
    given. *)
Lemma C8_payload_contract_witness :
  (exists d w, validateAndSanitizeComponent btn_payload = Success d w) /\
  (exists fields, btn_payload = JObj fields /\
     string_or (js "Other") (field fields "category") = js "UI").
Proof.
  destruct C8_payload_contract as (Hcreate & Hvalue & _).
  split.
  - apply Hcreate. exists (match btn_payload with JObj f => f | _ => [] end).
    split; [reflexivity|].
    split; [exists (JStr (js "Btn")); split;
            [reflexivity | exists (js "Btn"); repeat split; vm_compute; discriminate]|].
    split; [exists (js "UI"); split; [reflexivity | vm_compute; discriminate]|].
    split; [exists (js "<script>x</script><div>Btn</div>");
            split; [reflexivity | vm_compute; discriminate]|].
    split; [exists []; split; [reflexivity | vm_compute; discriminate]|].
    split; [exists []; split; [reflexivity | vm_compute; discriminate]|].
    right. exists [JStr (js "ui")]. split; [reflexivity|].
    constructor; [now exists (js "ui") | constructor].
  - destruct (Hvalue btn_payload
                (mkComponent (js "Btn") (js "UI")
                   (js "<script>x</script><div>Btn</div>") [] [] [js "ui"]))
      as (fields & Hf & _); [vm_compute; reflexivity|].
    exists fields. split; [exact Hf|]. injection Hf as <-. reflexivity.
Defined.

(** C10, counterexample.  The name [< a] and the tag [< >] pass
    validation; the returned name is [ a] and the returned tag is a
    single space: both still begin with white space, so neither is
    trimmed. *)
Lemma C10_counterexample :
  exists d w,
    validateAndSanitizeComponent bracket_payload = Success d w /\
    name d = js " a" /\
    (trimmed (name d) -> False) /\
    tags d = [js " "; js "x"] /\
    (Forall trimmed (tags d) -> False).
Proof.
  eexists; eexists. split; [vm_compute; reflexivity|].
  cbn [name tags]. split; [reflexivity|].
  split; [unfold trimmed; vm_compute; discriminate|].
  split; [reflexivity|].
  intros H. inversion H as [|? ? H1 _]. unfold trimmed in H1.
  vm_compute in H1. discriminate.
Qed.

(** C10, as amended.  For every payload the create validator accepts,
    the returned name, category and tags are the validated ones,
    trimmed first and then rid of every [<] and [>]: none of them
    contains an angle bracket, and every returned tag is non-empty. *)
Theorem C10_metadata (data : json) (d : ComponentData) (w : list jsstring) :
  validateAndSanitizeComponent data = Success d w ->
  no_angle (name d) /\
  no_angle (category d) /\
  Forall (fun t => no_angle t /\ t <> []) (tags d) /\
  exists validated,
    ComponentSchema data = inr validated /\
    name d = List.filter (fun c => negb (is_angle c)) (trim (name validated)) /\
    category d = List.filter (fun c => negb (is_angle c)) (trim (category validated)) /\
    tags d =
      List.filter (fun t => bool_decide (t <> []))
        (List.map (fun t => List.filter (fun c => negb (is_angle c)) (trim t))
                  (tags validated)).
Proof.
  unfold validateAndSanitizeComponent.
  destruct (ComponentSchema data) as [errors|validated]; [discriminate|].
  intros [= <- _]. cbn [name category tags].
  split; [apply strip_angle_no_angle|].
  split; [apply strip_angle_no_angle|].
  split.
  - apply List.Forall_forall. intros t Ht.
    apply filter_In in Ht as [Ht Hne].
    apply in_map_iff in Ht as (t0 & <- & _).
    split; [apply strip_angle_no_angle|].
    destruct (strip_angle (trim t0)); [discriminate | discriminate].
  - exists validated. split; [reflexivity|].
    split; [apply strip_angle_filter|]. split; [apply strip_angle_filter|].
    rewrite filter_truthy. f_equal. apply map_ext. intros t. apply strip_angle_filter.
Qed.

(** An instance of C10 on the payload with brackets. *)
Lemma C10_metadata_witness :
  no_angle (js " a") /\ Forall (fun t => no_angle t /\ t <> []) [js " "; js "x"].
Proof.
  destruct (C10_metadata bracket_payload
              (mkComponent (js " a") (js "Other") [] [] [] [js " "; js "x"]) [])
    as (Hn & _ & Ht & _); [vm_compute; reflexivity|].
  split; [exact Hn | exact Ht].
Defined.

End ValidationClaims.

(* ================================================================== *)
(** ** Binary64 values: the integers below 2^53                        *)
(* ================================================================== *)

Module Binary64Facts.
Import Binary64.
Local Open Scope Z_scope.

Lemma pow2_pos (k : Z) : 0 <= k -> 0 < 2 ^ k.
Proof. intros H. apply Z.pow_pos_nonneg; lia. Qed.

Lemma pow10_pos (k : Z) : 0 <= k -> 0 < 10 ^ k.
Proof. intros H. apply Z.pow_pos_nonneg; lia. Qed.

Lemma log2_bounds (c : Z) :
  0 < c -> 0 <= Z.log2 c /\ 2 ^ Z.log2 c <= c < 2 ^ (Z.log2 c + 1).
Proof.
  intros H. split; [apply Z.log2_nonneg|].
  replace (Z.log2 c + 1) with (Z.succ (Z.log2 c)) by lia. now apply Z.log2_spec.
Qed.

(** An integer below [2^53] is a value: rounding leaves it as it is. *)
Lemma round_ratio_small (c : Z) :
  0 < c < 2 ^ 53 ->
  round_ratio c 1 = Some (c * 2 ^ (52 - Z.log2 c), Z.log2 c - 52).
Proof.
  intros [Hpos Hlt]. destruct (log2_bounds c Hpos) as (H0 & Hlo & Hhi).
  assert (H52 : Z.log2 c <= 52).
  { assert (Z.log2 c < 53); [|lia]. apply Z.log2_lt_pow2; assumption. }
  unfold round_ratio, log2_ratio. change (Z.log2 1) with 0. rewrite Z.sub_0_r.
  rewrite (proj2 (Z.leb_le 0 (Z.log2 c)) H0). rewrite Z.mul_1_l.
  rewrite (proj2 (Z.ltb_ge c (2 ^ Z.log2 c)) Hlo).
  rewrite Z.max_l by lia. cbv zeta.
  assert (Hf : c * 2 ^ (52 - Z.log2 c) < 2 ^ 53).
  { replace 53 with ((Z.log2 c + 1) + (52 - Z.log2 c)) at 1 by lia.
    rewrite Z.pow_add_r by lia.
    apply Z.mul_lt_mono_pos_r; [apply pow2_pos; lia | exact Hhi]. }
  assert (Hbig : 2 ^ 53 <= 2 ^ 1024) by (apply Z.pow_le_mono_r; lia).
  destruct (Z.ltb_spec (Z.log2 c - 52) 0) as [Hq|Hq].
  - replace (- (Z.log2 c - 52)) with (52 - Z.log2 c) by lia.
    rewrite Z.div_1_r, Z.mod_1_r, Z.mul_0_r.
    change (1 <? 0) with false. change (1 =? 0) with false. cbn [orb andb].
    rewrite Z.max_r by lia. rewrite Z.pow_0_r, Z.mul_1_r.
    destruct (Z.leb_spec (2 ^ 1024) (c * 2 ^ (52 - Z.log2 c))); [lia|].
    reflexivity.
  - assert (E52 : Z.log2 c = 52) by lia. rewrite E52 in *.
    rewrite !Z.sub_diag, !Z.pow_0_r, !Z.mul_1_r.
    rewrite Z.div_1_r, Z.mod_1_r, Z.mul_0_r.
    change (1 <? 0) with false. change (1 =? 0) with false. cbn [orb andb].
    destruct (Z.leb_spec (2 ^ 1024) c); [lia|]. reflexivity.
Qed.

(** An integer from [2^53] on is rounded to a value from [2^53] on. *)
Lemma round_ratio_large (c : Z) (f q : Z) :
  2 ^ 53 <= c -> round_ratio c 1 = Some (f, q) -> 1 <= q /\ 2 ^ 52 <= f.
Proof.
  intros Hc. assert (Hpos : 0 < c).
  { pose proof (pow2_pos 53). lia. }
  destruct (log2_bounds c Hpos) as (H0 & Hlo & Hhi).
  assert (H53 : 53 <= Z.log2 c).
  { apply Z.log2_le_pow2; [exact Hpos | exact Hc]. }
  unfold round_ratio, log2_ratio. change (Z.log2 1) with 0. rewrite Z.sub_0_r.
  rewrite (proj2 (Z.leb_le 0 (Z.log2 c)) H0). rewrite Z.mul_1_l.
  rewrite (proj2 (Z.ltb_ge c (2 ^ Z.log2 c)) Hlo).
  rewrite Z.max_l by lia. cbv zeta.
  rewrite (proj2 (Z.ltb_ge (Z.log2 c - 52) 0)) by lia.
  rewrite Z.mul_1_l.
  set (q0 := Z.log2 c - 52).
  assert (Hq0 : 1 <= q0) by (unfold q0; lia).
  assert (Hdiv : 2 ^ 52 <= c / 2 ^ q0).
  { apply Z.div_le_lower_bound; [apply pow2_pos; lia|].
    rewrite <- Z.pow_add_r by lia. replace (q0 + 52) with (Z.log2 c) by (unfold q0; lia).
    exact Hlo. }
  destruct (_ || _); destruct (_ <=? _); try discriminate; intros [= <- <-]; lia.
Qed.

Lemma nearest_small (m e : Z) :
  0 < m -> 0 <= e -> m * 10 ^ e < 2 ^ 53 ->
  nearest m e =
    Finite (m * 10 ^ e * 2 ^ (52 - Z.log2 (m * 10 ^ e))) (Z.log2 (m * 10 ^ e) - 52).
Proof.
  intros Hm He Hlt. unfold nearest.
  rewrite (proj2 (Z.eqb_neq m 0)) by lia.
  rewrite (proj2 (Z.leb_le 0 e) He). rewrite Z.abs_eq by lia.
  assert (0 < m * 10 ^ e).
  { apply Z.mul_pos_pos; [exact Hm | now apply pow10_pos]. }
  rewrite round_ratio_small by lia.
  rewrite Z.sgn_pos by exact Hm. now rewrite Z.mul_1_l.
Qed.

Lemma nearest_large (m e : Z) :
  0 < m -> 0 <= e -> 2 ^ 53 <= m * 10 ^ e ->
  (exists b, nearest m e = Infinite b) \/
  (exists f q, nearest m e = Finite f q /\ 1 <= q /\ 2 ^ 52 <= f).
Proof.
  intros Hm He Hge. unfold nearest.
  rewrite (proj2 (Z.eqb_neq m 0)) by lia.
  rewrite (proj2 (Z.leb_le 0 e) He). rewrite Z.abs_eq by lia.
  destruct (round_ratio (m * 10 ^ e) 1) as [[f q]|] eqn:E; [right|left; eauto].
  destruct (round_ratio_large _ _ _ Hge E) as [Hq Hf].
  exists (Z.sgn m * f), q. rewrite Z.sgn_pos by exact Hm. rewrite Z.mul_1_l. auto.
Qed.

(** The decimals that read as an integer below [2^53] are the integer
    itself. *)
Lemma same_small (m e z : Z) :
  0 < m -> 0 <= e -> 0 < z < 2 ^ 53 ->
  same (nearest m e) (nearest z 0) = true -> m * 10 ^ e = z.
Proof.
  intros Hm He Hz.
  rewrite (nearest_small z 0) by (rewrite ?Z.pow_0_r, ?Z.mul_1_r; lia).
  rewrite Z.pow_0_r, Z.mul_1_r.
  destruct (log2_bounds z (proj1 Hz)) as (Hz0 & _ & _).
  assert (Hz52 : Z.log2 z <= 52).
  { assert (Z.log2 z < 53); [|lia]. apply Z.log2_lt_pow2; lia. }
  destruct (Z.lt_ge_cases (m * 10 ^ e) (2 ^ 53)) as [Hlt|Hge].
  - rewrite (nearest_small m e) by assumption.
    set (c := m * 10 ^ e) in *.
    assert (Hc : 0 < c).
    { apply Z.mul_pos_pos; [exact Hm | now apply pow10_pos]. }
    destruct (log2_bounds c Hc) as (Hc0 & _ & _).
    assert (Hc52 : Z.log2 c <= 52).
    { assert (Z.log2 c < 53); [|lia]. apply Z.log2_lt_pow2; lia. }
    cbn [same]. intros H. apply Z.eqb_eq in H.
    set (q := Z.min (Z.log2 c - 52) (Z.log2 z - 52)) in H.
    rewrite <- !Z.mul_assoc, <- !Z.pow_add_r in H by (unfold q; lia).
    replace (52 - Z.log2 c + (Z.log2 c - 52 - q)) with (- q) in H by lia.
    replace (52 - Z.log2 z + (Z.log2 z - 52 - q)) with (- q) in H by lia.
    apply Z.mul_cancel_r in H; [exact H|].
    assert (0 < 2 ^ (- q)); [apply pow2_pos; unfold q; lia | lia].
  - destruct (nearest_large m e Hm He Hge) as [[b ->]|(f & q & -> & Hq & Hf)];
      [discriminate|].
    cbn [same]. intros H. apply Z.eqb_eq in H. exfalso.
    rewrite Z.min_r in H by lia.
    replace (Z.log2 z - 52 - (Z.log2 z - 52)) with 0 in H by lia.
    rewrite Z.pow_0_r, Z.mul_1_r in H.
    assert (Hzz : z * 2 ^ (52 - Z.log2 z) < 2 ^ 53 * 2 ^ (52 - Z.log2 z)).
    { apply Z.mul_lt_mono_pos_r; [apply pow2_pos; lia | lia]. }
    rewrite <- H in Hzz.
    replace (q - (Z.log2 z - 52)) with (q + (52 - Z.log2 z)) in Hzz by lia.
    rewrite Z.pow_add_r, Z.mul_assoc in Hzz by lia.
    apply Z.mul_lt_mono_pos_r in Hzz; [|apply pow2_pos; lia].
    assert (2 ^ 52 * 2 ^ 1 <= f * 2 ^ q).
    { apply Z.mul_le_mono_nonneg;
        [apply Z.pow_nonneg; lia | exact Hf | apply Z.pow_nonneg; lia
        | apply Z.pow_le_mono_r; lia]. }
    change (2 ^ 52 * 2 ^ 1) with (2 ^ 53) in *. lia.
Qed.

Lemma same_refl (x : double) : same x x = true.
Proof.
  destruct x as [f q|b]; cbn [same]; [apply Z.eqb_refl | now destruct b].
Qed.

(** The search, for an integer below [2^53], ends on the integer. *)
Lemma search_small (z : Z) (fuel : nat) : forall j : Z,
  0 < z < 2 ^ 53 -> 0 <= j -> (j < Z.of_nat fuel) ->
  let k := 52 - Z.log2 z in
  exists s i, search fuel (z * 2 ^ k) (- k) j = (s, i) /\ 0 <= i /\ s * 10 ^ i = z.
Proof.
  induction fuel as [|fuel IH]; intros j Hz Hj Hfuel k; [lia|].
  destruct (log2_bounds z (proj1 Hz)) as (Hz0 & _ & _).
  assert (Hz52 : Z.log2 z <= 52).
  { assert (Z.log2 z < 53); [|lia]. apply Z.log2_lt_pow2; lia. }
  assert (Hk : 0 <= k) by (unfold k; lia).
  assert (Hnear : nearest z 0 = Finite (z * 2 ^ k) (- k)).
  { rewrite (nearest_small z 0) by (rewrite ?Z.pow_0_r, ?Z.mul_1_r; lia).
    rewrite Z.pow_0_r, Z.mul_1_r. unfold k. f_equal. lia. }
  cbn [search]. rewrite <- Hnear.
  rewrite (proj2 (Z.ltb_ge j 0)) by lia. rewrite (proj2 (Z.leb_le 0 j)) by lia.
  rewrite Z.mul_1_r.
  assert (Hquot : (z * 2 ^ k * (if 0 <=? - k then 2 ^ (- k) else 1)) /
                  ((if - k <? 0 then 2 ^ (- - k) else 1) * 10 ^ j) = z / 10 ^ j).
  { pose proof (pow10_pos j Hj) as H10.
    destruct (Z.eq_dec k 0) as [->|Hk0].
    - cbn. rewrite !Z.mul_1_r. destruct (10 ^ j); reflexivity.
    - rewrite (proj2 (Z.leb_gt 0 (- k))) by lia.
      rewrite (proj2 (Z.ltb_lt (- k) 0)) by lia.
      rewrite Z.opp_involutive, Z.mul_1_r.
      rewrite (Z.mul_comm z), Z.div_mul_cancel_l; [reflexivity | lia |].
      pose proof (pow2_pos k Hk). lia. }
  rewrite Hquot. set (lo := z / 10 ^ j).
  set (r := _ mod _).
  set (vd := (if - k <? 0 then 2 ^ (- - k) else 1) * 10 ^ j).
  destruct ((0 <? lo) && same (nearest lo j) (nearest z 0)) eqn:Eu.
  - apply andb_true_iff in Eu. destruct Eu as [Hlo Hs]. apply Z.ltb_lt in Hlo.
    apply same_small in Hs; try assumption.
    destruct (same (nearest (lo + 1) j) (nearest z 0)) eqn:Eo; cbn [andb].
    + apply same_small in Eo; try assumption; [|lia].
      destruct (_ || _); [exists lo, j | exists (lo + 1), j]; auto.
    + exists lo, j. auto.
  - cbn [andb].
    destruct (same (nearest (lo + 1) j) (nearest z 0)) eqn:Eo.
    + assert (0 <= lo).
      { unfold lo. apply Z.div_pos; [lia | now apply pow10_pos]. }
      apply same_small in Eo; try assumption; [|lia].
      exists (lo + 1), j. auto.
    + destruct (Z.eq_dec j 0) as [->|Hj0].
      * exfalso. unfold lo in Eu. rewrite Z.pow_0_r, Z.div_1_r in Eu.
        rewrite same_refl, andb_true_r in Eu. apply Z.ltb_ge in Eu. lia.
      * apply IH; [exact Hz | lia | lia].
Qed.

Lemma start_small (z : Z) :
  0 < z -> 0 <= start (z * 2 ^ (52 - Z.log2 z)) (- (52 - Z.log2 z)).
Proof.
  intros Hz. unfold start.
  destruct (log2_bounds z Hz) as (Hz0 & _ & _).
  destruct (Z.le_gt_cases (Z.log2 z) 52) as [H52|H52].
  - rewrite Z.log2_mul_pow2 by lia.
    replace (52 - Z.log2 z + Z.log2 z + - (52 - Z.log2 z)) with (Z.log2 z) by lia.
    rewrite (proj2 (Z.ltb_ge (Z.log2 z) 0)) by lia.
    assert (0 <= (Z.log2 z + 1) * 30103 / 100000); [apply Z.div_pos; lia | lia].
  - rewrite (Z.pow_neg_r 2 (52 - Z.log2 z)) by lia. rewrite Z.mul_0_r.
    change (Z.log2 0) with 0. rewrite Z.add_0_l.
    rewrite (proj2 (Z.ltb_ge (- (52 - Z.log2 z)) 0)) by lia.
    assert (0 <= (- (52 - Z.log2 z) + 1) * 30103 / 100000); [apply Z.div_pos; lia | lia].
Qed.

Lemma nearest_opp (m e : Z) :
  0 < m ->
  nearest (- m) e =
    match nearest m e with
    | Finite f q => Finite (- f) q
    | Infinite b => Infinite (negb b)
    end.
Proof.
  intros Hm. unfold nearest.
  rewrite (proj2 (Z.eqb_neq (- m) 0)) by lia.
  rewrite (proj2 (Z.eqb_neq m 0)) by lia.
  rewrite Z.abs_opp. rewrite (Z.sgn_neg (- m)) by lia. rewrite (Z.sgn_pos m) by lia.
  rewrite (proj2 (Z.ltb_lt (- m) 0)) by lia. rewrite (proj2 (Z.ltb_ge m 0)) by lia.
  destruct (round_ratio _ _) as [[f q]|]; [|reflexivity].
  f_equal. lia.
Qed.

(** An integer below [2^53] in absolute value is its own shortest
    decimal. *)
Lemma shortest_safe (z : Z) : Z.abs z < 2 ^ 53 -> shortest z 0 = Some (z, 0).
Proof.
  intros Hz.
  assert (Hpos : forall p, 0 < p < 2 ^ 53 ->
            exists s i,
              search (Z.to_nat (start (p * 2 ^ (52 - Z.log2 p)) (- (52 - Z.log2 p)) + 1 +
                                Z.max (- - (52 - Z.log2 p)) 0))
                     (p * 2 ^ (52 - Z.log2 p)) (- (52 - Z.log2 p))
                     (start (p * 2 ^ (52 - Z.log2 p)) (- (52 - Z.log2 p))) = (s, i) /\
              0 <= i /\ s * 10 ^ i = p).
  { intros p Hp. apply search_small; [exact Hp | apply start_small; lia |].
    pose proof (start_small p (proj1 Hp)). rewrite Z2Nat.id; lia. }
  assert (Hf : forall p, 0 < p -> 0 < p * 2 ^ (52 - Z.log2 p) \/ Z.log2 p > 52).
  { intros p Hp. destruct (Z.le_gt_cases (Z.log2 p) 52); [left|lia].
    apply Z.mul_pos_pos; [exact Hp | apply pow2_pos; lia]. }
  assert (H52 : forall p, 0 < p < 2 ^ 53 -> Z.log2 p <= 52).
  { intros p Hp. assert (Z.log2 p < 53); [|lia]. apply Z.log2_lt_pow2; lia. }
  destruct (Z.lt_trichotomy z 0) as [Hneg|[->|Hp]].
  - assert (Hp : 0 < - z < 2 ^ 53) by lia.
    unfold shortest. replace z with (- - z) at 1 by lia.
    rewrite nearest_opp by lia.
    rewrite (nearest_small (- z) 0) by (rewrite ?Z.pow_0_r, ?Z.mul_1_r; lia).
    rewrite Z.pow_0_r, Z.mul_1_r.
    destruct (Hf (- z)) as [Hfp|Hbad]; [lia| |specialize (H52 _ Hp); lia].
    rewrite (proj2 (Z.eqb_neq _ 0)) by lia.
    rewrite Z.abs_opp, Z.abs_eq by lia.
    replace (Z.log2 (- z) - 52) with (- (52 - Z.log2 (- z))) by lia.
    destruct (Hpos (- z) Hp) as (s & i & -> & Hi & Hs).
    rewrite (proj2 (Z.leb_le 0 i) Hi). rewrite Z.sgn_neg by lia.
    do 2 f_equal. rewrite <- Z.mul_assoc, Hs. lia.
  - reflexivity.
  - assert (Hp' : 0 < z < 2 ^ 53) by lia.
    unfold shortest.
    rewrite (nearest_small z 0) by (rewrite ?Z.pow_0_r, ?Z.mul_1_r; lia).
    rewrite Z.pow_0_r, Z.mul_1_r.
    destruct (Hf z) as [Hfp|Hbad]; [lia| |specialize (H52 _ Hp'); lia].
    rewrite (proj2 (Z.eqb_neq _ 0)) by lia.
    rewrite Z.abs_eq by lia.
    replace (Z.log2 z - 52) with (- (52 - Z.log2 z)) by lia.
    destruct (Hpos z Hp') as (s & i & -> & Hi & Hs).
    rewrite (proj2 (Z.leb_le 0 i) Hi). rewrite Z.sgn_pos by lia.
    do 2 f_equal. rewrite <- Z.mul_assoc, Hs. lia.
Qed.

(** Comparing an integer below [2^53] with an integer is exact. *)
Lemma below_safe (z n : Z) : Z.abs z < 2 ^ 53 -> below (nearest z 0) n = (z <? n).
Proof.
  intros Hz.
  assert (Hpos : forall p, 0 < p < 2 ^ 53 ->
            0 <= 52 - Z.log2 p /\ 0 < 2 ^ (52 - Z.log2 p)).
  { intros p Hp. assert (Z.log2 p < 53) by (apply Z.log2_lt_pow2; lia).
    split; [lia | apply pow2_pos; lia]. }
  assert (Hcmp : forall a k, 0 <= k -> 0 < 2 ^ k ->
            below (Finite (a * 2 ^ k) (- k)) n = (a <? n)).
  { intros a k Hk H2. cbn [below].
    destruct (Z.leb_spec 0 (- k)).
    - assert (k = 0) as -> by lia. cbn. now rewrite !Z.mul_1_r.
    - rewrite Z.opp_involutive.
      destruct (Z.ltb_spec a n), (Z.ltb_spec (a * 2 ^ k) (n * 2 ^ k)); try reflexivity.
      + apply Z.mul_lt_mono_pos_r with (p := 2 ^ k) in H0; [lia | exact H2].
      + apply Z.mul_lt_mono_pos_r in H1; [lia | exact H2]. }
  destruct (Z.lt_trichotomy z 0) as [Hneg|[->|Hp]].
  - replace z with (- - z) at 1 by lia. rewrite nearest_opp by lia.
    rewrite (nearest_small (- z) 0) by (rewrite ?Z.pow_0_r, ?Z.mul_1_r; lia).
    rewrite Z.pow_0_r, Z.mul_1_r.
    destruct (Hpos (- z)) as [Hk H2]; [lia|].
    replace (Z.log2 (- z) - 52) with (- (52 - Z.log2 (- z))) by lia.
    rewrite <- Z.mul_opp_l, Z.opp_involutive. now apply Hcmp.
  - cbn. now rewrite Z.mul_1_r.
  - rewrite (nearest_small z 0) by (rewrite ?Z.pow_0_r, ?Z.mul_1_r; lia).
    rewrite Z.pow_0_r, Z.mul_1_r.
    destruct (Hpos z) as [Hk H2]; [lia|].
    replace (Z.log2 z - 52) with (- (52 - Z.log2 z)) by lia.
    now apply Hcmp.
Qed.

(** An integer below [2^53] is zero only as 0. *)
Lemma is_zero_safe (z : Z) : Z.abs z < 2 ^ 53 -> is_zero (nearest z 0) = (z =? 0).
Proof.
  intros Hz.
  assert (Hpos : forall p, 0 < p < 2 ^ 53 -> 0 < p * 2 ^ (52 - Z.log2 p)).
  { intros p Hp. assert (Z.log2 p < 53) by (apply Z.log2_lt_pow2; lia).
    apply Z.mul_pos_pos; [lia | apply pow2_pos; lia]. }
  destruct (Z.lt_trichotomy z 0) as [Hneg|[->|Hp]].
  - replace z with (- - z) at 1 by lia. rewrite nearest_opp by lia.
    rewrite (nearest_small (- z) 0) by (rewrite ?Z.pow_0_r, ?Z.mul_1_r; lia).
    rewrite Z.pow_0_r, Z.mul_1_r. cbn [is_zero].
    specialize (Hpos (- z)).
    rewrite (proj2 (Z.eqb_neq _ 0)) by lia. symmetry. apply Z.eqb_neq. lia.
  - reflexivity.
  - rewrite (nearest_small z 0) by (rewrite ?Z.pow_0_r, ?Z.mul_1_r; lia).
    rewrite Z.pow_0_r, Z.mul_1_r. cbn [is_zero].
    specialize (Hpos z).
    rewrite (proj2 (Z.eqb_neq _ 0)) by lia. symmetry. apply Z.eqb_neq. lia.
Qed.

(** An integer below [2^53] is a number as it is. *)
Lemma round_safe (z : Z) : Z.abs z < 2 ^ 53 -> Num.round z = Num.Integer z.
Proof.
  intros Hz. unfold Num.round.
  assert (Hpos : forall p, 0 < p < 2 ^ 53 ->
            0 <= 52 - Z.log2 p /\ 0 < 2 ^ (52 - Z.log2 p)).
  { intros p Hp. assert (Z.log2 p < 53) by (apply Z.log2_lt_pow2; lia).
    split; [lia | apply pow2_pos; lia]. }
  assert (Hint : forall a k, 0 <= k -> 0 < 2 ^ k -> integer (a * 2 ^ k) (- k) = a).
  { intros a k Hk H2. unfold integer. destruct (Z.leb_spec 0 (- k)).
    - assert (k = 0) as -> by lia. cbn. now rewrite !Z.mul_1_r.
    - rewrite Z.opp_involutive. apply Z.div_mul. lia. }
  destruct (Z.lt_trichotomy z 0) as [Hneg|[->|Hp]].
  - replace z with (- - z) at 1 by lia. rewrite nearest_opp by lia.
    rewrite (nearest_small (- z) 0) by (rewrite ?Z.pow_0_r, ?Z.mul_1_r; lia).
    rewrite Z.pow_0_r, Z.mul_1_r.
    destruct (Hpos (- z)) as [Hk H2]; [lia|].
    replace (Z.log2 (- z) - 52) with (- (52 - Z.log2 (- z))) by lia.
    rewrite <- Z.mul_opp_l, Z.opp_involutive. now rewrite Hint.
  - reflexivity.
  - rewrite (nearest_small z 0) by (rewrite ?Z.pow_0_r, ?Z.mul_1_r; lia).
    rewrite Z.pow_0_r, Z.mul_1_r.
    destruct (Hpos z) as [Hk H2]; [lia|].
    replace (Z.log2 z - 52) with (- (52 - Z.log2 z)) by lia.
    now rewrite Hint.
Qed.

End Binary64Facts.

(* ================================================================== *)
(** ** Tokens and the authentication gateway                           *)
(* ================================================================== *)

(* ------------------------------------------------------------------ *)
(** *** SHA-256 and HMAC on the published test vectors                 *)
(* ------------------------------------------------------------------ *)

Module WebCryptoFacts.
Import WebCrypto TextSpec.

(** FIPS 180-4, the one-block and the two-block message. *)
Lemma sha256_one_block :
  hex (sha256 (utf8 (js "abc")))
    = js "ba7816bf8f01cfea414140de5dae2223b00361a396177a9cb410ff61f20015ad".
Proof. vm_compute. reflexivity. Qed.

Lemma sha256_two_blocks :
  hex (sha256 (utf8 (js "abcdbcdecdefdefgefghfghighijhijkijkljklmklmnlmnomnopnopq")))
    = js "248d6a61d20638b8e5c026930c3e6039a33ce45964ff2167f6ecedd419db06c1".
Proof. vm_compute. reflexivity. Qed.

(** RFC 4231, test case 2. *)
Lemma hmac_sha256_rfc4231 :
  hex (hmac_sha256 (utf8 (js "Jefe")) (utf8 (js "what do ya want for nothing?")))
    = js "5bdcc146bf60754e6a042426089575c75a003f089d2739839dec58b964ec3843".
Proof. vm_compute. reflexivity. Qed.

End WebCryptoFacts.

(* ------------------------------------------------------------------ *)
(** *** Base64                                                         *)
(* ------------------------------------------------------------------ *)

Module Base64Facts.
Import Base64 TextSpec.

Ltac euclid := zify; Z.to_euclidean_division_equations; lia.

Lemma list_ind3 {A} (P : list A -> Prop) :
  P [] -> (forall a, P [a]) -> (forall a b, P [a; b]) ->
  (forall a b c l, P l -> P (a :: b :: c :: l)) ->
  forall l, P l.
Proof.
  intros H0 H1 H2 H3 l.
  assert (H : P l /\ (forall a, P (a :: l)) /\ (forall a b, P (a :: b :: l))).
  { induction l as [|x l (IH0 & IH1 & IH2)]; [auto|].
    split; [apply IH1|]. split; [intros a; apply IH2|].
    intros a b. now apply H3. }
  apply H.
Qed.

Lemma b64_index_char (i : N) : sextet i -> b64_index (b64_char i) = Some i.
Proof.
  unfold sextet, b64_index, b64_char, is_upper, is_lower, is_digit. intros Hi.
  destruct (N.ltb_spec i 26).
  { replace ((65 <=? 65 + i) && (65 + i <=? 90)) with true
      by (symmetry; apply andb_true_iff; split; apply N.leb_le; lia).
    f_equal. lia. }
  destruct (N.ltb_spec i 52).
  { replace ((65 <=? 71 + i) && (71 + i <=? 90)) with false
      by (symmetry; apply andb_false_iff; right; apply N.leb_gt; lia).
    replace ((97 <=? 71 + i) && (71 + i <=? 122)) with true
      by (symmetry; apply andb_true_iff; split; apply N.leb_le; lia).
    f_equal. lia. }
  destruct (N.ltb_spec i 62).
  { replace ((65 <=? i - 4) && (i - 4 <=? 90)) with false
      by (symmetry; apply andb_false_iff; left; apply N.leb_gt; lia).
    replace ((97 <=? i - 4) && (i - 4 <=? 122)) with false
      by (symmetry; apply andb_false_iff; left; apply N.leb_gt; lia).
    replace ((48 <=? i - 4) && (i - 4 <=? 57)) with true
      by (symmetry; apply andb_true_iff; split; apply N.leb_le; lia).
    f_equal. lia. }
  destruct (N.eqb_spec i 62) as [->|Hne]; [reflexivity|].
  assert (i = 63) as -> by lia. reflexivity.
Qed.

Lemma b64_char_plain (i : N) : sextet i -> plain (b64_char i).
Proof.
  unfold sextet, plain, b64_char, is_ascii_whitespace. intros Hi.
  destruct (N.ltb_spec i 26); [|destruct (N.ltb_spec i 52);
    [|destruct (N.ltb_spec i 62); [|destruct (N.eqb_spec i 62)]]];
    (split; [repeat (apply orb_false_iff; split); apply N.eqb_neq; lia
            | repeat split; lia]).
Qed.

Lemma sextets_range (bytes : list N) :
  Forall byte bytes -> Forall sextet (sextets bytes).
Proof.
  unfold byte, sextet.
  induction bytes as [|a|a b|a b c l IH] using list_ind3; intros H; cbn [sextets].
  - constructor.
  - inversion_clear H. repeat constructor; euclid.
  - inversion_clear H as [|? ? Ha H']. inversion_clear H' as [|? ? Hb _].
    repeat constructor; euclid.
  - inversion_clear H as [|? ? Ha H']. inversion_clear H' as [|? ? Hb H''].
    inversion_clear H'' as [|? ? Hc Hl].
    repeat (constructor; [euclid|]). now apply IH.
Qed.

Lemma bytes_of_sextets (bytes : list N) :
  Forall byte bytes -> bytes_of (sextets bytes) = bytes.
Proof.
  unfold byte.
  induction bytes as [|a|a b|a b c l IH] using list_ind3; intros H;
    cbn [sextets bytes_of].
  - reflexivity.
  - inversion_clear H. f_equal. euclid.
  - inversion_clear H as [|? ? Ha H']. inversion_clear H' as [|? ? Hb _].
    f_equal; [euclid|]. f_equal. euclid.
  - inversion_clear H as [|? ? Ha H']. inversion_clear H' as [|? ? Hb H''].
    inversion_clear H'' as [|? ? Hc Hl].
    rewrite IH by assumption.
    f_equal; [euclid|]. f_equal; [euclid|]. f_equal. euclid.
Qed.

Lemma sextets_length (bytes : list N) : (length (sextets bytes) mod 4 <> 1)%nat.
Proof.
  induction bytes as [|a|a b|a b c l IH] using list_ind3; cbn [sextets length].
  - cbn. lia.
  - cbn. lia.
  - cbn. lia.
  - replace (S (S (S (S (length (sextets l))))))
      with (length (sextets l) + 1 * 4)%nat by lia.
    now rewrite Nat.Div0.mod_add.
Qed.

Lemma strip_padding_plain (s : jsstring) :
  Forall plain s -> strip_padding s = s.
Proof.
  intros H. unfold strip_padding.
  assert (Hr : Forall plain (rev s)) by now apply Forall_rev.
  destruct (rev s) as [|c r]; [reflexivity|].
  inversion_clear Hr as [|? ? (_ & Hc & _) _].
  destruct c as [|p]; [reflexivity|].
  do 6 (destruct p as [p|p|]; try reflexivity). congruence.
Qed.

Lemma filter_whitespace_plain (s : jsstring) :
  Forall plain s -> List.filter (fun c => negb (is_ascii_whitespace c)) s = s.
Proof.
  induction 1 as [|c s (Hc & _) _ IH]; [reflexivity|].
  cbn. now rewrite Hc, IH.
Qed.

(** Decoding the unpadded characters of a byte string gives it back. *)
Lemma atob_unpadded (bytes : list N) :
  Forall byte bytes -> atob (List.map b64_char (sextets bytes)) = Some bytes.
Proof.
  intros H. pose proof (sextets_range bytes H) as Hs.
  assert (Hp : Forall plain (List.map b64_char (sextets bytes))).
  { apply Forall_map. eapply Forall_impl; [exact Hs|]. exact b64_char_plain. }
  unfold atob. rewrite filter_whitespace_plain by exact Hp.
  rewrite strip_padding_plain by exact Hp.
  rewrite Tauto.if_same.
  rewrite length_map.
  destruct (Nat.eqb_spec (length (sextets bytes) mod 4) 1) as [E|_];
    [now apply sextets_length in E|].
  assert (Hm : mapM b64_index (List.map b64_char (sextets bytes)) = Some (sextets bytes)).
  { apply mapM_Some. clear H Hp.
    induction Hs as [|i l Hi _ IH]; constructor; [now apply b64_index_char | exact IH]. }
  rewrite Hm. cbn. now rewrite bytes_of_sextets.
Qed.

End Base64Facts.

(* ------------------------------------------------------------------ *)
(** *** JSON text                                                      *)
(* ------------------------------------------------------------------ *)

Module JSONFacts.
Import JSONText TextSpec.

Ltac euclid := zify; Z.to_euclidean_division_equations; lia.

Lemma hex_value_char (d : N) : d < 16 -> RegexSyntax.hex_value (hex_char d) = Some d.
Proof.
  intros Hd. unfold RegexSyntax.hex_value, hex_char, is_digit.
  destruct (N.ltb_spec d 10).
  - replace ((48 <=? 48 + d) && (48 + d <=? 57)) with true
      by (symmetry; apply andb_true_iff; split; apply N.leb_le; lia).
    f_equal. lia.
  - replace ((48 <=? 87 + d) && (87 + d <=? 57)) with false
      by (symmetry; apply andb_false_iff; right; apply N.leb_gt; lia).
    replace ((97 <=? 87 + d) && (87 + d <=? 102)) with true
      by (symmetry; apply andb_true_iff; split; apply N.leb_le; lia).
    f_equal. lia.
Qed.

Lemma parse_hex4_hex4 (c : N) :
  c < 65536 ->
  parse_hex4 (hex_char (c / 4096)) (hex_char ((c / 256) mod 16))
             (hex_char ((c / 16) mod 16)) (hex_char (c mod 16)) = Some c.
Proof.
  intros Hc. unfold parse_hex4.
  rewrite !hex_value_char by euclid. f_equal. euclid.
Qed.

Lemma parse_chars_plain (c : N) (rest acc : jsstring) :
  c <> 34 -> c <> 92 -> 32 <= c ->
  parse_chars (c :: rest) acc = parse_chars rest (c :: acc).
Proof.
  intros H1 H2 H3. cbn [parse_chars].
  destruct (N.eqb_spec c 34); [contradiction|].
  destruct (N.eqb_spec c 92); [contradiction|].
  destruct (N.ltb_spec c 32); [lia | reflexivity].
Qed.

Lemma parse_chars_escape (c : N) (rest acc : jsstring) :
  c < 55296 ->
  parse_chars (escape_char c ++ rest) acc = parse_chars rest (c :: acc).
Proof.
  intros Hc. unfold escape_char.
  destruct (N.eqb_spec c 8) as [->|]; [reflexivity|].
  destruct (N.eqb_spec c 9) as [->|]; [reflexivity|].
  destruct (N.eqb_spec c 10) as [->|]; [reflexivity|].
  destruct (N.eqb_spec c 12) as [->|]; [reflexivity|].
  destruct (N.eqb_spec c 13) as [->|]; [reflexivity|].
  destruct (N.eqb_spec c 34) as [->|]; [reflexivity|].
  destruct (N.eqb_spec c 92) as [->|]; [reflexivity|].
  destruct (N.ltb_spec c 32).
  - unfold unicode_escape, hex4. cbn [app parse_chars N.eqb Pos.eqb].
    now rewrite parse_hex4_hex4 by lia.
  - cbn [app]. now apply parse_chars_plain.
Qed.

Lemma quote_chars_cons (c : N) (s : jsstring) :
  c < 55296 -> quote_chars (c :: s) = escape_char c ++ quote_chars s.
Proof.
  intros Hc. cbn [quote_chars]. unfold is_lead, is_trail.
  destruct (N.leb_spec 55296 c); [lia|].
  destruct (N.leb_spec 56320 c); [lia|]. reflexivity.
Qed.

(** Reading back a quoted string. *)
Lemma parse_chars_quote (s : jsstring) : forall (acc rest : jsstring),
  latin1 s ->
  parse_chars (quote_chars s ++ 34 :: rest) acc = Some (rev acc ++ s, rest).
Proof.
  induction s as [|c s IH]; intros acc rest Hs.
  - cbn. now rewrite app_nil_r.
  - inversion_clear Hs as [|? ? Hc Hs'].
    rewrite quote_chars_cons by lia. rewrite <- app_assoc.
    rewrite parse_chars_escape by lia. rewrite IH by exact Hs'.
    cbn [rev]. now rewrite <- app_assoc.
Qed.

Lemma escape_char_latin1 (c : N) : c < 256 -> latin1 (escape_char c).
Proof.
  intros Hc. unfold escape_char, unicode_escape, hex4, hex_char, latin1.
  repeat match goal with
         | |- context [if ?b then _ else _] => destruct b eqn:?
         end;
    repeat constructor; try lia; euclid.
Qed.

Lemma quote_chars_latin1 (s : jsstring) : latin1 s -> latin1 (quote_chars s).
Proof.
  induction 1 as [|c s Hc _ IH]; [constructor|].
  rewrite quote_chars_cons by lia.
  apply Forall_app. split; [now apply escape_char_latin1 | exact IH].
Qed.

Lemma quote_latin1 (s : jsstring) : latin1 s -> latin1 (quote s).
Proof.
  intros H. unfold quote. constructor; [lia|].
  apply Forall_app. split; [now apply quote_chars_latin1 | repeat constructor; lia].
Qed.

Lemma dval_cons (c : N) (s : jsstring) (v : N) :
  dval (c :: s) v = dval s (10 * v + (c - 48)).
Proof. reflexivity. Qed.

Lemma digits_fuel_value (fuel : nat) : forall (n : N) (acc : jsstring),
  n < 10 ^ N.of_nat fuel ->
  dval (digits_fuel fuel n acc) 0 = dval acc n.
Proof.
  induction fuel as [|fuel IH]; intros n acc Hn.
  - cbn in *. f_equal. lia.
  - cbn [digits_fuel].
    destruct (N.ltb_spec n 10).
    + rewrite dval_cons. f_equal. euclid.
    + rewrite IH.
      * rewrite dval_cons. f_equal. euclid.
      * rewrite Nat2N.inj_succ, N.pow_succ_r' in Hn. euclid.
Qed.

Lemma digit_is_digit (c : N) : digit c <-> is_digit c = true.
Proof.
  unfold digit, is_digit. rewrite andb_true_iff, !N.leb_le. tauto.
Qed.

Lemma digits_fuel_digits (fuel : nat) : forall (n : N) (acc : jsstring),
  Forall digit acc -> Forall digit (digits_fuel fuel n acc).
Proof.
  induction fuel as [|fuel IH]; intros n acc Hacc; [exact Hacc|].
  cbn [digits_fuel].
  assert (Hd : digit (48 + n mod 10)) by (unfold digit; euclid).
  destruct (n <? 10); [now constructor | apply IH; now constructor].
Qed.

(** A positive number begins with a digit that is not zero. *)
Lemma digits_fuel_head (fuel : nat) : forall (n : N) (acc : jsstring),
  0 < n -> n < 10 ^ N.of_nat fuel ->
  exists d more, digits_fuel fuel n acc = d :: more /\ d <> 48.
Proof.
  induction fuel as [|fuel IH]; intros n acc Hpos Hn; [cbn in Hn; lia|].
  cbn [digits_fuel].
  destruct (N.ltb_spec n 10).
  - eexists; eexists. split; [reflexivity | euclid].
  - apply IH; [euclid|].
    rewrite Nat2N.inj_succ, N.pow_succ_r' in Hn. euclid.
Qed.

Lemma digits_enough (n : N) : n < 10 ^ N.of_nat (S (N.to_nat (N.size n))).
Proof.
  rewrite Nat2N.inj_succ, N2Nat.id, N.pow_succ_r'.
  pose proof (N.size_gt n) as H1.
  assert (H2 : 2 ^ N.size n <= 10 ^ N.size n) by (apply N.pow_le_mono_l; lia).
  lia.
Qed.

Lemma digits_value (n : N) : dval (digits n) 0 = n.
Proof. unfold digits. now rewrite digits_fuel_value by apply digits_enough. Qed.

Lemma digits_digits (n : N) : Forall digit (digits n).
Proof. apply digits_fuel_digits. constructor. Qed.

Lemma digits_zero : digits 0 = [48].
Proof. reflexivity. Qed.

Lemma digits_head (n : N) :
  0 < n -> exists d more, digits n = d :: more /\ d <> 48.
Proof. intros H. apply digits_fuel_head; [exact H | apply digits_enough]. Qed.

Lemma span_digits_app (ds rest : jsstring) :
  Forall digit ds -> closes rest -> span_digits (ds ++ rest) = (ds, rest).
Proof.
  intros Hds (r & Hr). induction Hds as [|c ds Hc _ IH].
  - destruct Hr as [-> | ->]; reflexivity.
  - cbn [app span_digits]. apply digit_is_digit in Hc. now rewrite Hc, IH.
Qed.

Lemma after_other (c d : N) (rest : jsstring) : d <> c -> after c (d :: rest) = None.
Proof. intros H. cbn. now destruct (N.eqb_spec d c). Qed.

Lemma safe_below (z : Z) : (Z.abs z < 2 ^ 53)%Z -> (Z.abs z < 10 ^ 21)%Z.
Proof.
  intros H. assert (2 ^ 53 < 10 ^ 21)%Z by reflexivity. lia.
Qed.

(** An integer below 2^53 is written as its digits. *)
Lemma number_to_string_safe (z : Z) :
  (Z.abs z < 2 ^ 53)%Z -> number_to_string z 0 = decimal_text z 0.
Proof.
  intros Hz. unfold number_to_string. now rewrite Binary64Facts.shortest_safe.
Qed.

Lemma stringify_safe (z : Z) :
  (Z.abs z < 2 ^ 53)%Z -> stringify (JInt z) = decimal_text z 0.
Proof.
  intros Hz. cbn [stringify]. now rewrite Binary64Facts.shortest_safe.
Qed.

Lemma json_number_safe (z : Z) : (Z.abs z < 2 ^ 53)%Z -> json_number z 0 = JInt z.
Proof.
  intros Hz. unfold json_number. now rewrite Binary64Facts.shortest_safe.
Qed.

(** Reading back an integer below 2^53. *)
Lemma parse_number_integer (z : Z) (rest : jsstring) :
  (Z.abs z < 2 ^ 53)%Z -> closes rest ->
  parse_number (decimal_text z 0 ++ rest) = Some (JInt z, rest).
Proof.
  intros Hsafe Hrest. pose proof (safe_below z Hsafe) as Hz. unfold decimal_text.
  replace ((0 =? 0)%Z && (Z.abs z <? 10 ^ 21)%Z) with true
    by (symmetry; apply andb_true_iff; split; [reflexivity | now apply Z.ltb_lt]).
  pose proof (digits_digits (Z.abs_N z)) as Hds.
  pose proof (digits_value (Z.abs_N z)) as Hv.
  assert (Hhead : exists d more, digits (Z.abs_N z) = d :: more /\
                    digit d /\ ((d =? 48) && negb (bool_decide (more = []))) = false).
  { destruct (Z.eq_dec z 0%Z) as [->|Hnz].
    - exists 48, []. repeat split; try reflexivity; unfold digit; lia.
    - destruct (digits_head (Z.abs_N z)) as (d & more & E & Hd); [lia|].
      exists d, more. rewrite E in Hds. inversion_clear Hds.
      repeat split; try assumption; try apply H.
      now destruct (N.eqb_spec d 48). }
  destruct Hhead as (d & more & E & Hd & Hzero).
  assert (Htail : parse_fraction rest = Some ([], rest) /\
                  parse_exponent rest = Some (0%Z, rest)).
  { destruct Hrest as (r & [-> | ->]); split; reflexivity. }
  destruct Htail as [Hf He].
  unfold parse_number.
  destruct (Z.ltb_spec z 0%Z) as [Hneg|Hpos].
  - change (js "-") with [45]. cbn [app after N.eqb Pos.eqb].
    rewrite span_digits_app by assumption.
    rewrite E, Hzero, <- E, Hf. cbn [mbind option_bind]. rewrite He.
    cbn [mbind option_bind length Z.of_nat Z.sub Z.opp Z.add].
    rewrite app_nil_r, Hv. do 2 f_equal.
    replace (- Z.of_N (Z.abs_N z))%Z with z by lia. now apply json_number_safe.
  - cbn [app].
    assert (Hafter : after 45 (digits (Z.abs_N z) ++ rest) = None).
    { rewrite E. cbn [app]. apply after_other. unfold digit in Hd. lia. }
    rewrite Hafter.
    rewrite span_digits_app by assumption.
    rewrite E, Hzero, <- E, Hf. cbn [mbind option_bind]. rewrite He.
    cbn [mbind option_bind length Z.of_nat Z.sub Z.opp Z.add].
    rewrite app_nil_r, Hv. do 2 f_equal.
    replace (Z.of_N (Z.abs_N z)) with z by lia. now apply json_number_safe.
Qed.

Lemma number_text_head (z : Z) :
  (Z.abs z < 2 ^ 53)%Z ->
  exists c more, decimal_text z 0 = c :: more /\ (c = 45 \/ digit c).
Proof.
  intros Hsafe. pose proof (safe_below z Hsafe) as Hz. unfold decimal_text.
  replace ((0 =? 0)%Z && (Z.abs z <? 10 ^ 21)%Z) with true
    by (symmetry; apply andb_true_iff; split; [reflexivity | now apply Z.ltb_lt]).
  destruct (z <? 0)%Z.
  - exists 45, (digits (Z.abs_N z)). split; [reflexivity | now left].
  - pose proof (digits_digits (Z.abs_N z)) as Hds.
    destruct (digits (Z.abs_N z)) as [|c more] eqn:E.
    + exfalso. pose proof (digits_value (Z.abs_N z)) as Hv.
      destruct (Z.eq_dec z 0%Z) as [->|Hnz]; [discriminate|].
      rewrite E in Hv. cbn in Hv. lia.
    + exists c, more. split; [reflexivity|]. right. now inversion Hds.
Qed.

Lemma parse_value_simple (v : json) (fuel : nat) (rest : jsstring) :
  simple v -> closes rest ->
  parse_value (S fuel) (stringify v ++ rest) = Some (v, rest).
Proof.
  intros Hv Hrest. destruct v as [|b|m e|b|s|l|fields]; try contradiction.
  - reflexivity.
  - destruct Hv as [-> Hm]. rewrite (stringify_safe m Hm).
    destruct (number_text_head m Hm) as (c & more & E & Hc).
    assert (Hparse : parse_number (c :: more ++ rest) = Some (JInt m, rest)).
    { rewrite app_comm_cons, <- E. now apply parse_number_integer. }
    rewrite E. cbn [app parse_value skip_ws].
    assert (Hws : is_json_ws c = false).
    { unfold is_json_ws. destruct Hc as [->|[H1 H2]]; [reflexivity|].
      repeat (apply orb_false_iff; split); apply N.eqb_neq; lia. }
    rewrite Hws.
    destruct (N.eqb_spec c 34); [destruct Hc as [?|[? ?]]; lia|].
    destruct (N.eqb_spec c 123); [destruct Hc as [?|[? ?]]; lia|].
    destruct (N.eqb_spec c 91); [destruct Hc as [?|[? ?]]; lia|].
    change (js "true") with [116; 114; 117; 101].
    change (js "false") with [102; 97; 108; 115; 101].
    change (js "null") with [110; 117; 108; 108].
    cbn [strip_prefix].
    destruct (N.eqb_spec 116 c); [destruct Hc as [?|[? ?]]; lia|].
    destruct (N.eqb_spec 102 c); [destruct Hc as [?|[? ?]]; lia|].
    destruct (N.eqb_spec 110 c); [destruct Hc as [?|[? ?]]; lia|].
    exact Hparse.
  - cbn [stringify]. unfold quote. cbn [app parse_value skip_ws is_json_ws N.eqb Pos.eqb orb].
    rewrite <- app_assoc. cbn [app].
    now rewrite parse_chars_quote by exact Hv.
Qed.

Lemma join_cons2 (sep x y : jsstring) (l : list jsstring) :
  join sep (x :: y :: l) = x ++ sep ++ join sep (y :: l).
Proof. reflexivity. Qed.

Lemma parse_member (kv : jsstring * json) (fuel : nat) (more : jsstring) :
  simple_member kv -> closes more ->
  parse_members (S (S fuel)) (member_text kv ++ more) =
    match after 44 (skip_ws more), after 125 (skip_ws more) with
    | Some r4, _ =>
        '(fields, r5) ← parse_members (S fuel) r4; Some (kv :: fields, r5)
    | None, Some r4 => Some ([kv], r4)
    | None, None => None
    end.
Proof.
  intros [Hk Hv] Hmore. destruct kv as [key v]. cbn [fst snd] in *.
  unfold member_text, quote. cbn [fst snd].
  change (js ":") with [58]. rewrite <- !app_assoc.
  cbn [app parse_members skip_ws is_json_ws N.eqb Pos.eqb orb after mbind option_bind].
  rewrite <- app_assoc. cbn [app].
  rewrite parse_chars_quote by exact Hk.
  cbn [mbind option_bind rev app skip_ws is_json_ws N.eqb Pos.eqb orb after].
  rewrite parse_value_simple by assumption.
  reflexivity.
Qed.

Lemma join_cons (sep x : jsstring) (l : list jsstring) :
  l <> [] -> join sep (x :: l) = x ++ sep ++ join sep l.
Proof. destruct l; [contradiction | reflexivity]. Qed.

(** Reading back the members of an object. *)
Lemma parse_members_simple (fields : list (jsstring * json)) :
  forall (fuel : nat) (rest : jsstring),
  fields <> [] -> Forall simple_member fields -> (length fields < fuel)%nat ->
  parse_members fuel (join (js ",") (List.map member_text fields) ++ 125 :: rest) =
    Some (fields, rest).
Proof.
  induction fields as [|kv fields IH]; intros fuel rest Hne Hall Hfuel; [contradiction|].
  inversion_clear Hall as [|? ? Hkv Hrest].
  destruct fuel as [|[|fuel]]; [cbn in Hfuel; lia | cbn in Hfuel; lia |].
  assert (Hcases : fields = [] \/ fields <> [])
    by (destruct fields; [now left | now right]).
  destruct Hcases as [->|Hfields].
  - cbn [List.map join].
    rewrite (parse_member kv fuel (125 :: rest)); auto.
    eexists. now right.
  - cbn [List.map]. rewrite join_cons by (destruct fields; [contradiction | discriminate]).
    change (js ",") with [44].
    rewrite <- !app_assoc. cbn [app].
    rewrite (parse_member kv fuel); auto; [|eexists; now left].
    cbn [skip_ws is_json_ws N.eqb Pos.eqb orb after].
    change [44] with (js ",").
    rewrite (IH (S fuel) rest); [reflexivity | exact Hfields | exact Hrest |].
    cbn in Hfuel |- *. lia.
Qed.

Lemma member_text_length (kv : jsstring * json) : (1 <= length (member_text kv))%nat.
Proof. unfold member_text, quote. cbn [app length]. lia. Qed.

Lemma members_length (fields : list (jsstring * json)) :
  (length fields <= length (join (js ",") (List.map member_text fields)))%nat.
Proof.
  induction fields as [|kv fields IH]; [cbn; lia|].
  pose proof (member_text_length kv) as Hkv.
  assert (Hcases : fields = [] \/ fields <> [])
    by (destruct fields; [now left | now right]).
  destruct Hcases as [->|Hfields].
  - cbn [List.map join length]. lia.
  - cbn [List.map]. rewrite join_cons by (destruct fields; [contradiction | discriminate]).
    rewrite !length_app. cbn [length]. lia.
Qed.

(** [JSON.parse(JSON.stringify(o))] for an object of simple members
    whose keys are enumerated as they were written. *)
Lemma parse_stringify_simple (fields : list (jsstring * json)) :
  fields <> [] -> Forall simple_member fields -> own_properties fields = fields ->
  parse (stringify (JObj fields)) = Some (JObj fields).
Proof.
  intros Hne Hall Hown. unfold parse. cbn [stringify].
  change (List.map (fun kv => quote (fst kv) ++ js ":" ++ stringify (snd kv)) fields)
    with (List.map member_text fields).
  change (js "{") with [123]. change (js "}") with [125].
  set (members := join (js ",") (List.map member_text fields)).
  assert (Hstart : exists more, members = 34 :: more).
  { subst members. destruct fields as [|kv [|kv' fields]]; [contradiction| |].
    - cbn [List.map join]. unfold member_text, quote. eexists. reflexivity.
    - cbn [List.map]. rewrite join_cons2. unfold member_text at 1. unfold quote.
      cbn [app]. eexists. reflexivity. }
  cbn [app length parse_value skip_ws is_json_ws N.eqb Pos.eqb orb].
  destruct Hstart as (more & Hm).
  assert (Hafter : after 125 (skip_ws (members ++ [125])) = None).
  { rewrite Hm. reflexivity. }
  rewrite Hafter.
  pose proof (members_length fields) as Hlen. fold members in Hlen.
  rewrite length_app. cbn [length].
  replace (length members + 1)%nat with (S (length members)) by lia.
  subst members.
  rewrite parse_members_simple; [| exact Hne | exact Hall | lia].
  cbn [mbind option_bind skip_ws]. now rewrite Hown.
Qed.

Lemma digits_latin1 (n : N) : latin1 (digits n).
Proof.
  eapply Forall_impl; [apply digits_digits|]. unfold digit. intros c. cbn. lia.
Qed.

Lemma strip_zeros_latin1 (s : jsstring) : latin1 s -> latin1 (strip_zeros s).
Proof.
  induction 1 as [|c s Hc Hs IH]; [constructor|].
  cbn [strip_zeros]. destruct c as [|p]; [now constructor|].
  do 6 (destruct p as [p|p|]; try now constructor). exact IH.
Qed.

Lemma decimal_text_latin1 (m e : Z) : latin1 (decimal_text m e).
Proof.
  unfold decimal_text.
  assert (Hsign : latin1 (if (m <? 0)%Z then js "-" else []))
    by (destruct (m <? 0)%Z; repeat constructor; lia).
  pose proof (digits_latin1 (Z.abs_N m)) as Hds.
  assert (Hs : latin1 (rev (strip_zeros (rev (digits (Z.abs_N m))))))
    by (apply Forall_rev, strip_zeros_latin1, Forall_rev, Hds).
  destruct ((e =? 0)%Z && (Z.abs m <? 10 ^ 21)%Z).
  { apply Forall_app. now split. }
  apply Forall_app. split; [exact Hsign|].
  set (s := rev (strip_zeros (rev (digits (Z.abs_N m))))) in *.
  assert (Hrep : forall n, latin1 (repeat 48 n)).
  { intros n. induction n; cbn; constructor; [lia | assumption]. }
  repeat match goal with
         | |- context [if ?b then _ else _] => destruct b
         end.
  - apply Forall_app. split; [exact Hs | apply Hrep].
  - apply Forall_app. split; [now apply Forall_take|].
    apply Forall_app. split; [repeat constructor; lia | now apply Forall_drop].
  - apply Forall_app. split; [repeat constructor; lia|].
    apply Forall_app. split; [apply Hrep | exact Hs].
  - assert (Hexp : latin1 (js "e-" ++ digits (Z.abs_N (Z.of_nat (length (digits (Z.abs_N m))) + e - 1))))
      by (apply Forall_app; split; [repeat constructor; lia | apply digits_latin1]).
    destruct s as [|d [|d' rest]]; [constructor | |];
      inversion_clear Hs as [|? ? Hd Hs'].
    + now constructor.
    + constructor; [exact Hd|]. apply Forall_app. split; [repeat constructor; lia|].
      apply Forall_app. now split.
  - assert (Hexp : latin1 (js "e+" ++ digits (Z.abs_N (Z.of_nat (length (digits (Z.abs_N m))) + e - 1))))
      by (apply Forall_app; split; [repeat constructor; lia | apply digits_latin1]).
    destruct s as [|d [|d' rest]]; [constructor | |];
      inversion_clear Hs as [|? ? Hd Hs'].
    + now constructor.
    + constructor; [exact Hd|]. apply Forall_app. split; [repeat constructor; lia|].
      apply Forall_app. now split.
Qed.

Lemma number_to_string_latin1 (m e : Z) : latin1 (number_to_string m e).
Proof.
  unfold number_to_string. destruct (Binary64.shortest m e) as [[m' e']|].
  - apply decimal_text_latin1.
  - destruct (m <? 0)%Z; vm_compute; repeat constructor.
Qed.

Lemma simple_printable (kv : jsstring * json) : simple_member kv -> printable_member kv.
Proof.
  intros [Hk Hv]. split; [exact Hk|]. destruct (snd kv); cbn in *; tauto.
Qed.

Lemma stringify_printable_latin1 (v : json) : printable v -> latin1 (stringify v).
Proof.
  destruct v as [|b|m e|b|s|l|fields]; try contradiction; intros Hv.
  - repeat constructor; lia.
  - cbn [stringify]. destruct (Binary64.shortest m e) as [[m' e']|].
    + apply decimal_text_latin1.
    + vm_compute. repeat constructor.
  - now apply quote_latin1.
Qed.

Lemma members_latin1 (fields : list (jsstring * json)) :
  Forall printable_member fields ->
  latin1 (join (js ",") (List.map member_text fields)).
Proof.
  induction 1 as [|kv fields [Hk Hv] Hrest IH]; [constructor|].
  assert (Hm : latin1 (member_text kv)).
  { unfold member_text. apply Forall_app. split; [now apply quote_latin1|].
    apply Forall_app. split; [repeat constructor; lia | now apply stringify_printable_latin1]. }
  destruct fields as [|kv' fields]; [exact Hm|].
  cbn [List.map]. rewrite join_cons2.
  apply Forall_app. split; [exact Hm|].
  apply Forall_app. split; [repeat constructor; lia | exact IH].
Qed.

Lemma stringify_object_latin1 (fields : list (jsstring * json)) :
  Forall printable_member fields -> latin1 (stringify (JObj fields)).
Proof.
  intros H. cbn [stringify].
  apply Forall_app. split; [repeat constructor; lia|].
  apply Forall_app. split; [now apply members_latin1 | repeat constructor; lia].
Qed.

End JSONFacts.

(* ------------------------------------------------------------------ *)
(** *** Tokens                                                         *)
(* ------------------------------------------------------------------ *)

Module JWTFacts.
Import Regex JSONText JSValue Base64 WebCrypto JWTManager TextSpec TokenSpec.
Import Base64Facts JSONFacts.

(** Replacing one character everywhere. *)
Lemma replace_char_from (c : N) (text ahead : jsstring) :
  forall (fuel : nat) (behind out : jsstring),
  (length ahead < fuel)%nat ->
  replace_from fuel (mkRegExp (Char c) false) (fun _ _ => text) behind ahead out =
    rev out ++ flat_map (fun x => if x =? c then text else [x]) ahead.
Proof.
  induction ahead as [|x rest IH]; intros fuel behind out Hfuel;
    (destruct fuel as [|fuel]; [cbn in Hfuel; lia|]).
  - cbn. now rewrite app_nil_r.
  - cbn [replace_from]. unfold match_here.
    cbn [run source ignoreCase on_char Regex.ahead canon flat_map].
    rewrite (N.eqb_sym c x).
    destruct (x =? c).
    + cbn [step Regex.ahead Regex.behind captures length].
      replace (S (length rest) - length rest)%nat with 1%nat by lia.
      cbn [firstn]. rewrite IH by (cbn in Hfuel; lia).
      rewrite rev_app_distr, rev_involutive. now rewrite <- app_assoc.
    + rewrite IH by (cbn in Hfuel; lia). cbn [rev]. now rewrite <- app_assoc.
Qed.

Lemma replace_char (c : N) (text s : jsstring) :
  replace (mkRegExp (Char c) false) text s =
    flat_map (fun x => if x =? c then text else [x]) s.
Proof. unfold replace, replace_with. now rewrite replace_char_from by lia. Qed.

Lemma replace_char_map (c d : N) (s : jsstring) :
  replace (mkRegExp (Char c) false) [d] s =
    List.map (fun x => if x =? c then d else x) s.
Proof.
  rewrite replace_char. induction s as [|x s IH]; [reflexivity|].
  cbn [flat_map List.map]. rewrite IH. now destruct (x =? c).
Qed.

Lemma padding_equals (s : jsstring) : Forall (fun c => c = 61) (padding s).
Proof.
  unfold padding. destruct (length s mod 3)%nat as [|[|[|n]]]; repeat constructor.
Qed.

(** The encoding of a byte string: its six-bit values in the URL-safe
    alphabet, without padding. *)
Lemma encodeBase64Url_bytes (s : jsstring) :
  Forall byte s -> encodeBase64Url s = inr (List.map url_char (sextets s)).
Proof.
  intros Hs. unfold encodeBase64Url, btoa.
  assert (Hall : forallb (fun c => c <=? 255) s = true).
  { apply forallb_forall. intros c Hc. apply N.leb_le.
    rewrite List.Forall_forall in Hs. specialize (Hs c Hc). unfold byte in Hs. lia. }
  rewrite Hall. cbn [or_throw bind]. f_equal.
  unfold re_equals, re_plus, re_slash. change (js "-") with [45]. change (js "_") with [95].
  rewrite (replace_char 61), (replace_char_map 43), (replace_char_map 47).
  rewrite flat_map_app.
  assert (Hpad : flat_map (fun x => if x =? 61 then [] else [x]) (padding s) = []).
  { pose proof (padding_equals s) as Hp.
    induction Hp as [|c l -> _ IH]; [reflexivity | exact IH]. }
  rewrite Hpad, app_nil_r.
  pose proof (sextets_range s Hs) as Hsx.
  induction Hsx as [|i l Hi _ IH]; [reflexivity|].
  cbn [List.map flat_map].
  destruct (b64_char_plain i Hi) as (_ & Hne & _).
  destruct (N.eqb_spec (b64_char i) 61); [contradiction|].
  cbn [app List.map]. rewrite IH. unfold url_char at 2. cbv zeta.
  destruct (N.eqb_spec (b64_char i) 43); reflexivity.
Qed.

Lemma url_char_back (i : N) :
  sextet i ->
  (fun x => if x =? 95 then 47 else x)
    ((fun x => if x =? 45 then 43 else x) (url_char i)) = b64_char i.
Proof.
  intros Hi. destruct (b64_char_plain i Hi) as (_ & _ & H45 & H95 & _).
  unfold url_char. cbv beta.
  destruct (N.eqb_spec (b64_char i) 43) as [->|]; [reflexivity|].
  destruct (N.eqb_spec (b64_char i) 47) as [->|]; [reflexivity|].
  destruct (N.eqb_spec (b64_char i) 45); [contradiction|].
  destruct (N.eqb_spec (b64_char i) 95); [contradiction | reflexivity].
Qed.

(** Decoding an encoding gives the bytes back. *)
Lemma decodeBase64Url_encoded (s : jsstring) :
  Forall byte s -> decodeBase64Url (List.map url_char (sextets s)) = inr s.
Proof.
  intros Hs. unfold decodeBase64Url, re_underscore, re_minus.
  change (js "/") with [47]. change (js "+") with [43].
  rewrite !replace_char_map, !map_map.
  assert (Hmap : List.map (fun x => (fun y => if y =? 95 then 47 else y)
                                      ((fun y => if y =? 45 then 43 else y) (url_char x)))
                          (sextets s) = List.map b64_char (sextets s)).
  { apply map_ext_in. intros i Hi. apply url_char_back.
    pose proof (sextets_range s Hs) as Hsx. rewrite List.Forall_forall in Hsx. now apply Hsx. }
  cbv beta in Hmap. rewrite Hmap.
  now rewrite atob_unpadded by exact Hs.
Qed.

(** An encoding has no dot in it. *)
Lemma url_chars_no_dot (sx : list N) :
  Forall sextet sx -> Forall (fun c => c <> 46) (List.map url_char sx).
Proof.
  intros H. apply Forall_map. eapply Forall_impl; [exact H|].
  intros i Hi. cbn. destruct (b64_char_plain i Hi) as (_ & _ & _ & _ & Hdot).
  unfold url_char.
  destruct (b64_char i =? 43); [lia|]. destruct (b64_char i =? 47); [lia | exact Hdot].
Qed.

Lemma split_no_sep (c : N) (s : jsstring) :
  Forall (fun x => x <> c) s -> split c s = [s].
Proof.
  induction 1 as [|x s Hx _ IH]; [reflexivity|].
  cbn [split]. destruct (N.eqb_spec x c); [contradiction|]. now rewrite IH.
Qed.

Lemma split_app (c : N) (a rest : jsstring) :
  Forall (fun x => x <> c) a -> split c (a ++ c :: rest) = a :: split c rest.
Proof.
  induction 1 as [|x s Hx _ IH].
  - cbn [app split]. now rewrite N.eqb_refl.
  - cbn [app split]. destruct (N.eqb_spec x c); [contradiction|]. now rewrite IH.
Qed.

Lemma word_bytes_range (w : N) : Forall byte (word_bytes w).
Proof. unfold word_bytes, byte. repeat constructor; euclid. Qed.

Lemma sha256_bytes (msg : list N) : Forall byte (sha256 msg).
Proof.
  unfold sha256. generalize (blocks (length (pad msg)) H0 (pad msg)). intros ws.
  induction ws as [|w ws IH]; [constructor|].
  cbn [flat_map]. apply Forall_app. split; [apply word_bytes_range | exact IH].
Qed.

Lemma hmac_bytes (key msg : list N) : Forall byte (hmac_sha256 key msg).
Proof. unfold hmac_sha256. apply sha256_bytes. Qed.

Lemma utf8_nonempty (s : jsstring) : s <> [] -> utf8 s <> [].
Proof.
  destruct s as [|c rest]; [contradiction|]. intros _. cbn [utf8].
  destruct (is_lead c).
  - destruct rest as [|d rest']; [discriminate|]. destruct (is_trail d); discriminate.
  - destruct (is_trail c); [discriminate|].
    destruct (c <? 128); [discriminate|]. destruct (c <? 2048); discriminate.
Qed.

Lemma importKey_secret (secret : jsstring) :
  secret <> [] -> importKey secret = Some (utf8 secret).
Proof.
  intros H. apply utf8_nonempty in H. unfold importKey.
  destruct (utf8 secret); [contradiction | reflexivity].
Qed.

Lemma issued_printable (userId : jsstring) (kind : string) (now : Z) (expiry : option Z) :
  latin1 userId -> kind_ok kind ->
  match issued_payload userId kind now expiry with
  | JObj fields => Forall printable_member fields
  | _ => False
  end.
Proof.
  intros Hu Hk. cbn [issued_payload].
  repeat constructor; cbn [fst snd printable]; auto;
    try (repeat constructor; lia).
  destruct (plus now expiry); exact I.
Qed.

Lemma header_latin1 : latin1 (stringify header).
Proof. vm_compute. repeat constructor. Qed.

(** [createJWT] succeeds on a Latin-1 subject, with this token. *)
Lemma createJWT_issued (this : t) (userId : jsstring) (kind : string)
    (expiry : option Z) (nowMs : Z) :
  secret this <> [] -> latin1 userId -> kind_ok kind ->
  createJWT this (token_payload userId kind) expiry nowMs =
    inr (token_of (secret this) (issued_payload userId kind (seconds nowMs) expiry)).
Proof.
  intros Hsecret Hu Hk. unfold createJWT, token_of.
  change (defined (token_payload userId kind) ++
          [(js "iat", JInt (seconds nowMs));
           (js "exp", number_or_null (plus (seconds nowMs) expiry))])
    with [(js "userId", JStr userId); (js "type", JStr (js kind));
          (js "iat", JInt (seconds nowMs));
          (js "exp", number_or_null (plus (seconds nowMs) expiry))].
  fold (issued_payload userId kind (seconds nowMs) expiry).
  rewrite (encodeBase64Url_bytes (stringify header)) by exact header_latin1.
  cbn [bind].
  pose proof (issued_printable userId kind (seconds nowMs) expiry Hu Hk) as Hp.
  rewrite (encodeBase64Url_bytes (stringify (issued_payload _ _ _ _)))
    by (apply stringify_object_latin1; exact Hp).
  cbn [bind]. rewrite importKey_secret by exact Hsecret. cbn [or_throw bind].
  rewrite encodeBase64Url_bytes by apply hmac_bytes.
  reflexivity.
Qed.

Lemma decode_encoded (s : jsstring) : latin1 s -> decodeBase64Url (encoded s) = inr s.
Proof. apply decodeBase64Url_encoded. Qed.

Lemma encoded_no_dot (s : jsstring) : latin1 s -> Forall (fun c => c <> 46) (encoded s).
Proof. intros H. apply url_chars_no_dot. now apply sextets_range. Qed.

Lemma split_token (h p s : jsstring) :
  Forall (fun c => c <> 46) h -> Forall (fun c => c <> 46) p ->
  Forall (fun c => c <> 46) s ->
  split 46 ((h ++ js "." ++ p) ++ js "." ++ s) = [h; p; s].
Proof.
  intros Hh Hp Hs. change (js ".") with [46].
  rewrite <- !app_assoc. cbn [app].
  rewrite split_app by exact Hh. rewrite split_app by exact Hp.
  now rewrite split_no_sep by exact Hs.
Qed.

(** Verifying the token of a payload: the signature holds and the
    payload is read back; what remains is the test of the expiry. *)
Lemma verifyToken_token_of (this : t) (payload : json) (nowMs : Z) :
  secret this <> [] -> simple_payload payload ->
  verifyToken this (token_of (secret this) payload) nowMs =
    match expired payload (seconds nowMs) with
    | inl error => inl error
    | inr late => if late then inl JWTExpired else inr payload
    end.
Proof.
  intros Hsecret Hp. destruct payload as [| | | | | |fields]; try contradiction.
  destruct Hp as (Hne & Hall & Hown).
  assert (Hlatin : latin1 (stringify (JObj fields))).
  { apply stringify_object_latin1. eapply Forall_impl; [exact Hall|].
    exact simple_printable. }
  unfold verifyToken, token_of.
  rewrite split_token;
    [| apply encoded_no_dot, header_latin1
     | apply encoded_no_dot, Hlatin
     | apply encoded_no_dot, hmac_bytes ].
  rewrite importKey_secret by exact Hsecret. cbn [or_throw bind].
  rewrite decode_encoded by apply hmac_bytes.
  cbn [bind]. unfold verify, sign.
  rewrite bool_decide_eq_true_2 by reflexivity. cbn [negb].
  rewrite decode_encoded by exact Hlatin.
  cbn [bind]. rewrite parse_stringify_simple by assumption.
  reflexivity.
Qed.

Lemma safe_simple (z : Z) : safe z -> simple (JInt z).
Proof. unfold safe. intros H. split; [reflexivity | exact H]. Qed.

(** Adding an expiry to the clock is exact on safe integers. *)
Lemma plus_safe (now e : Z) : safe (now + e) -> plus now (Some e) = Some (now + e)%Z.
Proof.
  intros H. unfold plus. now rewrite Binary64Facts.round_safe.
Qed.

Lemma plus_in_time (now : Z) (expiry : option Z) :
  (forall e, expiry = Some e -> safe (now + e)) ->
  plus now expiry = option_map (Z.add now) expiry.
Proof.
  intros H. destruct expiry as [e|]; [|reflexivity]. cbn [option_map].
  apply plus_safe. now apply H.
Qed.

Lemma issued_simple (userId : jsstring) (kind : string) (now : Z) (expiry : option Z) :
  latin1 userId -> kind_ok kind -> safe now ->
  (forall e, expiry = Some e -> safe (now + e)) ->
  simple_payload (issued_payload userId kind now expiry).
Proof.
  intros Hu Hk Hnow He. split; [discriminate|]. split; [|reflexivity].
  repeat constructor; cbn [fst snd simple]; auto;
    try (repeat constructor; lia); try apply (safe_simple now Hnow).
  rewrite (plus_in_time now expiry He).
  destruct expiry as [e|]; cbn [option_map number_or_null]; [|exact I].
  apply (safe_simple (now + e)). now apply He.
Qed.

Lemma issued_props (userId : jsstring) (kind : string) (now : Z) (expiry : option Z) :
  prop (issued_payload userId kind now expiry) "userId" = Some (JStr userId) /\
  prop (issued_payload userId kind now expiry) "type" = Some (JStr (js kind)) /\
  prop (issued_payload userId kind now expiry) "iat" = Some (JInt now) /\
  prop (issued_payload userId kind now expiry) "exp" =
    Some (number_or_null (plus now expiry)).
Proof. repeat split; reflexivity. Qed.

(** The expiry test on a safe integer. *)
Lemma expired_safe (payload : json) (e now : Z) :
  prop payload "exp" = Some (JInt e) -> safe e ->
  expired payload now = inr (negb (e =? 0)%Z && (e <? now)%Z).
Proof.
  intros H He. unfold expired. rewrite H. cbn [truthy_value].
  rewrite Binary64Facts.is_zero_safe by exact He.
  destruct (Z.eqb_spec e 0) as [->|Hne]; [reflexivity|]. cbn [negb andb].
  cbn [to_number or_throw bind less_than].
  now rewrite Binary64Facts.below_safe.
Qed.

Lemma issued_expired (userId : jsstring) (kind : string) (now : Z) (expiry : option Z)
    (later : Z) :
  (forall e, expiry = Some e -> safe (now + e)) ->
  expired (issued_payload userId kind now expiry) later =
    inr match expiry with
        | Some e => negb (now + e =? 0)%Z && (now + e <? later)%Z
        | None => false
        end.
Proof.
  intros He. destruct expiry as [e|].
  - apply expired_safe; [|now apply He].
    destruct (issued_props userId kind now (Some e)) as (_ & _ & _ & ->).
    now rewrite plus_safe by now apply He.
  - reflexivity.
Qed.

Lemma kind_access : kind_ok "access".
Proof. unfold kind_ok. vm_compute. repeat constructor. Qed.

Lemma kind_refresh : kind_ok "refresh".
Proof. unfold kind_ok. vm_compute. repeat constructor. Qed.

(** [generateTokens] on a Latin-1 subject. *)
Lemma generateTokens_issued (this : t) (userId : jsstring) (nowMs : Z) :
  secret this <> [] -> latin1 userId ->
  generateTokens this (Some (JStr userId)) None nowMs =
    inr (mkTokens
           (token_of (secret this)
              (issued_payload userId "access" (seconds nowMs)
                 (parseExpiry (accessTokenExpiry this))))
           (token_of (secret this)
              (issued_payload userId "refresh" (seconds nowMs)
                 (parseExpiry (refreshTokenExpiry this))))
           (parseExpiry (accessTokenExpiry this))).
Proof.
  intros Hsecret Hu. unfold generateTokens.
  cbn [option_map or_else].
  change [(js "userId", Some (JStr userId)); (js "type", Some (JStr (js "access")))]
    with (token_payload userId "access").
  change [(js "userId", Some (JStr userId)); (js "type", Some (JStr (js "refresh")))]
    with (token_payload userId "refresh").
  rewrite (createJWT_issued this userId "access") by (auto using kind_access).
  rewrite (createJWT_issued this userId "refresh") by (auto using kind_refresh).
  reflexivity.
Qed.

Lemma verify_issued (this : t) (userId : jsstring) (kind : string)
    (expiry : option Z) (issuedMs verifiedMs : Z) :
  secret this <> [] -> latin1 userId -> kind_ok kind ->
  safe (seconds issuedMs) ->
  in_time expiry (seconds issuedMs) (seconds verifiedMs) ->
  verifyToken this
    (token_of (secret this) (issued_payload userId kind (seconds issuedMs) expiry))
    verifiedMs =
  inr (issued_payload userId kind (seconds issuedMs) expiry).
Proof.
  intros Hsecret Hu Hk Hsafe Htime.
  rewrite verifyToken_token_of;
    [| exact Hsecret
     | apply issued_simple; auto; intros e He; now apply Htime ].
  rewrite issued_expired by (intros e He; now apply Htime).
  destruct expiry as [e|]; [|reflexivity].
  destruct (Htime e eq_refl) as [_ Hle].
  destruct (Z.ltb_spec (seconds issuedMs + e) (seconds verifiedMs)); [lia|].
  now rewrite andb_false_r.
Qed.

Lemma decodeBase64Url_error (s : jsstring) (e : Error) :
  decodeBase64Url s = inl e -> e = InvalidCharacterError.
Proof.
  unfold decodeBase64Url, or_throw. destruct (atob _); [discriminate|]. now intros [= <-].
Qed.

Lemma verifyToken_parts (this : t) (token h p s : jsstring) (nowMs : Z) :
  secret this <> [] -> split 46 token = [h; p; s] ->
  verifyToken this token nowMs =
    match decodeBase64Url s with
    | inl e => inl e
    | inr signature =>
        if bool_decide (signature = signature_of this h p) then
          match decodeBase64Url p with
          | inl e => inl e
          | inr text =>
              match parse text with
              | None => inl SyntaxError
              | Some JNull => inl TypeError
              | Some payload =>
                  match expired payload (seconds nowMs) with
                  | inl error => inl error
                  | inr late => if late then inl JWTExpired else inr payload
                  end
              end
          end
        else inl InvalidJWTSignature
    end.
Proof.
  intros Hsecret Hsplit. unfold verifyToken. rewrite Hsplit.
  rewrite importKey_secret by exact Hsecret. cbn [or_throw bind].
  destruct (decodeBase64Url s) as [e|signature]; [reflexivity|]. cbn [bind].
  unfold verify, sign, signature_of.
  destruct (bool_decide _); [|reflexivity]. cbn [negb].
  destruct (decodeBase64Url p) as [e|text]; [reflexivity|]. cbn [bind].
  destruct (parse text) as [payload|]; [|reflexivity]. cbn [or_throw bind].
  destruct payload; try reflexivity; now destruct (expired _ _).
Qed.

Lemma verifyToken_format (this : t) (token : jsstring) (nowMs : Z) :
  length (split 46 token) <> 3%nat ->
  verifyToken this token nowMs = inl InvalidJWTFormat.
Proof.
  intros H. unfold verifyToken.
  destruct (split 46 token) as [|h [|p [|s [|x l]]]]; try reflexivity.
  now contradiction H.
Qed.

Lemma three_parts (token : jsstring) :
  length (split 46 token) = 3%nat -> exists h p s, split 46 token = [h; p; s].
Proof.
  destruct (split 46 token) as [|h [|p [|s [|x l]]]]; try discriminate. eauto.
Qed.

Lemma expired_integer (payload : json) (e now : Z) :
  prop payload "exp" = Some (JInt e) -> safe e ->
  (expired payload now = inr true <-> e <> 0%Z /\ (e < now)%Z).
Proof.
  intros H He. rewrite (expired_safe payload e now H He).
  split.
  - intros [= Hb]. apply andb_true_iff in Hb. destruct Hb as [H0 Hlt].
    apply negb_true_iff, Z.eqb_neq in H0. apply Z.ltb_lt in Hlt. auto.
  - intros [H0 Hlt]. f_equal. apply andb_true_iff. split.
    + now apply negb_true_iff, Z.eqb_neq.
    + now apply Z.ltb_lt.
Qed.

Lemma expired_absent (payload : json) (now : Z) :
  prop payload "exp" = None -> expired payload now = inr false.
Proof. intros H. unfold expired. now rewrite H. Qed.

Lemma not_null {A} (v : json) (a b : A) :
  v <> JNull -> match v with JNull => a | _ => b end = b.
Proof. destruct v; first [reflexivity | now intros H; contradiction H]. Qed.

(** The expiry test on a number: on its binary64 value. *)
Lemma expired_number (payload : json) (m e now : Z) :
  prop payload "exp" = Some (JNum m e) ->
  expired payload now =
    inr (negb (Binary64.is_zero (Binary64.nearest m e)) &&
         Binary64.below (Binary64.nearest m e) now).
Proof.
  intros H. unfold expired. rewrite H. cbn [truthy_value].
  now destruct (negb _).
Qed.

(** The expiry test on an object: a TypeError when it has a [toString]
    of its own, false otherwise. *)
Lemma expired_object (payload : json) (fields : list (jsstring * json)) (now : Z) :
  prop payload "exp" = Some (JObj fields) ->
  expired payload now =
    match obj_get fields (js "toString") with
    | Some _ => inl TypeError
    | None => inr false
    end.
Proof.
  intros H. unfold expired. rewrite H. cbn [truthy_value to_number to_string].
  destruct (obj_get fields (js "toString")); reflexivity.
Qed.

(** The expiry test throws nothing but a TypeError. *)
Lemma expired_error (payload : json) (now : Z) (e : Error) :
  expired payload now = inl e -> e = TypeError.
Proof.
  unfold expired. destruct (prop payload "exp") as [exp|]; [|discriminate].
  destruct (truthy_value exp); [|discriminate].
  destruct (to_number exp); cbn [or_throw bind]; [discriminate|]. now intros [= <-].
Qed.

Ltac listed :=
  let H := fresh in
  intros H; first [discriminate H | injection H as <-];
  cbn [In]; repeat (first [left; reflexivity | right]).

(** The errors of [verifyToken] under a key that imports. *)
Lemma verifyToken_errors (this : t) (token : jsstring) (nowMs : Z) (e : Error) :
  secret this <> [] ->
  verifyToken this token nowMs = inl e ->
  In e [InvalidJWTFormat; InvalidJWTSignature; JWTExpired;
        InvalidCharacterError; SyntaxError; TypeError].
Proof.
  intros Hsecret.
  assert (Hlen : length (split 46 token) <> 3%nat \/ length (split 46 token) = 3%nat) by lia.
  destruct Hlen as [Hlen|Hlen].
  { rewrite (verifyToken_format this token nowMs Hlen). listed. }
  destruct (three_parts token Hlen) as (h & p & s & Hs).
  rewrite (verifyToken_parts this token h p s nowMs Hsecret Hs).
  destruct (decodeBase64Url s) as [e1|signature] eqn:Es.
  { apply decodeBase64Url_error in Es. subst e1. listed. }
  case_bool_decide; [|listed].
  destruct (decodeBase64Url p) as [e1|text] eqn:Ep.
  { apply decodeBase64Url_error in Ep. subst e1. listed. }
  destruct (parse text) as [payload|]; [|listed].
  destruct payload; try listed;
    (destruct (expired _ _) as [error|[|]] eqn:Ex;
     [apply expired_error in Ex; subst error|..]); listed.
Qed.






End JWTFacts.

Module JWTClaims.
Import JSONText JSValue WebCrypto JWTManager TextSpec TokenSpec TokenSamples.
Import JSONFacts JWTFacts.




(** C2, counterexample.  A token of three parts whose third part is not
    base64 fails with the platform's InvalidCharacterError; a token
    signed with the secret whose payload is not JSON fails with a
    SyntaxError; and a token issued by the code with [exp = 0] is
    accepted long after the second 0. None of the three is a
    malformed-token, bad-signature or expired failure, and only the
    last is a success. *)
Lemma C2_counterexample :
  length (split 46 (js "a.b.c")) = 3%nat /\
  verifyToken manager (js "a.b.c") 0 = inl InvalidCharacterError /\
  verifyToken manager (token_or_empty (signed manager (js "hello"))) 0 = inl SyntaxError /\
  exists payload,
    verifyToken epoch_manager
      (access_of (generateTokens epoch_manager (Some (JStr admin)) None 1700000000000))
      1800000000000 = inr payload /\
    prop payload "exp" = Some (JInt 0).
Proof.
  split; [reflexivity|]. split; [vm_compute; reflexivity|].
  split; [vm_compute; reflexivity|].
  eexists. split; [vm_compute; reflexivity|].
  vm_compute. reflexivity.
Qed.

(** C2, as amended.  With a non-empty secret, a failure of
    [verifyToken] is one of six errors: the three of the class, and
    the platform's InvalidCharacterError (a part that is not base64),
    SyntaxError (a payload that is not JSON) and TypeError.  It fails
    with the malformed-token error exactly when the token does not
    split into three parts; with the bad-signature error exactly when
    it does, the third part decodes, and the bytes are not the HMAC of
    the first two parts; with the expired error exactly when the
    signature is the HMAC, the second part decodes to JSON other than
    null, and the expiry test [payload.exp && payload.exp < now] is
    true; it succeeds, returning the decoded payload, exactly when the
    same holds with the expiry test false; and it fails with a
    TypeError exactly when the signature is the HMAC and the payload
    is null or the expiry test throws.  The expiry test is false
    without an [exp]; for an integer [exp] below 2^53 it is
    [exp <> 0] and [exp < now]; for a number it is made on the
    binary64 value; for an object it throws when the object has a
    [toString] of its own and is false otherwise. *)
Theorem C2_verify_order (this : t) (token : jsstring) (nowMs : Z) :
  secret this <> [] ->
  (forall e, verifyToken this token nowMs = inl e ->
     In e [InvalidJWTFormat; InvalidJWTSignature; JWTExpired;
           InvalidCharacterError; SyntaxError; TypeError]) /\
  (verifyToken this token nowMs = inl InvalidJWTFormat <->
     length (split 46 token) <> 3%nat) /\
  (verifyToken this token nowMs = inl InvalidJWTSignature <->
     exists h p s signature,
       split 46 token = [h; p; s] /\
       decodeBase64Url s = inr signature /\
       signature <> signature_of this h p) /\
  (verifyToken this token nowMs = inl JWTExpired <->
     exists h p s payload,
       split 46 token = [h; p; s] /\
       decodeBase64Url s = inr (signature_of this h p) /\
       carried p = Some payload /\ payload <> JNull /\
       expired payload (seconds nowMs) = inr true) /\
  (forall payload,
     verifyToken this token nowMs = inr payload <->
     exists h p s,
       split 46 token = [h; p; s] /\
       decodeBase64Url s = inr (signature_of this h p) /\
       carried p = Some payload /\ payload <> JNull /\
       expired payload (seconds nowMs) = inr false) /\
  (verifyToken this token nowMs = inl TypeError <->
     exists h p s payload,
       split 46 token = [h; p; s] /\
       decodeBase64Url s = inr (signature_of this h p) /\
       carried p = Some payload /\
       (payload = JNull \/ expired payload (seconds nowMs) = inl TypeError)) /\
  (forall payload,
     prop payload "exp" = None -> expired payload (seconds nowMs) = inr false) /\
  (forall payload e,
     prop payload "exp" = Some (JInt e) -> safe e ->
     (expired payload (seconds nowMs) = inr true <->
      e <> 0%Z /\ (e < seconds nowMs)%Z)) /\
  (forall payload m e,
     prop payload "exp" = Some (JNum m e) ->
     expired payload (seconds nowMs) =
       inr (negb (Binary64.is_zero (Binary64.nearest m e)) &&
            Binary64.below (Binary64.nearest m e) (seconds nowMs))) /\
  (forall payload fields,
     prop payload "exp" = Some (JObj fields) ->
     expired payload (seconds nowMs) =
       match obj_get fields (js "toString") with
       | Some _ => inl TypeError
       | None => inr false
       end).
Proof.
  intros Hsecret.
  split; [intros e; now apply verifyToken_errors|].
  assert (Htest :
    (forall payload,
       prop payload "exp" = None -> expired payload (seconds nowMs) = inr false) /\
    (forall payload e,
       prop payload "exp" = Some (JInt e) -> safe e ->
       (expired payload (seconds nowMs) = inr true <->
        e <> 0%Z /\ (e < seconds nowMs)%Z)) /\
    (forall payload m e,
       prop payload "exp" = Some (JNum m e) ->
       expired payload (seconds nowMs) =
         inr (negb (Binary64.is_zero (Binary64.nearest m e)) &&
              Binary64.below (Binary64.nearest m e) (seconds nowMs))) /\
    (forall payload fields,
       prop payload "exp" = Some (JObj fields) ->
       expired payload (seconds nowMs) =
         match obj_get fields (js "toString") with
         | Some _ => inl TypeError
         | None => inr false
         end)).
  { split; [intros payload; apply expired_absent|].
    split; [intros payload e; apply expired_integer|].
    split; [intros payload m e; apply expired_number|].
    intros payload fields. apply expired_object. }
  assert (Hlen : length (split 46 token) <> 3%nat \/ length (split 46 token) = 3%nat) by lia.
  destruct Hlen as [Hlen|Hlen].
  - rewrite (verifyToken_format this token nowMs Hlen).
    split; [split; [intros _; exact Hlen | reflexivity]|].
    split; [split; [discriminate|]|].
    { intros (h & p & s & x & Hs & _). rewrite Hs in Hlen. now contradiction Hlen. }
    split; [split; [discriminate|]|].
    { intros (h & p & s & x & Hs & _). rewrite Hs in Hlen. now contradiction Hlen. }
    split; [intros payload; split; [discriminate|]|].
    { intros (h & p & s & Hs & _). rewrite Hs in Hlen. now contradiction Hlen. }
    split; [split; [discriminate|]|exact Htest].
    intros (h & p & s & x & Hs & _). rewrite Hs in Hlen. now contradiction Hlen.
  - destruct (three_parts token Hlen) as (h & p & s & Hs).
    rewrite (verifyToken_parts this token h p s nowMs Hsecret Hs).
    assert (Hparts : forall h1 p1 s1, split 46 token = [h1; p1; s1] ->
                       h1 = h /\ p1 = p /\ s1 = s).
    { intros h1 p1 s1 H1. rewrite Hs in H1. now injection H1 as -> -> ->. }
    split; [split; [|intros H; rewrite Hs in H; now contradiction H]|].
    { destruct (decodeBase64Url s) as [e|signature] eqn:Es.
      - apply decodeBase64Url_error in Es. now subst e.
      - case_bool_decide; [|discriminate].
        destruct (decodeBase64Url p) as [e|text] eqn:Ep.
        + apply decodeBase64Url_error in Ep. now subst e.
        + destruct (parse text) as [[| | | | | |]|]; try discriminate;
            (destruct (expired _ _) as [error|[|]] eqn:Ex;
             [apply expired_error in Ex; subst error|..]); discriminate. }
    destruct (decodeBase64Url s) as [e|signature] eqn:Es.
    { pose proof (decodeBase64Url_error _ _ Es) as ->.
      split; [split; [discriminate|]|].
      { intros (h1 & p1 & s1 & x & H1 & Hd & _).
        destruct (Hparts _ _ _ H1) as (-> & -> & ->). congruence. }
      split; [split; [discriminate|]|].
      { intros (h1 & p1 & s1 & x & H1 & Hd & _).
        destruct (Hparts _ _ _ H1) as (-> & -> & ->). congruence. }
      split; [intros payload; split; [discriminate|]|].
      { intros (h1 & p1 & s1 & H1 & Hd & _).
        destruct (Hparts _ _ _ H1) as (-> & -> & ->). congruence. }
      split; [split; [discriminate|]|exact Htest].
      intros (h1 & p1 & s1 & x & H1 & Hd & _).
      destruct (Hparts _ _ _ H1) as (-> & -> & ->). congruence. }
    case_bool_decide as Hsig.
    2:{ split; [split; [intros _; exists h, p, s, signature; auto|reflexivity]|].
        split; [split; [discriminate|]|].
        { intros (h1 & p1 & s1 & x & H1 & Hd & _).
          destruct (Hparts _ _ _ H1) as (-> & -> & ->). congruence. }
        split; [intros payload; split; [discriminate|]|].
        { intros (h1 & p1 & s1 & H1 & Hd & _).
          destruct (Hparts _ _ _ H1) as (-> & -> & ->). congruence. }
        split; [split; [discriminate|]|exact Htest].
        intros (h1 & p1 & s1 & x & H1 & Hd & _).
        destruct (Hparts _ _ _ H1) as (-> & -> & ->). congruence. }
    subst signature.
    assert (Hcarried : carried p =
              match decodeBase64Url p with inr text => parse text | inl _ => None end)
      by reflexivity.
    assert (Hsigned : forall P : Prop,
              (exists h1 p1 s1 signature,
                 split 46 token = [h1; p1; s1] /\
                 decodeBase64Url s1 = inr signature /\
                 signature <> signature_of this h1 p1) -> P).
    { intros P (h1 & p1 & s1 & x & H1 & Hd & Hne).
      destruct (Hparts _ _ _ H1) as (-> & -> & ->). congruence. }
    destruct (decodeBase64Url p) as [e|text] eqn:Ep.
    { pose proof (decodeBase64Url_error _ _ Ep) as ->.
      split; [split; [discriminate | apply Hsigned]|].
      split; [split; [discriminate|]|].
      { intros (h1 & p1 & s1 & x & H1 & _ & Hc & _).
        destruct (Hparts _ _ _ H1) as (-> & -> & ->). congruence. }
      split; [intros payload; split; [discriminate|]|].
      { intros (h1 & p1 & s1 & H1 & _ & Hc & _).
        destruct (Hparts _ _ _ H1) as (-> & -> & ->). congruence. }
      split; [split; [discriminate|]|exact Htest].
      intros (h1 & p1 & s1 & x & H1 & _ & Hc & _).
      destruct (Hparts _ _ _ H1) as (-> & -> & ->). congruence. }
    destruct (parse text) as [parsed|] eqn:Et.
    2:{ split; [split; [discriminate | apply Hsigned]|].
        split; [split; [discriminate|]|].
        { intros (h1 & p1 & s1 & x & H1 & _ & Hc & _).
          destruct (Hparts _ _ _ H1) as (-> & -> & ->). congruence. }
        split; [intros payload; split; [discriminate|]|].
        { intros (h1 & p1 & s1 & H1 & _ & Hc & _).
          destruct (Hparts _ _ _ H1) as (-> & -> & ->). congruence. }
        split; [split; [discriminate|]|exact Htest].
        intros (h1 & p1 & s1 & x & H1 & _ & Hc & _).
        destruct (Hparts _ _ _ H1) as (-> & -> & ->). congruence. }
    assert (Hnull : parsed = JNull \/ parsed <> JNull)
      by (destruct parsed; first [now left | right; discriminate]).
    destruct Hnull as [->|Hnull].
    { split; [split; [discriminate | apply Hsigned]|].
      split; [split; [discriminate|]|].
      { intros (h1 & p1 & s1 & x & H1 & _ & Hc & Hne & _).
        destruct (Hparts _ _ _ H1) as (-> & -> & ->). congruence. }
      split; [intros payload; split; [discriminate|]|].
      { intros (h1 & p1 & s1 & H1 & _ & Hc & Hne & _).
        destruct (Hparts _ _ _ H1) as (-> & -> & ->). congruence. }
      split; [split; [|reflexivity]|exact Htest].
      intros _. exists h, p, s, JNull. auto. }
    rewrite (not_null parsed _ _ Hnull).
    destruct (expired parsed (seconds nowMs)) as [error|late] eqn:Ex.
    { pose proof (expired_error _ _ _ Ex) as ->.
      split; [split; [discriminate | apply Hsigned]|].
      split; [split; [discriminate|]|].
      { intros (h1 & p1 & s1 & x & H1 & _ & Hc & Hne & Hx).
        destruct (Hparts _ _ _ H1) as (-> & -> & ->). congruence. }
      split; [intros payload; split; [discriminate|]|].
      { intros (h1 & p1 & s1 & H1 & _ & Hc & Hne & Hx).
        destruct (Hparts _ _ _ H1) as (-> & -> & ->). congruence. }
      split; [split; [|reflexivity]|exact Htest].
      intros _. exists h, p, s, parsed. repeat (split; [congruence|]). now right. }
    destruct late.
    + split; [split; [discriminate | apply Hsigned]|].
      split; [split; [|reflexivity]|].
      { intros _. exists h, p, s, parsed. repeat (split; [congruence|]). exact Ex. }
      split; [intros payload; split; [discriminate|]|].
      { intros (h1 & p1 & s1 & H1 & _ & Hc & Hne & Hx).
        destruct (Hparts _ _ _ H1) as (-> & -> & ->). congruence. }
      split; [split; [discriminate|]|exact Htest].
      intros (h1 & p1 & s1 & x & H1 & _ & Hc & [Hx|Hx]);
        destruct (Hparts _ _ _ H1) as (-> & -> & ->); congruence.
    + split; [split; [discriminate | apply Hsigned]|].
      split; [split; [discriminate|]|].
      { intros (h1 & p1 & s1 & x & H1 & _ & Hc & Hne & Hx).
        destruct (Hparts _ _ _ H1) as (-> & -> & ->). congruence. }
      split; [intros payload; split|].
      { intros [= <-]. exists h, p, s. repeat (split; [congruence|]). exact Ex. }
      { intros (h1 & p1 & s1 & H1 & _ & Hc & Hne & Hx).
        destruct (Hparts _ _ _ H1) as (-> & -> & ->). congruence. }
      split; [split; [discriminate|]|exact Htest].
      intros (h1 & p1 & s1 & x & H1 & _ & Hc & [Hx|Hx]);
        destruct (Hparts _ _ _ H1) as (-> & -> & ->); congruence.
Qed.

Lemma C2_verify_order_witness :
  verifyToken manager (js "a.b") 0 = inl InvalidJWTFormat /\
  ((exists h p s signature,
      split 46 (js "a.b.c") = [h; p; s] /\
      decodeBase64Url s = inr signature /\
      signature <> signature_of manager h p) -> False).
Proof.
  split.
  - apply (C2_verify_order manager (js "a.b") 0); [discriminate|].
    vm_compute. discriminate.
  - intros H. apply (C2_verify_order manager (js "a.b.c") 0) in H; [|discriminate].
    vm_compute in H. discriminate.
Defined.




End JWTClaims.

(* ------------------------------------------------------------------ *)
(** *** Authentication gateway                                         *)
(* ------------------------------------------------------------------ *)

Module AuthFacts.
Import JSONText JSValue JWTManager Auth.

Lemma validatePassword_unset (request : Request) (env : Env) :
  otruthy (ADMIN_PASSWORD env) = false -> validatePassword request env = false.
Proof.
  unfold validatePassword. destruct (ADMIN_PASSWORD env) as [p|]; [|reflexivity].
  cbn [otruthy]. now intros ->.
Qed.

Lemma jwt_accepted_unset (request : Request) (env : Env) (nowMs : Z) :
  otruthy (JWT_SECRET env) = false -> jwt_accepted request env nowMs = false.
Proof.
  intros H. unfold jwt_accepted, validateJWT_for. rewrite H. cbn [negb].
  destruct (headers_get _ _) as [a|]; [|reflexivity].
  now destruct (startsWith _ _).
Qed.

Lemma checkCookieAuth_unbound (request : Request) (env : Env) :
  SESSIONS env = None -> checkCookieAuth request env = false.
Proof. intros H. unfold checkCookieAuth. now rewrite H. Qed.

End AuthFacts.

Module AuthClaims.
Import JSONText JSValue JWTManager Auth TokenSamples AuthFacts.

(** C9, counterexample.  With no admin password configured, a request
    whose cookie names a stored admin session, and a request bearing
    an access token signed with the JWT secret, are both let through:
    the gateway answers neither 500 nor 401. *)
Lemma C9_counterexample :
  otruthy (ADMIN_PASSWORD env_with_session) = false /\
  requireAuth request_with_session env_with_session 0 = None /\
  otruthy (ADMIN_PASSWORD env_with_jwt) = false /\
  requireAuth request_with_bearer env_with_jwt 1700000001000 = None.
Proof.
  split; [reflexivity|]. split; [vm_compute; reflexivity|].
  split; [reflexivity|]. vm_compute. reflexivity.
Qed.

(** C9, as amended.  When no admin password is configured, the gateway
    lets through the requests that a JWT or a cookie session
    authenticates, and answers every other request with the
    misconfiguration response, of status 500, never with the 401 of a
    failed authentication; when neither a JWT secret nor a session
    store is configured either, it answers every request with it. *)
Theorem C9_missing_password (request : Request) (env : Env) (nowMs : Z) :
  otruthy (ADMIN_PASSWORD env) = false ->
  requireAuth request env nowMs =
    (if jwt_accepted request env nowMs || checkCookieAuth request env
     then None else Some misconfigured) /\
  (forall response, requireAuth request env nowMs = Some response ->
     status response = 500%Z /\ response <> authentication_required) /\
  (otruthy (JWT_SECRET env) = false -> SESSIONS env = None ->
     requireAuth request env nowMs = Some misconfigured).
Proof.
  intros H.
  assert (Hr : requireAuth request env nowMs =
                 if jwt_accepted request env nowMs || checkCookieAuth request env
                 then None else Some misconfigured).
  { unfold requireAuth. rewrite (validatePassword_unset request env H), H.
    destruct (jwt_accepted _ _ _), (checkCookieAuth _ _); reflexivity. }
  split; [exact Hr|]. split.
  - intros response. rewrite Hr.
    destruct (_ || _); [discriminate|]. intros [= <-].
    split; [reflexivity | discriminate].
  - intros Hj Hs. rewrite Hr, (jwt_accepted_unset request env nowMs Hj),
      (checkCookieAuth_unbound request env Hs). reflexivity.
Qed.

Lemma C9_missing_password_witness :
  requireAuth request_without_credentials env_with_jwt 0 = Some misconfigured.
Proof.
  destruct (C9_missing_password request_without_credentials env_with_jwt 0) as [H _].
  - reflexivity.
  - rewrite H. reflexivity.
Defined.

End AuthClaims.

(* ================================================================== *)
(** ** Further properties of the gateway, the tokens and the routes    *)
(* ================================================================== *)

Module AuthExtraFacts.
Import JSONText JSValue JWTManager Auth CsrfFacts.

Lemma fold_lor_zero (l : list (N * N)) : forall acc : N,
  fold_left (fun result p => N.lor result (N.lxor (fst p) (snd p))) l acc = 0 <->
  acc = 0 /\ Forall (fun p => fst p = snd p) l.
Proof.
  induction l as [|[x y] l IH]; intros acc; cbn [fold_left].
  - split; [intros ->; split; [reflexivity|constructor] | now intros [-> _]].
  - rewrite IH, N.lor_eq_0_iff, N.lxor_eq_0_iff. cbn [fst snd]. split.
    + intros [[-> ->] H]. split; [reflexivity|]. now constructor.
    + intros [-> H]. inversion H; subst. cbn [fst snd] in *. now subst.
Qed.

Lemma combine_equal (a : jsstring) : forall b : jsstring,
  length a = length b ->
  Forall (fun p : N * N => fst p = snd p) (combine a b) -> a = b.
Proof.
  induction a as [|x a IH]; intros [|y b] Hlen H; try discriminate; [reflexivity|].
  cbn [combine] in H. inversion H; subst. cbn [fst snd] in *. subst.
  f_equal. apply IH; [now injection Hlen | assumption].
Qed.

Lemma combine_same (a : jsstring) :
  Forall (fun p : N * N => fst p = snd p) (combine a a).
Proof. induction a; cbn [combine]; constructor; auto. Qed.

Lemma startsWith_app (p s : jsstring) : startsWith (p ++ s) p = true.
Proof. induction p as [|c p IH]; [now destruct s|]. cbn. now rewrite N.eqb_refl. Qed.

Lemma startsWith_prefix (p : jsstring) : forall s : jsstring,
  startsWith s p = true -> s = p ++ skipn (length p) s.
Proof.
  induction p as [|c p IH]; intros s H; [reflexivity|].
  destruct s as [|d s]; [discriminate|]. cbn in H.
  apply andb_true_iff in H as [Hc Hs]. apply N.eqb_eq in Hc. subst d.
  cbn [length skipn app]. f_equal. now apply IH.
Qed.

Lemma skipn_app_length {A} (p s : list A) : skipn (length p) (p ++ s) = s.
Proof. induction p; [reflexivity|]. assumption. Qed.

Lemma fold_equal_iff (a b : jsstring) : constantTimeEquals a b = true <-> a = b.
Proof.
  unfold constantTimeEquals. split.
  - destruct (Nat.eqb_spec (length a) (length b)) as [Hlen|Hlen]; [|discriminate].
    cbn [negb]. intros H. apply N.eqb_eq in H. apply fold_lor_zero in H as [_ H].
    now apply combine_equal.
  - intros <-. rewrite Nat.eqb_refl. cbn [negb]. apply N.eqb_eq.
    apply fold_lor_zero. split; [reflexivity | apply combine_same].
Qed.

Lemma fold_equal (a b : jsstring) : constantTimeEquals a b = true -> a = b.
Proof. apply fold_equal_iff. Qed.

End AuthExtraFacts.

Module PasswordFacts.
Import JSONText JSValue JWTManager Auth CsrfFacts AuthExtraFacts.

(** The credential [validatePassword] reads from the headers. *)
Lemma validatePassword_iff (request : Request) (env : Env) :
  validatePassword request env = true <->
  exists p,
    ADMIN_PASSWORD env = Some p /\ p <> [] /\
    (headers_get (headers request) (js "Authorization") = Some (js "Bearer " ++ p) \/
     (headers_get (headers request) (js "Authorization") = Some p /\
      startsWith p (js "Bearer ") = false) \/
     (otruthy (headers_get (headers request) (js "Authorization")) = false /\
      headers_get (headers request) (js "X-Admin-API-Key") = Some p)).
Proof.
  unfold validatePassword.
  destruct (ADMIN_PASSWORD env) as [pw|]; [|split; [discriminate | now intros (p & H & _)]].
  destruct pw as [|c pw]; [split; [discriminate | intros (p & [= <-] & H & _); now contradiction H]|].
  cbn [truthy negb].
  set (A := headers_get (headers request) (js "Authorization")).
  set (K := headers_get (headers request) (js "X-Admin-API-Key")).
  split.
  - intros H. exists (c :: pw). split; [reflexivity|]. split; [discriminate|].
    destruct A as [a|].
    + destruct (startsWith a (js "Bearer ")) eqn:Hb.
      * destruct (substring_from 7 a) as [|x q] eqn:Hq; [discriminate|].
        cbn [truthy] in H. apply fold_equal_iff in H.
        left. f_equal. rewrite (startsWith_prefix _ _ Hb).
        change (length (js "Bearer ")) with 7%nat.
        unfold substring_from in Hq. now rewrite Hq, H.
      * destruct a as [|x a].
        { cbn [truthy] in H. right. right. split; [reflexivity|].
          destruct K as [[|y k]|]; try discriminate.
          cbn [otruthy truthy] in H. apply fold_equal_iff in H. now rewrite H. }
        cbn [truthy] in H. apply fold_equal_iff in H.
        right. left. rewrite <- H. now split.
    + right. right. split; [reflexivity|].
      destruct K as [[|y k]|]; try discriminate.
      cbn [otruthy truthy] in H. apply fold_equal_iff in H. now rewrite H.
  - intros (p & [= <-] & _ & [H|[[H Hb]|[Ha H]]]).
    + rewrite H. rewrite startsWith_app. unfold substring_from.
      change 7%nat with (length (js "Bearer ")). rewrite skipn_app_length.
      cbn [truthy]. now apply fold_equal_iff.
    + rewrite H, Hb. cbn [truthy]. now apply fold_equal_iff.
    + rewrite H. destruct A as [[|x a]|]; try discriminate;
        cbn [startsWith js truthy otruthy]; now apply fold_equal_iff.
Qed.

End PasswordFacts.

Module GatewayFacts.
Import JSONText JSValue JWTManager Auth AuthRateLimiter RateLimiterFacts CsrfFacts.
Import AuthSpec AuthExtraFacts.

Lemma split_pieces (P : N -> Prop) (c : N) (s : jsstring) :
  Forall P s -> Forall (Forall P) (split c s).
Proof.
  induction s as [|d s IH]; intros H; cbn [split].
  - repeat constructor.
  - inversion H as [|? ? Hd Hs]; subst. specialize (IH Hs).
    destruct (d =? c).
    + constructor; [constructor | exact IH].
    + destruct (split c s) as [|p ps]; [repeat constructor; exact Hd|].
      inversion IH; subst. constructor; [now constructor | assumption].
Qed.

Lemma split_no_separator (c : N) (s : jsstring) :
  Forall (Forall (fun x => x <> c)) (split c s).
Proof.
  induction s as [|d s IH]; cbn [split].
  - repeat constructor.
  - destruct (N.eqb_spec d c) as [->|Hne].
    + constructor; [constructor | exact IH].
    + destruct (split c s) as [|p ps]; [repeat constructor; exact Hne|].
      inversion IH; subst. constructor; [now constructor | assumption].
Qed.

Lemma trimStart_Forall (P : N -> Prop) (s : jsstring) :
  Forall P s -> Forall P (trimStart s).
Proof.
  induction s as [|c s IH]; intros H; [constructor|]. cbn [trimStart].
  destruct (is_space c); [apply IH; now inversion H | exact H].
Qed.

Lemma trim_Forall (P : N -> Prop) (s : jsstring) : Forall P s -> Forall P (trim s).
Proof.
  intros H. unfold trim, trimEnd.
  apply Forall_rev, trimStart_Forall, Forall_rev, trimStart_Forall, H.
Qed.

Lemma cookie_value_chars (name : jsstring) (cookies : list jsstring) (v : jsstring) :
  Forall (Forall (fun x => x <> 59)) cookies ->
  cookie_value cookies name = Some v -> Forall cookie_char v.
Proof.
  induction cookies as [|cookie rest IH]; intros Hall; [discriminate|].
  inversion Hall as [|? ? Hc Hrest]; subst. cbn [cookie_value].
  pose proof (split_pieces _ 61 _ (trim_Forall _ _ Hc)) as H59.
  pose proof (split_no_separator 61 (trim cookie)) as H61.
  destruct (split 61 (trim cookie)) as [|key values]; [now apply IH|].
  destruct (str_eqb key name); [|now apply IH].
  destruct values as [|value more]; [discriminate|]. cbn [List.head].
  intros [= <-].
  inversion H59 as [|? ? _ H59v]; subst. inversion H59v as [|? ? Ha _]; subst.
  inversion H61 as [|? ? _ H61v]; subst. inversion H61v as [|? ? Hb _]; subst.
  apply List.Forall_forall. intros x Hx. split.
  - exact (proj1 (List.Forall_forall _ _) Ha x Hx).
  - exact (proj1 (List.Forall_forall _ _) Hb x Hx).
Qed.

Lemma split_first (c : N) (a rest : jsstring) :
  Forall (fun x => x <> c) a ->
  split c (a ++ c :: rest) = a :: split c rest.
Proof.
  induction a as [|d a IH]; intros H; cbn [app split].
  - now rewrite N.eqb_refl.
  - inversion H; subst. destruct (N.eqb_spec d c); [contradiction|].
    now rewrite IH.
Qed.

Lemma split_last (c : N) (a : jsstring) :
  Forall (fun x => x <> c) a -> split c a = [a].
Proof.
  induction a as [|d a IH]; intros H; cbn [split]; [reflexivity|].
  inversion H; subst. destruct (N.eqb_spec d c); [contradiction|].
  now rewrite IH.
Qed.

Lemma trimStart_length (s : jsstring) : (length (trimStart s) <= length s)%nat.
Proof.
  induction s as [|c s IH]; [reflexivity|]. cbn [trimStart].
  destruct (is_space c); cbn [length]; lia.
Qed.

Lemma trimStart_id (s : jsstring) :
  match s with c :: _ => is_space c = false | [] => True end -> trimStart s = s.
Proof. destruct s as [|c s]; [reflexivity|]. cbn [trimStart]. now intros ->. Qed.

Lemma trimStart_app (a b : jsstring) :
  a <> [] -> trimStart a = a -> trimStart (a ++ b) = a ++ b.
Proof.
  destruct a as [|c a]; [contradiction|]. intros _. cbn [trimStart app].
  destruct (is_space c); [|reflexivity].
  intros H. apply (f_equal (@length N)) in H. cbn [length] in H.
  pose proof (trimStart_length a). lia.
Qed.

Lemma trim_pair (name value : jsstring) :
  name <> [] -> trimStart name = name -> trimEnd value = value ->
  trim (name ++ js "=" ++ value) = name ++ js "=" ++ value.
Proof.
  intros Hne Hs He. unfold trim. rewrite (trimStart_app _ _ Hne Hs).
  unfold trimEnd in *. change (js "=") with [61]. cbn [app].
  apply (f_equal (@rev N)) in He. rewrite rev_involutive in He.
  assert (Hv : trimStart (rev value ++ [61]) = rev value ++ [61]).
  { destruct value as [|v value]; [reflexivity|].
    apply trimStart_app; [|exact He].
    intros H. apply (f_equal (@length N)) in H. rewrite length_rev in H. discriminate. }
  replace (rev (name ++ 61 :: value)) with ((rev value ++ [61]) ++ rev name)
    by (rewrite rev_app_distr; reflexivity).
  rewrite trimStart_app; [| |exact Hv].
  - rewrite rev_app_distr, rev_involutive, rev_app_distr, rev_involutive. reflexivity.
  - intros H. apply (f_equal (@length N)) in H. rewrite length_app in H.
    cbn [length] in H. lia.
Qed.

Lemma or_else_twice (x : option jsstring) (d : jsstring) :
  or_else (Some (or_else x d)) d = or_else x d.
Proof.
  destruct x as [[|c s]|]; cbn [or_else truthy]; try reflexivity;
    now destruct d.
Qed.

Lemma fromEnv_manager (env : Env) (s : jsstring) :
  JWT_SECRET env = Some s -> s <> [] -> fromEnv env = inr (manager_of env s).
Proof.
  intros H Hs. unfold fromEnv. rewrite H.
  destruct s as [|c s]; [contradiction|]. cbn [truthy].
  unfold new, manager_of. cbn [option_map TokenConfig.accessTokenExpiry
    TokenConfig.refreshTokenExpiry]. now rewrite !or_else_twice.
Qed.

End GatewayFacts.

Module GatewayFacts2.
Import JSONText JSValue JWTManager Auth AuthRateLimiter RateLimiterFacts CsrfFacts.
Import TextSpec TokenSpec AuthSpec AuthExtraFacts GatewayFacts JWTFacts.

(** A cookie value read by [getCookieValue] holds no [;] and no [=]. *)
Lemma cookie_chars (cookieHeader : option jsstring) (name v : jsstring) :
  getCookieValue cookieHeader name = Some v -> Forall cookie_char v.
Proof.
  unfold getCookieValue. destruct cookieHeader as [h|]; [|discriminate].
  destruct (truthy h); [|discriminate].
  apply cookie_value_chars, split_no_separator.
Qed.

(** The first cookie of a header is found under its name. *)
Lemma getCookieValue_pair (name value rest : jsstring) :
  name <> [] -> Forall cookie_char name -> Forall cookie_char value ->
  trimStart name = name -> trimEnd value = value ->
  getCookieValue (Some (name ++ js "=" ++ value)) name = Some value /\
  getCookieValue (Some (name ++ js "=" ++ value ++ js ";" ++ rest)) name = Some value.
Proof.
  intros Hne Hname Hvalue Hstart Hend.
  assert (Hcookie : cookie_value [name ++ js "=" ++ value] name = Some value
                    /\ forall more, cookie_value ((name ++ js "=" ++ value) :: more) name
                                     = Some value).
  { assert (H : forall more, cookie_value ((name ++ js "=" ++ value) :: more) name
                             = Some value); [|split; [apply H | exact H]].
    intros more. cbn [cookie_value]. rewrite (trim_pair name value Hne Hstart Hend).
    change (js "=") with [61]. cbn [app].
    rewrite split_first by (eapply Forall_impl; [exact Hname | now intros x [_ H]]).
    rewrite split_last by (eapply Forall_impl; [exact Hvalue | now intros x [_ H]]).
    unfold str_eqb. rewrite bool_decide_eq_true_2 by reflexivity. reflexivity. }
  assert (H59 : Forall (fun x => x <> 59) (name ++ js "=" ++ value)).
  { apply Forall_app. split; [eapply Forall_impl; [exact Hname | now intros x [H _]]|].
    apply Forall_app. split; [repeat constructor; discriminate|].
    eapply Forall_impl; [exact Hvalue | now intros x [H _]]. }
  unfold getCookieValue.
  assert (Ht : forall more, truthy (name ++ more) = true)
    by (intros more; destruct name; [contradiction | reflexivity]).
  rewrite !Ht. split.
  - rewrite split_last by exact H59. apply Hcookie.
  - change (js ";") with [59]. cbn [app].
    replace (name ++ js "=" ++ value ++ 59 :: rest)
      with ((name ++ js "=" ++ value) ++ 59 :: rest) by now rewrite <- !app_assoc.
    rewrite split_first by exact H59. apply Hcookie.
Qed.

(** Who is locked out stays locked out whatever the request carries;
    a success clears the client's record; no call touches the record of
    another client. *)
Lemma rate_limit_records (request : Request) (env : Env)
    (nowMs : Z) (limiter : AuthRateLimiter.t) :
  (forall r, limiter !! clientIP request = Some r ->
     (nowMs - lastAttempt r <= windowMs)%Z -> (maxAttempts <= count r)%Z ->
     requireAdminAuthWithRateLimit request env nowMs limiter =
       (Some too_many_attempts,
        <[clientIP request := mkRecord (count r + 1) nowMs]> limiter)) /\
  (fst (requireAdminAuthWithRateLimit request env nowMs limiter) = None ->
     snd (requireAdminAuthWithRateLimit request env nowMs limiter)
       !! clientIP request = None) /\
  (forall response,
     fst (requireAdminAuthWithRateLimit request env nowMs limiter) = Some response ->
     exists c, snd (requireAdminAuthWithRateLimit request env nowMs limiter)
                 !! clientIP request = Some (mkRecord c nowMs)) /\
  (forall ip, ip <> clientIP request ->
     snd (requireAdminAuthWithRateLimit request env nowMs limiter) !! ip = limiter !! ip).
Proof.
  unfold requireAdminAuthWithRateLimit. fold (clientIP request).
  split; [|split; [|split]].
  - intros r Hr Hw Hc. rewrite (isRateLimited_count _ _ _ _ Hr Hw).
    destruct (Z.gtb_spec (count r + 1) maxAttempts); [reflexivity|lia].
  - pose proof (isRateLimited_stamp (clientIP request) nowMs limiter) as [c Hc].
    destruct (isRateLimited (clientIP request) nowMs limiter) as [limited l].
    destruct limited; [discriminate|].
    destruct (requireAuth request env nowMs); [discriminate|].
    intros _. cbn [snd]. unfold reset. apply lookup_delete_eq.
  - intros response.
    pose proof (isRateLimited_stamp (clientIP request) nowMs limiter) as [c Hc].
    destruct (isRateLimited (clientIP request) nowMs limiter) as [limited l].
    cbn [snd] in Hc.
    destruct limited; [intros _; now exists c|].
    destruct (requireAuth request env nowMs); [|discriminate].
    intros _. now exists c.
  - intros ip Hne.
    pose proof (isRateLimited_other (clientIP request) ip nowMs limiter (not_eq_sym Hne)) as Ho.
    destruct (isRateLimited (clientIP request) nowMs limiter) as [limited l].
    cbn [snd] in Ho.
    destruct limited; [exact Ho|].
    destruct (requireAuth request env nowMs); cbn [snd]; [exact Ho|].
    unfold reset. now rewrite lookup_delete_ne by (now apply not_eq_sym).
Qed.

End GatewayFacts2.

Module TokenExtraFacts.
Import Regex JSONText JSValue Base64 WebCrypto JWTManager TextSpec TokenSpec TokenShape.
Import Base64Facts JSONFacts JWTFacts.

Lemma url_char_safe (i : N) : sextet i -> url_safe (url_char i).
Proof.
  intros Hi.
  assert (H : forallb (fun i => let c := url_char i in
                         is_upper c || is_lower c || is_digit c || (c =? 45) || (c =? 95))
                      (List.map N.of_nat (seq 0 64)) = true) by (vm_compute; reflexivity).
  rewrite forallb_forall in H. apply (H i).
  apply in_map_iff. exists (N.to_nat i). split; [apply N2Nat.id|].
  apply in_seq. unfold sextet in Hi. lia.
Qed.

Lemma encoded_safe (s : jsstring) : latin1 s -> Forall url_safe (encoded s).
Proof.
  intros H. unfold encoded. apply Forall_map.
  eapply Forall_impl; [apply sextets_range; exact H|]. exact url_char_safe.
Qed.

Lemma latin1_forallb (s : jsstring) :
  forallb (fun c => c <=? 255) s = true <-> latin1 s.
Proof.
  unfold latin1. rewrite forallb_forall, List.Forall_forall.
  split; intros H c Hc; specialize (H c Hc).
  - apply N.leb_le in H. lia.
  - apply N.leb_le. lia.
Qed.

(** [btoa] decides whether the encoding succeeds. *)
Lemma encodeBase64Url_inr (s e : jsstring) :
  encodeBase64Url s = inr e -> latin1 s /\ e = encoded s.
Proof.
  intros H.
  assert (Hl : latin1 s).
  { apply latin1_forallb. unfold encodeBase64Url, btoa in H.
    destruct (forallb _ s); [reflexivity | discriminate]. }
  split; [exact Hl|]. rewrite encodeBase64Url_bytes in H by exact Hl.
  now injection H as <-.
Qed.

Lemma encodeBase64Url_inl (s : jsstring) :
  ~ latin1 s -> encodeBase64Url s = inl InvalidCharacterError.
Proof.
  intros H. unfold encodeBase64Url, btoa.
  destruct (forallb _ s) eqn:E; [|reflexivity].
  now apply latin1_forallb in E.
Qed.

Lemma safe_no_dot (s : jsstring) : Forall url_safe s -> Forall (fun c => c <> 46) s.
Proof.
  intros H. eapply Forall_impl; [exact H|]. intros c Hc ->. discriminate Hc.
Qed.

Lemma createJWT_parts (this : t) (payload : list (jsstring * option json))
    (expiry : option Z) (nowMs : Z) (token : jsstring) :
  createJWT this payload expiry nowMs = inr token -> compact token.
Proof.
  unfold createJWT. cbv zeta.
  destruct (encodeBase64Url (stringify header)) as [|h] eqn:Eh; [discriminate|].
  cbn [bind].
  match goal with
  | |- context [encodeBase64Url (stringify (JObj ?f))] =>
      destruct (encodeBase64Url (stringify (JObj f))) as [|p] eqn:Ep
  end; [discriminate|].
  cbn [bind].
  destruct (importKey (secret this)) as [key|]; cbn [or_throw bind]; [|discriminate].
  destruct (encodeBase64Url (sign key _)) as [|s] eqn:Es; [discriminate|].
  cbn [bind]. intros [= <-].
  apply encodeBase64Url_inr in Eh as [Hh Eh].
  apply encodeBase64Url_inr in Ep as [Hp Ep].
  apply encodeBase64Url_inr in Es as [Hs Es].
  assert (Sh : Forall url_safe h) by (rewrite Eh; now apply encoded_safe).
  assert (Sp : Forall url_safe p) by (rewrite Ep; now apply encoded_safe).
  assert (Ss : Forall url_safe s) by (rewrite Es; now apply encoded_safe).
  exists h, p, s. split; [|now repeat split].
  apply split_token; now apply safe_no_dot.
Qed.

Lemma dec_value (ds : jsstring) : forall acc : N,
  Forall digit ds ->
  Num.digits_value 10 Num.dec_digit ds (Some (Z.of_N acc)) = Some (Z.of_N (dval ds acc)).
Proof.
  induction ds as [|c ds IH]; intros acc H; [reflexivity|].
  inversion H as [|? ? Hc Hds]; subst. cbn [Num.digits_value].
  unfold Num.dec_digit. rewrite (proj1 (digit_is_digit c) Hc).
  change (default 0%Z (Some (Z.of_N acc))) with (Z.of_N acc).
  unfold dval. cbn [fold_left]. fold (dval ds (10 * acc + (c - 48))).
  rewrite <- IH by exact Hds. f_equal. f_equal.
  unfold digit in Hc. lia.
Qed.

Lemma parseInt_digits (n : N) : Num.parseInt (digits n) = Num.round (Z.of_N n).
Proof.
  pose proof (digits_digits n) as Hd. pose proof (digits_value n) as Hv.
  destruct (digits n) as [|c ds] eqn:E.
  { cbn in Hv. subst n. discriminate E. }
  inversion_clear Hd as [|? ? Hc Hds].
  assert (Hsp : is_space c = false) by (unfold digit in Hc; unfold is_space;
    repeat (apply orb_false_intro); try (apply andb_false_iff; left; apply N.leb_gt; lia);
    try (apply N.eqb_neq; lia); apply andb_false_iff; right; apply N.leb_gt; lia).
  unfold Num.parseInt. cbn [trimStart]. rewrite Hsp.
  assert (H45 : c <> 45) by (unfold digit in Hc; lia).
  assert (H43 : c <> 43) by (unfold digit in Hc; lia).
  assert (Hbody : match Num.digits_value 10 Num.dec_digit (c :: ds) None with
                  | Some z => Num.round (1 * z)
                  | None => Num.NaN
                  end = Num.round (Z.of_N n)).
  { cbn [Num.digits_value]. unfold Num.dec_digit.
    rewrite (proj1 (digit_is_digit c) Hc).
    change (10 * default 0 None + Z.of_N (c - 48))%Z with (Z.of_N (c - 48)).
    rewrite dec_value by exact Hds. f_equal.
    unfold dval in Hv. cbn [fold_left] in Hv. unfold dval.
    change (10 * 0 + (c - 48)) with (c - 48) in Hv. rewrite Hv. lia. }
  destruct (N.eqb_spec c 48) as [->|H48].
  - (* "0": the only decimal text that begins with a zero *)
    destruct (N.eq_dec n 0) as [->|Hn].
    + rewrite digits_zero in E. injection E as <-. reflexivity.
    + destruct (digits_head n) as (d & more & Hdm & Hd0); [lia|].
      rewrite E in Hdm. injection Hdm as <- <-. contradiction.
  - destruct c as [|c]; [exact Hbody|].
    repeat (destruct c as [c|c|]; try exact Hbody; try contradiction).
Qed.

(** Products below 2^53 are exact. *)
Lemma mul_safe (z k : Z) :
  (Z.abs (z * k) < 2 ^ 53)%Z -> Num.mul (Num.Integer z) k = Num.Integer (z * k).
Proof. intros H. cbn [Num.mul]. now apply Binary64Facts.round_safe. Qed.

End TokenExtraFacts.

Module TokenFacts2.
Import Regex JSONText JSValue Base64 WebCrypto JWTManager Auth.
Import TextSpec TokenSpec TokenShape AuthSpec TokenSamples.
Import Base64Facts JSONFacts JWTFacts TokenExtraFacts GatewayFacts AuthExtraFacts.

(** [parseExpiry] on a decimal count followed by a unit, the seconds
    staying below 2^53; on a unit alone; and on a text that ends in
    no unit. *)
Lemma parseExpiry_cases (n u : N) (body : jsstring) :
  (forall k, unit_seconds u = Some k -> (Z.of_N n * k < 2 ^ 53)%Z ->
     parseExpiry (digits n ++ [u]) = Some (Z.of_N n * k)%Z) /\
  (forall k, unit_seconds u = Some k -> parseExpiry [u] = None) /\
  (unit_seconds u = None -> parseExpiry (body ++ [u]) = Some 3600%Z) /\
  parseExpiry [] = Some 3600%Z.
Proof.
  assert (Hlast : forall b, rev (b ++ [u]) = u :: rev b)
    by (intros b; now rewrite rev_app_distr).
  assert (Hbody : forall b, removelast (b ++ [u]) = b)
    by (intros b; now rewrite removelast_last).
  assert (Hexact : forall z k, (0 <= z)%Z -> (0 < k)%Z -> (z * k < 2 ^ 53)%Z ->
            Num.mul (Num.Integer z) k = Num.Integer (z * k)).
  { intros z k Hz Hk Hlt. apply mul_safe. rewrite Z.abs_eq; [exact Hlt|].
    apply Z.mul_nonneg_nonneg; lia. }
  split; [|split; [|split; [|reflexivity]]].
  - intros k Hk Hlt. unfold parseExpiry.
    rewrite !Hlast, !Hbody, parseInt_digits.
    assert (Hn : (0 <= Z.of_N n)%Z) by lia.
    unfold unit_seconds in Hk. unfold str_eqb.
    change (js "s") with [115]. change (js "m") with [109].
    change (js "h") with [104]. change (js "d") with [100].
    destruct (N.eqb_spec u 115) as [->|H1].
    { injection Hk as <-. rewrite bool_decide_eq_true_2 by reflexivity.
      rewrite Binary64Facts.round_safe by lia. cbn [Num.finite]. f_equal. lia. }
    rewrite (bool_decide_eq_false_2 ([u] = [115])) by congruence.
    destruct (N.eqb_spec u 109) as [->|H2].
    { injection Hk as <-. rewrite bool_decide_eq_true_2 by reflexivity.
      rewrite Binary64Facts.round_safe by lia.
      rewrite Hexact by lia. reflexivity. }
    rewrite (bool_decide_eq_false_2 ([u] = [109])) by congruence.
    destruct (N.eqb_spec u 104) as [->|H3].
    { injection Hk as <-. rewrite bool_decide_eq_true_2 by reflexivity.
      rewrite Binary64Facts.round_safe by lia.
      rewrite !Hexact by lia. cbn [Num.finite]. f_equal. lia. }
    rewrite (bool_decide_eq_false_2 ([u] = [104])) by congruence.
    destruct (N.eqb_spec u 100) as [->|H4]; [|discriminate].
    injection Hk as <-. rewrite bool_decide_eq_true_2 by reflexivity.
    rewrite Binary64Facts.round_safe by lia.
    rewrite !Hexact by lia. cbn [Num.finite]. f_equal. lia.
  - intros k Hk. unfold unit_seconds in Hk.
    destruct (N.eqb_spec u 115) as [->|H1]; [reflexivity|].
    destruct (N.eqb_spec u 109) as [->|H2]; [reflexivity|].
    destruct (N.eqb_spec u 104) as [->|H3]; [reflexivity|].
    destruct (N.eqb_spec u 100) as [->|H4]; [reflexivity|discriminate].
  - intros Hk. unfold parseExpiry. rewrite Hlast, Hbody.
    unfold unit_seconds in Hk. unfold str_eqb.
    change (js "s") with [115]. change (js "m") with [109].
    change (js "h") with [104]. change (js "d") with [100].
    destruct (N.eqb_spec u 115); [discriminate|].
    destruct (N.eqb_spec u 109); [discriminate|].
    destruct (N.eqb_spec u 104); [discriminate|].
    destruct (N.eqb_spec u 100); [discriminate|].
    rewrite !bool_decide_eq_false_2 by congruence. reflexivity.
Qed.

(** The encoding of [createJWT] and the decoding of [verifyToken]:
    Latin-1 texts, and no others, are encoded; the encoding is made
    of URL-safe characters, and decoding it gives the text back. *)
Lemma base64url_cases (s : jsstring) :
  (latin1 s ->
   exists e, encodeBase64Url s = inr e /\ Forall url_safe e /\
             decodeBase64Url e = inr s) /\
  (~ latin1 s -> encodeBase64Url s = inl InvalidCharacterError).
Proof.
  split; [|apply encodeBase64Url_inl].
  intros H. exists (encoded s).
  split; [now apply encodeBase64Url_bytes|].
  split; [now apply encoded_safe | now apply decode_encoded].
Qed.

(** Every pair [generateTokens] returns holds two tokens in the compact
    form of three dot-separated URL-safe parts, and states the access
    expiry it parsed. *)
Lemma generateTokens_parts (this : t) (userId : option json)
    (config : option TokenConfig.t) (nowMs : Z) (tokens : AuthTokens) :
  generateTokens this userId config nowMs = inr tokens ->
  compact (accessToken tokens) /\ compact (refreshToken tokens) /\
  expiresIn tokens =
    parseExpiry (or_else (option_map TokenConfig.accessTokenExpiry config)
                         (accessTokenExpiry this)).
Proof.
  unfold generateTokens. cbv zeta.
  destruct (createJWT this [(js "userId", userId); (js "type", Some (JStr (js "access")))]
              _ nowMs) as [|a] eqn:Ea; [discriminate|].
  cbn [bind].
  destruct (createJWT this [(js "userId", userId); (js "type", Some (JStr (js "refresh")))]
              _ nowMs) as [|r] eqn:Er; [discriminate|].
  cbn [bind]. intros [= <-]. cbn [accessToken refreshToken expiresIn].
  split; [now apply createJWT_parts in Ea|].
  split; [now apply createJWT_parts in Er | reflexivity].
Qed.

(** When an issued token expires: exactly when an expiry was parsed,
    the [exp] it gave is not 0, and the clock's second is past it. *)
Lemma issued_expiry (this : t) (userId : jsstring) (issuedMs : Z) :
  secret this <> [] -> latin1 userId -> clock this issuedMs ->
  exists tokens,
    generateTokens this (Some (JStr userId)) None issuedMs = inr tokens /\
    (forall nowMs,
       verifyToken this (accessToken tokens) nowMs = inl JWTExpired <->
       exists e, parseExpiry (accessTokenExpiry this) = Some e /\
                 (seconds issuedMs + e <> 0)%Z /\
                 (seconds issuedMs + e < seconds nowMs)%Z) /\
    (forall nowMs,
       verifyToken this (refreshToken tokens) nowMs = inl JWTExpired <->
       exists e, parseExpiry (refreshTokenExpiry this) = Some e /\
                 (seconds issuedMs + e <> 0)%Z /\
                 (seconds issuedMs + e < seconds nowMs)%Z) /\
    (forall nowMs error,
       verifyToken this (accessToken tokens) nowMs = inl error \/
       verifyToken this (refreshToken tokens) nowMs = inl error ->
       error = JWTExpired).
Proof.
  intros Hsecret Hu (Hi & Ha & Hr).
  assert (Hexp : forall kind expiry nowMs,
            kind_ok kind -> (forall e, expiry = Some e -> safe (seconds issuedMs + e)) ->
            verifyToken this
              (token_of (secret this) (issued_payload userId kind (seconds issuedMs) expiry))
              nowMs =
            if match expiry with
               | Some e => negb (seconds issuedMs + e =? 0)%Z
                           && (seconds issuedMs + e <? seconds nowMs)%Z
               | None => false
               end
            then inl JWTExpired
            else inr (issued_payload userId kind (seconds issuedMs) expiry)).
  { intros kind expiry nowMs Hk He.
    rewrite verifyToken_token_of by (auto using issued_simple).
    now rewrite issued_expired by exact He. }
  assert (Hiff : forall expiry nowMs (payload : json),
            (if match expiry with
                | Some e => negb (seconds issuedMs + e =? 0)%Z
                            && (seconds issuedMs + e <? seconds nowMs)%Z
                | None => false
                end
             then @inl Error json JWTExpired
             else inr payload) = inl JWTExpired <->
            exists e, expiry = Some e /\ (seconds issuedMs + e <> 0)%Z /\
                      (seconds issuedMs + e < seconds nowMs)%Z).
  { intros [e|] nowMs payload.
    - destruct (Z.eqb_spec (seconds issuedMs + e) 0) as [H0|H0];
        destruct (Z.ltb_spec (seconds issuedMs + e) (seconds nowMs)) as [Hl|Hl];
        cbn [negb andb]; split; try discriminate;
        try (intros (x & [= <-] & ? & ?); lia); try (intros; reflexivity).
      intros _. now exists e.
    - split; [discriminate | now intros (x & ? & _)]. }
  eexists. split; [now apply generateTokens_issued|].
  cbn [accessToken refreshToken].
  split; [|split].
  - intros nowMs. rewrite (Hexp "access"%string _ nowMs kind_access Ha).
    apply Hiff.
  - intros nowMs. rewrite (Hexp "refresh"%string _ nowMs kind_refresh Hr).
    apply Hiff.
  - intros nowMs error.
    rewrite (Hexp "access"%string _ nowMs kind_access Ha), (Hexp "refresh"%string _ nowMs kind_refresh Hr).
    intros [H|H];
      destruct (match parseExpiry _ with Some _ => _ | None => _ end);
      first [discriminate H | now injection H].
Qed.

End TokenFacts2.

Module BearerFacts.
Import Regex JSONText JSValue Base64 WebCrypto JWTManager Auth.
Import TextSpec TokenSpec TokenShape AuthSpec TokenSamples.
Import Base64Facts JSONFacts JWTFacts TokenExtraFacts GatewayFacts AuthExtraFacts CsrfFacts.

Lemma jwt_accepted_bearer (request : Request) (env : Env) (nowMs : Z) (token : jsstring) :
  headers_get (headers request) (js "Authorization") = Some (js "Bearer " ++ token) ->
  jwt_accepted request env nowMs =
    match validateJWT_for (Some request) token env nowMs with
    | None => true
    | Some _ => false
    end.
Proof.
  intros H. unfold jwt_accepted. rewrite H, startsWith_app.
  unfold substring_from. change 7%nat with (length (js "Bearer ")).
  now rewrite skipn_app_length.
Qed.

(** With the tokens that the environment's manager issues: the access
    token is accepted as a bearer credential while it has not expired,
    and [requireAuth] lets such a request through; the refresh token is
    refused with the status 401. *)
Lemma bearer_kinds (env : Env) (s userId : jsstring) (issuedMs nowMs : Z) :
  JWT_SECRET env = Some s -> s <> [] -> latin1 userId ->
  clock (manager_of env s) issuedMs -> valid_at (manager_of env s) issuedMs nowMs ->
  exists tokens,
    JWTManager.bind (fromEnv env)
      (fun jwtManager => generateTokens jwtManager (Some (JStr userId)) None issuedMs)
      = inr tokens /\
    validateJWT (accessToken tokens) env nowMs = None /\
    (exists response,
       validateJWT (refreshToken tokens) env nowMs = Some response /\
       status response = 401%Z) /\
    (forall request,
       headers_get (headers request) (js "Authorization")
         = Some (js "Bearer " ++ accessToken tokens) ->
       requireAuth request env nowMs = None).
Proof.
  intros Hs Hne Hu (Hi & Hia & Hir) (Hva & Hvr).
  rewrite (fromEnv_manager env s Hs Hne). cbn [JWTManager.bind].
  set (this := manager_of env s) in *.
  assert (Hsecret : secret this <> []) by exact Hne.
  eexists. split; [now apply generateTokens_issued|].
  cbn [accessToken refreshToken].
  assert (Htruthy : otruthy (JWT_SECRET env) = true)
    by (rewrite Hs; destruct s; [contradiction | reflexivity]).
  assert (Haccess : forall request,
            validateJWT_for request
              (token_of (secret this)
                 (issued_payload userId "access" (seconds issuedMs)
                    (parseExpiry (accessTokenExpiry this)))) env nowMs = None).
  { intros request. unfold validateJWT_for.
    rewrite Htruthy, (fromEnv_manager env s Hs Hne).
    cbn [negb JWTManager.bind]. fold this.
    rewrite verify_issued
      by (auto using kind_access; try (intros e He; split; [now apply Hia | now apply Hva])).
    now destruct request. }
  split; [exact (Haccess None)|]. split.
  - eexists. split.
    + unfold validateJWT, validateJWT_for.
      rewrite Htruthy, (fromEnv_manager env s Hs Hne).
      cbn [negb JWTManager.bind]. fold this.
      rewrite verify_issued
        by (auto using kind_refresh; try (intros e He; split; [now apply Hir | now apply Hvr])).
      reflexivity.
    + reflexivity.
  - intros request H. unfold requireAuth.
    now rewrite (jwt_accepted_bearer request env nowMs _ H), Haccess.
Qed.

(** The admin password sent as a bearer token authenticates, whether or
    not JWT is configured: the failed JWT check falls through to the
    password check. *)
Lemma password_bearer (request : Request) (env : Env) (nowMs : Z)
    (p : jsstring) :
  ADMIN_PASSWORD env = Some p -> p <> [] ->
  headers_get (headers request) (js "Authorization") = Some (js "Bearer " ++ p) \/
  (headers_get (headers request) (js "Authorization") = None /\
   headers_get (headers request) (js "X-Admin-API-Key") = Some p) ->
  requireAuth request env nowMs = None.
Proof.
  intros Hp Hne H.
  assert (Hv : validatePassword request env = true).
  { apply PasswordFacts.validatePassword_iff. exists p.
    split; [exact Hp|]. split; [exact Hne|].
    destruct H as [H|[Ha Hk]]; [now left|]. right. right. now rewrite Ha. }
  unfold requireAuth. rewrite Hv.
  destruct (jwt_accepted _ _ _); [reflexivity|].
  now destruct (checkCookieAuth _ _).
Qed.

End BearerFacts.

Module RefererFacts.
Import AuthExtraFacts CsrfFacts.

Lemma allowedOrigins_nonempty (env : Env) (a : jsstring) :
  In a (allowedOrigins env) -> a <> [].
Proof.
  unfold allowedOrigins. destruct (isDevelopment env); cbn [app In];
    intros H; repeat (destruct H as [<-|H]; [discriminate|]); contradiction.
Qed.

Lemma startsWith_iff (s p : jsstring) :
  startsWith s p = true <-> exists rest, s = p ++ rest.
Proof.
  split.
  - intros H. eexists. now apply startsWith_prefix.
  - intros [rest ->]. apply startsWith_app.
Qed.

Lemma validateReferer_cases (request : Request) (env : Env) :
  (otruthy (headers_get (headers request) (js "Origin")) = true ->
   (validateReferer request env = true <->
    exists o, headers_get (headers request) (js "Origin") = Some o /\
              In o (allowedOrigins env))) /\
  (otruthy (headers_get (headers request) (js "Origin")) = false ->
   (validateReferer request env = true <->
    exists a rest, In a (allowedOrigins env) /\
                   headers_get (headers request) (js "Referer") = Some (a ++ rest))).
Proof.
  unfold validateReferer. split; intros Ho; rewrite Ho.
  - destruct (headers_get (headers request) (js "Origin")) as [o|]; [|discriminate].
    rewrite arr_includes_In. split.
    + intros H. now exists o.
    + now intros (x & [= <-] & H).
  - destruct (headers_get (headers request) (js "Referer")) as [r|].
    + split.
      * intros H. destruct (otruthy (Some r)); [|discriminate].
        apply existsb_exists in H as (a & Ha & Hs).
        apply startsWith_iff in Hs as [rest ->]. now exists a, rest.
      * intros (a & rest & Ha & [= ->]).
        pose proof (allowedOrigins_nonempty env a Ha) as Hne.
        destruct a as [|c a]; [contradiction|]. cbn [app otruthy truthy].
        apply existsb_exists. exists (c :: a). split; [exact Ha|].
        apply (startsWith_app (c :: a) rest).
    + cbn [otruthy]. split; [discriminate | now intros (a & rest & _ & H)].
Qed.

End RefererFacts.

Module RouteFacts.
Import Regex JSONText JSValue Base64 WebCrypto JWTManager Auth AuthRoutes.
Import TextSpec TokenSpec TokenShape AuthSpec TokenSamples.
Import Base64Facts JSONFacts JWTFacts TokenExtraFacts GatewayFacts GatewayFacts2 AuthExtraFacts CsrfFacts.

Lemma latin1_createdAt : latin1 (js "createdAt").
Proof. vm_compute. repeat constructor. Qed.

Lemma latin1_ip : latin1 (js "ip").
Proof. vm_compute. repeat constructor. Qed.

Lemma latin1_isAdmin : latin1 (js "isAdmin").
Proof. vm_compute. repeat constructor. Qed.

Lemma parse_value_bool (b : bool) (fuel : nat) (rest : jsstring) :
  parse_value (S fuel) (stringify (JBool b) ++ rest) = Some (JBool b, rest).
Proof. destruct b; reflexivity. Qed.

Lemma parse_member_bool (key : jsstring) (b : bool) (fuel : nat) (more : jsstring) :
  latin1 key ->
  parse_members (S (S fuel)) (member_text (key, JBool b) ++ more) =
    match after 44 (skip_ws more), after 125 (skip_ws more) with
    | Some r4, _ =>
        '(fields, r5) ← parse_members (S fuel) r4; Some ((key, JBool b) :: fields, r5)
    | None, Some r4 => Some ([(key, JBool b)], r4)
    | None, None => None
    end.
Proof.
  intros Hk. unfold member_text, quote. cbn [fst snd].
  change (js ":") with [58]. rewrite <- !app_assoc.
  cbn [app parse_members skip_ws is_json_ws N.eqb Pos.eqb orb after mbind option_bind].
  rewrite <- app_assoc. cbn [app].
  rewrite parse_chars_quote by exact Hk.
  cbn [mbind option_bind rev app skip_ws is_json_ws N.eqb Pos.eqb orb after].
  rewrite parse_value_bool.
  reflexivity.
Qed.

(** Reading back the text of a stored session. *)
Lemma parse_session (createdAt : Z) (ip : jsstring) :
  safe createdAt -> latin1 ip ->
  parse (stringify (JObj [(js "isAdmin", JBool true);
                          (js "createdAt", JInt createdAt);
                          (js "ip", JStr ip)]))
    = Some (JObj [(js "isAdmin", JBool true);
                  (js "createdAt", JInt createdAt);
                  (js "ip", JStr ip)]).
Proof.
  intros Hc Hip.
  set (rest := [(js "createdAt", JInt createdAt); (js "ip", JStr ip)]).
  assert (Hrest : Forall simple_member rest).
  { constructor; [split; [exact latin1_createdAt | apply safe_simple; exact Hc]|].
    constructor; [split; [exact latin1_ip | exact Hip]|]. constructor. }
  assert (Hne : rest <> []) by discriminate.
  unfold parse. cbn [stringify].
  change (List.map (fun kv => quote (fst kv) ++ js ":" ++ stringify (snd kv))
            ((js "isAdmin", JBool true) :: rest))
    with (member_text (js "isAdmin", JBool true) :: List.map member_text rest).
  rewrite join_cons by discriminate.
  change (js "{") with [123]. change (js "}") with [125]. change (js ",") with [44].
  set (members := join [44] (List.map member_text rest)).
  set (first := member_text (js "isAdmin", JBool true)).
  assert (Hfirst : exists more, first = 34 :: more) by (eexists; reflexivity).
  destruct Hfirst as (more & Hm).
  cbn [app length parse_value skip_ws is_json_ws N.eqb Pos.eqb orb].
  assert (Hafter : after 125 (skip_ws ((first ++ 44 :: members) ++ [125])) = None)
    by (rewrite Hm; reflexivity).
  rewrite Hafter.
  pose proof (members_length rest) as Hlen.
  change (js ",") with [44] in Hlen. fold members in Hlen.
  rewrite !length_app. cbn [length]. rewrite <- app_assoc. cbn [app].
  replace (length first + S (length members) + 1)%nat
    with (S (S (length first + length members))) by lia.
  subst first. rewrite parse_member_bool by exact latin1_isAdmin.
  cbn [skip_ws is_json_ws N.eqb Pos.eqb orb after].
  subst members. change [44] with (js ",").
  rewrite parse_members_simple; [reflexivity | exact Hne | exact Hrest |].
  change (js ",") with [44]. lia.
Qed.


Lemma csrf_status (request : Request) (env : Env) (r : Response) :
  requireCSRFProtection request env = Some r -> status r = 403%Z.
Proof.
  unfold requireCSRFProtection.
  destruct (negb _); [discriminate|].
  destruct (_ <? _)%Z; [|discriminate]. now intros [= <-].
Qed.

Lemma password_equals_true (password : json) (adminPassword : jsstring) :
  adminPassword <> [] ->
  password_equals password adminPassword = inr true ->
  password = JStr adminPassword.
Proof.
  intros Hne. unfold password_equals.
  destruct password as [| | | | s | |];
    try (destruct (is_integer _ _); [destruct adminPassword; [contradiction|]|];
         discriminate).
  intros [= H]. apply fold_equal in H. now subst.
Qed.

(** What a login that answers 200 has checked, and what it stores. *)
Lemma login_ok (request : Request) (body : option json) (env : Env)
    (sessionId : jsstring) (createdAt tokenMs : Z) :
  status (fst (login request body env sessionId createdAt tokenMs)) = 200%Z ->
  requireCSRFProtection request env = None /\
  exists b p sessions,
    body = Some b /\ prop b "password" = Some (JStr p) /\
    ADMIN_PASSWORD env = Some p /\ p <> [] /\ SESSIONS env = Some sessions /\
    snd (login request body env sessionId createdAt tokenMs) =
      with_sessions env (<[sessionId := stringify (sessionData createdAt request)]> sessions).
Proof.
  unfold login.
  destruct (requireCSRFProtection request env) as [r|] eqn:Ecsrf.
  { cbn [fst forward status]. intros H. apply csrf_status in Ecsrf. lia. }
  destruct body as [b|]; [|discriminate].
  destruct (destructure b "password") as [|password] eqn:Ed; [discriminate|].
  destruct password as [password|]; [|discriminate].
  destruct (truthy_value password); [|discriminate]. cbn [negb].
  destruct (ADMIN_PASSWORD env) as [admin|] eqn:Ea; [|discriminate].
  destruct admin as [|c admin]; [discriminate|]. cbn [truthy negb].
  destruct (password_equals password (c :: admin)) as [|[|]] eqn:Ep; try discriminate.
  destruct (SESSIONS env) as [sessions|] eqn:Es; [|discriminate].
  intros _. split; [reflexivity|].
  apply password_equals_true in Ep; [|discriminate]. subst password.
  exists b, (c :: admin), sessions.
  split; [reflexivity|]. split.
  { unfold destructure in Ed. destruct b; try discriminate; now injection Ed. }
  split; [reflexivity|]. split; [discriminate|]. split; reflexivity.
Qed.

(** A login that does not answer 200 stores nothing. *)
Lemma login_refused (request : Request) (body : option json) (env : Env)
    (sessionId : jsstring) (createdAt tokenMs : Z) :
  status (fst (login request body env sessionId createdAt tokenMs)) <> 200%Z ->
  snd (login request body env sessionId createdAt tokenMs) = env.
Proof.
  unfold login.
  destruct (requireCSRFProtection request env) as [r|]; [reflexivity|].
  destruct body as [b|]; [|reflexivity].
  destruct (destructure b "password") as [|password]; [reflexivity|].
  destruct password as [password|]; [|reflexivity].
  destruct (truthy_value password); [|reflexivity]. cbn [negb].
  destruct (ADMIN_PASSWORD env) as [admin|]; [|reflexivity].
  destruct (truthy admin); [|reflexivity]. cbn [negb].
  destruct (password_equals password admin) as [|[|]]; try reflexivity.
  destruct (SESSIONS env) as [sessions|]; [|reflexivity].
  intros H. now contradiction H.
Qed.

(** The login that the right password gets. *)
Lemma login_accepts (request : Request) (b : json) (env : Env)
    (sessionId p : jsstring) (createdAt tokenMs : Z) (sessions : gmap jsstring jsstring) :
  requireCSRFProtection request env = None ->
  prop b "password" = Some (JStr p) ->
  ADMIN_PASSWORD env = Some p -> p <> [] -> SESSIONS env = Some sessions ->
  status (fst (login request (Some b) env sessionId createdAt tokenMs)) = 200%Z.
Proof.
  intros Hcsrf Hb Ha Hne Hs. unfold login. rewrite Hcsrf.
  assert (Hd : destructure b "password" = inr (Some (JStr p))).
  { unfold destructure. destruct b; try discriminate Hb. now rewrite Hb. }
  rewrite Hd, Ha. destruct p as [|c p]; [contradiction|].
  cbn [truthy_value truthy negb password_equals].
  rewrite (proj2 (fold_equal_iff (c :: p) (c :: p)) eq_refl), Hs.
  reflexivity.
Qed.

Lemma cookie_of_session (sid : jsstring) :
  Forall cookie_char sid -> trimEnd sid = sid ->
  getCookieValue (Some (js "adminSession=" ++ sid)) (js "adminSession") = Some sid.
Proof.
  intros Hc Ht.
  assert (Hn : Forall cookie_char (js "adminSession"))
    by (vm_compute; repeat constructor; discriminate).
  assert (Hne : js "adminSession" <> []) by discriminate.
  exact (proj1 (getCookieValue_pair (js "adminSession") sid [] Hne Hn Hc eq_refl Ht)).
Qed.

Lemma checkCookieAuth_session (request : Request) (env : Env)
    (sessions : gmap jsstring jsstring) (sid : jsstring) (createdAt : Z) (ip : jsstring) :
  SESSIONS env = Some sessions ->
  sessions !! sid = Some (stringify (JObj [(js "isAdmin", JBool true);
                                          (js "createdAt", JInt createdAt);
                                          (js "ip", JStr ip)])) ->
  sid <> [] -> Forall cookie_char sid -> trimEnd sid = sid ->
  safe createdAt -> latin1 ip ->
  headers_get (headers request) (js "Cookie") = Some (js "adminSession=" ++ sid) ->
  checkCookieAuth request env = true.
Proof.
  intros Hs Hget Hne Hc Ht Hsafe Hip Hcookie.
  unfold checkCookieAuth. rewrite Hs, Hcookie, (cookie_of_session sid Hc Ht).
  destruct sid as [|c sid]; [contradiction|]. cbn [truthy negb].
  rewrite Hget.
  assert (Htext : truthy (stringify (JObj [(js "isAdmin", JBool true);
                                           (js "createdAt", JInt createdAt);
                                           (js "ip", JStr ip)])) = true) by reflexivity.
  rewrite Htext, (parse_session createdAt ip Hsafe Hip). reflexivity.
Qed.

Lemma checkCookieAuth_absent (request : Request) (env : Env)
    (sessions : gmap jsstring jsstring) (sid : jsstring) :
  SESSIONS env = Some sessions -> sessions !! sid = None ->
  Forall cookie_char sid -> trimEnd sid = sid ->
  headers_get (headers request) (js "Cookie") = Some (js "adminSession=" ++ sid) ->
  checkCookieAuth request env = false.
Proof.
  intros Hs Hget Hc Ht Hcookie.
  unfold checkCookieAuth. rewrite Hs, Hcookie, (cookie_of_session sid Hc Ht).
  destruct (negb (truthy sid)); [reflexivity|]. now rewrite Hget.
Qed.

End RouteFacts.

Module RouteFacts2.
Import Regex JSONText JSValue Base64 WebCrypto JWTManager Auth AuthRoutes.
Import TextSpec TokenSpec TokenShape AuthSpec TokenSamples.
Import Base64Facts JSONFacts JWTFacts TokenExtraFacts GatewayFacts GatewayFacts2.
Import AuthExtraFacts CsrfFacts RouteFacts.

(** After a login that answered 200, the cookie it set authenticates. *)
Lemma login_then_cookie (request : Request) (body : option json) (env : Env)
    (sessionId : jsstring) (createdAt tokenMs : Z) (later : Request) (nowMs : Z) :
  status (fst (login request body env sessionId createdAt tokenMs)) = 200%Z ->
  sessionId <> [] -> Forall cookie_char sessionId -> trimEnd sessionId = sessionId ->
  safe createdAt -> latin1 (clientIP request) ->
  headers_get (headers later) (js "Cookie") = Some (js "adminSession=" ++ sessionId) ->
  checkCookieAuth later (snd (login request body env sessionId createdAt tokenMs)) = true /\
  requireAuth later (snd (login request body env sessionId createdAt tokenMs)) nowMs = None /\
  session_status later (snd (login request body env sessionId createdAt tokenMs)) =
    respond 200 []
      [(js "authenticated", JBool true);
       (js "createdAt", JInt createdAt);
       (js "message", JStr (js "Valid session"))].
Proof.
  intros Hok Hne Hc Ht Hsafe Hip Hcookie.
  destruct (login_ok _ _ _ _ _ _ Hok) as (_ & b & p & sessions & _ & _ & _ & _ & _ & ->).
  assert (Hcheck : checkCookieAuth later
            (with_sessions env
               (<[sessionId := stringify (sessionData createdAt request)]> sessions)) = true).
  { eapply (checkCookieAuth_session later _ _ sessionId createdAt (clientIP request));
      try eassumption; [reflexivity | apply lookup_insert_eq]. }
  split; [exact Hcheck|]. split.
  - unfold requireAuth. rewrite Hcheck. now destruct (jwt_accepted _ _ _).
  - unfold session_status. rewrite Hcookie, (cookie_of_session sessionId Hc Ht).
    cbn [SESSIONS with_sessions]. destruct sessionId as [|c sid]; [contradiction|].
    cbn [truthy negb]. rewrite lookup_insert_eq.
    assert (Htext : truthy (stringify (sessionData createdAt request)) = true) by reflexivity.
    rewrite Htext. cbn [negb]. unfold sessionData. fold (clientIP request).
    rewrite (parse_session createdAt (clientIP request) Hsafe Hip). reflexivity.
Qed.

(** A logout that passes the guard deletes the session of its cookie,
    and only that one. *)
Lemma logout_deletes (request : Request) (env : Env) (sessions : gmap jsstring jsstring)
    (sessionId : jsstring) :
  requireCSRFProtection request env = None ->
  SESSIONS env = Some sessions ->
  sessionId <> [] -> Forall cookie_char sessionId -> trimEnd sessionId = sessionId ->
  headers_get (headers request) (js "Cookie") = Some (js "adminSession=" ++ sessionId) ->
  logout request env =
    (respond 200 [(js "Set-Cookie", cleared_cookie)]
       [(js "success", JBool true); (js "message", JStr (js "Logged out successfully"))],
     with_sessions env (delete sessionId sessions)).
Proof.
  intros Hcsrf Hs Hne Hc Ht Hcookie. unfold logout.
  rewrite Hcsrf, Hcookie, (cookie_of_session sessionId Hc Ht), Hs.
  destruct sessionId; [contradiction | reflexivity].
Qed.

Lemma logout_blocked (request : Request) (env : Env) (r : Response) :
  requireCSRFProtection request env = Some r ->
  logout request env = (forward r, env) /\ status (forward r) = 403%Z.
Proof.
  intros H. unfold logout. rewrite H. split; [reflexivity|].
  exact (csrf_status _ _ _ H).
Qed.



(** What the refresh route answers without a usable token. *)
Lemma refresh_refusals (body : option json) (env : Env) (nowMs : Z) :
  (otruthy (JWT_SECRET env) = false -> status (refresh body env nowMs) = 501%Z) /\
  (otruthy (JWT_SECRET env) = true ->
   (forall b, body = Some b -> b <> JNull ->
      truthy_option (prop b "refreshToken") = false ->
      status (refresh body env nowMs) = 400%Z) /\
   (status (refresh body env nowMs) = 200%Z ->
      exists b token, body = Some b /\ prop b "refreshToken" = Some (JStr token) /\
        exists this payload,
          fromEnv env = inr this /\
          verifyToken this token nowMs = inr payload /\
          is_string (prop payload "type") "refresh" = true)).
Proof.
  unfold refresh. split.
  - intros H. rewrite H. reflexivity.
  - intros H. rewrite H. cbn [negb]. split.
    + intros b -> Hb Hf. unfold destructure. destruct b; try contradiction;
        now rewrite Hf.
    + destruct body as [b|]; [|discriminate].
      destruct (destructure b "refreshToken") as [|presented] eqn:Ed; [discriminate|].
      destruct (truthy_option presented) eqn:Ht; [|discriminate]. cbn [negb].
      destruct (fromEnv env) as [|this] eqn:Ef; [discriminate|]. cbn [JWTManager.bind].
      destruct presented as [[| | | |token| |]|]; try discriminate.
      destruct (refreshTokens this token nowMs) as [|renewed] eqn:Er; [discriminate|].
      intros _. exists b, token. split; [reflexivity|]. split.
      { unfold destructure in Ed. destruct b; try discriminate; now injection Ed. }
      exists this. unfold refreshTokens in Er.
      destruct (verifyToken this token nowMs) as [|payload]; [discriminate|].
      exists payload. cbn [JWTManager.bind] in Er.
      destruct (is_string (prop payload "type") "refresh"); [auto | discriminate].
Qed.

End RouteFacts2.

Module UpdateFacts.
Import Regex RegexSyntax Sanitize Zod Validation PayloadSpec UpdateSpec ValidationFacts.
Import JWTFacts.

Lemma optional_string_value (path : string) (min_msg : option string) (max : N)
    (max_msg : string) (v : option json) (a : option jsstring) :
  optional (string_schema path min_msg max max_msg) v = Valid a -> a = present_string v.
Proof.
  intros H. apply optional_valid in H as [[-> ->]|[_ (x & -> & H)]]; [reflexivity|].
  apply string_schema_valid in H as [-> _]. reflexivity.
Qed.

Lemma optional_tags_value (v : option json) (a : option (list jsstring)) :
  optional tags_schema v = Valid a -> a = present_tags v.
Proof.
  intros H. apply optional_valid in H as [[-> ->]|[_ (x & -> & H)]]; [reflexivity|].
  apply tags_schema_valid in H as [(s & -> & ->)| ->]; cbn [present_tags option_map].
  - f_equal. apply filter_truthy.
  - f_equal. cbn [tags_or_empty]. now rewrite omap_as_string.
Qed.

Lemma UpdateComponentSchema_value (data : json) (validated : UpdateComponentData) :
  UpdateComponentSchema data = inr validated ->
  exists fields, data = JObj fields /\
    validated =
      mkUpdate (present_string (field fields "name"))
               (present_string (field fields "category"))
               (present_string (field fields "html"))
               (present_string (field fields "css"))
               (present_string (field fields "js"))
               (present_tags (field fields "tags")).
Proof.
  unfold UpdateComponentSchema. destruct data as [| | | | | |fields]; try discriminate.
  cbv zeta. intros H. exists fields. split; [reflexivity|].
  apply object_schema_inr in H;
    try (apply optional_sound; intros);
    try apply string_schema_sound; try apply tags_schema_sound.
  destruct H as (a & b & c & d & e & f & Ha & Hb & Hc & Hd & He & Hf & _ & ->).
  apply optional_string_value in Ha, Hb, Hc, Hd, He. apply optional_tags_value in Hf.
  now subst.
Qed.

Lemma update_value (data : json) (d : UpdateComponentData) (w : list jsstring) :
  validateAndSanitizeUpdate data = Success d w ->
  exists fields, data = JObj fields /\
    u_name d = option_map trim (present_string (field fields "name")) /\
    u_category d = option_map trim (present_string (field fields "category")) /\
    u_html d = option_map sanitizeHTML (present_string (field fields "html")) /\
    u_css d = option_map sanitizeCSS (present_string (field fields "css")) /\
    u_js d = option_map sanitizeJS (present_string (field fields "js")) /\
    u_tags d = option_map (fun t => List.filter truthy (List.map trim t))
                          (present_tags (field fields "tags")) /\
    w = [].
Proof.
  unfold validateAndSanitizeUpdate.
  destruct (UpdateComponentSchema data) as [|validated] eqn:E; [discriminate|].
  intros [= <- <-].
  apply UpdateComponentSchema_value in E as (fields & -> & ->).
  exists fields. cbn [u_name u_category u_html u_css u_js u_tags]. now repeat split.
Qed.

Lemma optional_none {A} (schema : option json -> outcome A) (v : option json)
    (a : option A) :
  optional schema v = Valid a -> (a = None <-> v = None).
Proof.
  intros H. apply optional_valid in H as [[-> ->]|[[x ->] (y & -> & _)]];
    split; try reflexivity; discriminate.
Qed.

Lemma option_map_none {A B} (f : A -> B) (x : option A) :
  option_map f x = None <-> x = None.
Proof. destruct x; split; try reflexivity; discriminate. Qed.

(** An accepted update returns a field exactly when the input has it. *)
Lemma update_presence (fields : list (jsstring * json)) (d : UpdateComponentData)
    (w : list jsstring) :
  validateAndSanitizeUpdate (JObj fields) = Success d w ->
  (u_name d = None <-> field fields "name" = None) /\
  (u_category d = None <-> field fields "category" = None) /\
  (u_html d = None <-> field fields "html" = None) /\
  (u_css d = None <-> field fields "css" = None) /\
  (u_js d = None <-> field fields "js" = None) /\
  (u_tags d = None <-> field fields "tags" = None).
Proof.
  unfold validateAndSanitizeUpdate.
  destruct (UpdateComponentSchema (JObj fields)) as [|validated] eqn:E; [discriminate|].
  intros [= <- <-]. unfold UpdateComponentSchema in E. cbv zeta in E.
  apply object_schema_inr in E;
    try (apply optional_sound; intros);
    try apply string_schema_sound; try apply tags_schema_sound.
  destruct E as (a & b & c & x & e & f & Ha & Hb & Hc & Hd & He & Hf & _ & ->).
  cbn [u_name u_category u_html u_css u_js u_tags]. rewrite !option_map_none.
  apply optional_none in Ha, Hb, Hc, Hd, He, Hf.
  repeat (split; [assumption|]). assumption.
Qed.

Lemma flat_map_flat_map {A B C} (f : B -> list C) (g : A -> list B) (l : list A) :
  flat_map f (flat_map g l) = flat_map (fun x => flat_map f (g x)) l.
Proof.
  induction l as [|x l IH]; [reflexivity|]. cbn [flat_map].
  now rewrite flat_map_app, IH.
Qed.

Lemma encodeHTMLEntities_entity (s : jsstring) :
  encodeHTMLEntities s = flat_map entity s.
Proof.
  unfold encodeHTMLEntities, re_amp, re_lt, re_gt, re_dq, re_sq, Sanitize.re_slash.
  rewrite !replace_char, !flat_map_flat_map.
  apply flat_map_ext. intros c. unfold entity.
  destruct (N.eqb_spec c 38) as [->|H38]; [reflexivity|].
  destruct (N.eqb_spec c 60) as [->|H60]; [reflexivity|].
  destruct (N.eqb_spec c 62) as [->|H62]; [reflexivity|].
  destruct (N.eqb_spec c 34) as [->|H34]; [reflexivity|].
  destruct (N.eqb_spec c 39) as [->|H39]; [reflexivity|].
  destruct (N.eqb_spec c 47) as [->|H47]; [reflexivity|].
  cbn [flat_map app].
  repeat match goal with
         | |- context [?x =? ?y] =>
             destruct (N.eqb_spec x y); [congruence|]; cbn [flat_map app]
         end.
  reflexivity.
Qed.

Lemma entity_markup (c : N) : forallb (fun x => negb (markup_char x)) (entity c) = true.
Proof.
  unfold entity.
  destruct (N.eqb_spec c 38); [reflexivity|].
  destruct (N.eqb_spec c 60); [reflexivity|].
  destruct (N.eqb_spec c 62); [reflexivity|].
  destruct (N.eqb_spec c 34); [reflexivity|].
  destruct (N.eqb_spec c 39); [reflexivity|].
  destruct (N.eqb_spec c 47); [reflexivity|].
  cbn [forallb]. unfold markup_char.
  repeat match goal with
         | |- context [?x =? ?y] => destruct (N.eqb_spec x y); [congruence|]
         end.
  reflexivity.
Qed.

Lemma encodeHTMLEntities_markup (s : jsstring) :
  forallb (fun x => negb (markup_char x)) (encodeHTMLEntities s) = true.
Proof.
  rewrite encodeHTMLEntities_entity.
  induction s as [|c s IH]; [reflexivity|]. cbn [flat_map].
  rewrite forallb_app, IH, entity_markup. reflexivity.
Qed.

Lemma encodeHTMLEntities_plain (s : jsstring) :
  forallb (fun x => negb (markup_char x || (x =? 38))) s = true ->
  encodeHTMLEntities s = s.
Proof.
  rewrite encodeHTMLEntities_entity.
  induction s as [|c s IH]; [reflexivity|]. cbn [forallb flat_map].
  intros H. apply andb_true_iff in H as [Hc Hs]. rewrite (IH Hs).
  unfold markup_char in Hc. unfold entity.
  apply negb_true_iff in Hc.
  repeat (apply orb_false_iff in Hc as [Hc ?]).
  repeat match goal with
         | H : (_ =? _) = false |- _ => rewrite H; clear H
         end.
  reflexivity.
Qed.

End UpdateFacts.

Module AdminGateFacts.
Import JSONText JSValue JWTManager Auth AuthRateLimiter AdminRoutes.
Import AuthSpec CsrfFacts RouteFacts GatewayFacts2.

Lemma gate_cases (request : Request) (env : Env) (nowMs : Z) (limiter : AuthRateLimiter.t) :
  (method request = js "OPTIONS" -> gate request env nowMs limiter = (None, limiter)) /\
  (method request <> js "OPTIONS" ->
   (forall r, requireCSRFProtection request env = Some r ->
      gate request env nowMs limiter = (Some (forward env request r), limiter) /\
      status (forward env request r) = 403%Z) /\
   (fst (gate request env nowMs limiter) = None ->
      requireCSRFProtection request env = None /\
      requireAuth request env nowMs = None /\
      snd (gate request env nowMs limiter) !! clientIP request = None)).
Proof.
  unfold gate, str_eqb. split.
  - intros ->. now rewrite bool_decide_eq_true_2.
  - intros Hm. rewrite bool_decide_eq_false_2 by exact Hm. split.
    + intros r Hr. rewrite Hr. split; [reflexivity|].
      exact (csrf_status _ _ _ Hr).
    + destruct (requireCSRFProtection request env) as [r|]; [discriminate|].
      pose proof (rate_limit_records request env nowMs limiter) as (_ & Hclear & _ & _).
      unfold requireAdminAuthWithRateLimit in *. fold (clientIP request) in *.
      destruct (isRateLimited (clientIP request) nowMs limiter) as [limited l].
      destruct limited; [discriminate|].
      destruct (requireAuth request env nowMs) as [a|]; [discriminate|].
      intros _. split; [reflexivity|]. split; [reflexivity|].
      cbn [fst snd] in *. now apply Hclear.
Qed.

Lemma allowedOrigin_cases (env : Env) (request : option Request) :
  (isDevelopment env = false -> allowedOrigin env request = production_origin) /\
  (allowedOrigin env request <> production_origin ->
   isDevelopment env = true /\
   exists r, request = Some r /\
     headers_get (headers r) (js "Origin") = Some (allowedOrigin env request) /\
     (includes (allowedOrigin env request) (js "localhost") = true \/
      includes (allowedOrigin env request) (js "127.0.0.1") = true)).
Proof.
  unfold allowedOrigin. split.
  - intros H. rewrite H. destruct request as [r|]; [|reflexivity].
    now destruct (headers_get _ _).
  - destruct request as [r|]; [|intros H; now contradiction H].
    destruct (headers_get (headers r) (js "Origin")) as [origin|] eqn:Ho;
      [|intros H; now contradiction H].
    destruct (isDevelopment env); [|intros H; now contradiction H].
    destruct (truthy origin); [|intros H; now contradiction H].
    cbn [andb].
    destruct (includes origin (js "localhost") || includes origin (js "127.0.0.1")) eqn:E;
      [|intros H; now contradiction H].
    intros _. split; [reflexivity|]. exists r. split; [reflexivity|].
    split; [exact Ho|]. now apply orb_true_iff.
Qed.

Lemma route_origin (origin : option jsstring) :
  exists allowed,
    headers_get (AuthRoutes.getCorsHeaders origin) (js "Access-Control-Allow-Origin")
      = Some allowed /\
    In allowed AuthRoutes.allowedOrigins /\
    (forall o, origin = Some o -> In o AuthRoutes.allowedOrigins -> allowed = o).
Proof.
  unfold AuthRoutes.getCorsHeaders.
  assert (Hget : forall o, headers_get (AuthRoutes.cors o) (js "Access-Control-Allow-Origin")
                           = Some o) by reflexivity.
  destruct origin as [o|].
  - destruct (truthy o && arr_includes AuthRoutes.allowedOrigins o) eqn:E.
    + apply andb_true_iff in E as [_ E]. apply arr_includes_In in E.
      exists o. split; [apply Hget|]. split; [exact E|]. now intros ? [= <-].
    + exists AuthRoutes.production_origin. split; [apply Hget|].
      split; [now left|]. intros x [= <-] Hin.
      apply andb_false_iff in E as [E|E].
      * destruct o; [|discriminate].
        cbn in Hin. repeat (destruct Hin as [Hin|Hin]; [discriminate|]). contradiction.
      * apply arr_includes_In in Hin. congruence.
  - exists AuthRoutes.production_origin. split; [apply Hget|].
    split; [now left | discriminate].
Qed.

End AdminGateFacts.

Module GatewayExtras.
Import JSONText JSValue JWTManager Auth AuthRateLimiter.
Import TextSpec TokenSpec AuthSpec TokenSamples ExtraSamples.
Import AuthExtraFacts PasswordFacts GatewayFacts GatewayFacts2 BearerFacts RefererFacts.

(** X1.  [constantTimeEquals] answers true exactly on equal strings. *)
Theorem X1_constantTimeEquals (a b : jsstring) :
  constantTimeEquals a b = true <-> a = b.
Proof. apply fold_equal_iff. Qed.

(** X2.  [validatePassword] accepts exactly when a non-empty admin
    password is configured and the credential of the request equals
    it: the text after [Bearer ] of the Authorization header; or the
    whole Authorization header when it does not begin with [Bearer ];
    or, only when the Authorization header is absent or empty, the
    X-Admin-API-Key header. *)
Theorem X2_validatePassword (request : Request) (env : Env) :
  validatePassword request env = true <->
  exists p,
    ADMIN_PASSWORD env = Some p /\ p <> [] /\
    (headers_get (headers request) (js "Authorization") = Some (js "Bearer " ++ p) \/
     (headers_get (headers request) (js "Authorization") = Some p /\
      startsWith p (js "Bearer ") = false) \/
     (otruthy (headers_get (headers request) (js "Authorization")) = false /\
      headers_get (headers request) (js "X-Admin-API-Key") = Some p)).
Proof. apply validatePassword_iff. Qed.

(** X3.  A request that carries the admin password, as a bearer token
    or in X-Admin-API-Key without an Authorization header, passes
    [requireAuth] whatever else is configured: a bearer text that is
    no valid JWT falls through to the password check. *)
Theorem X3_requireAuth_password (request : Request) (env : Env) (nowMs : Z)
    (p : jsstring) :
  ADMIN_PASSWORD env = Some p -> p <> [] ->
  headers_get (headers request) (js "Authorization") = Some (js "Bearer " ++ p) \/
  (headers_get (headers request) (js "Authorization") = None /\
   headers_get (headers request) (js "X-Admin-API-Key") = Some p) ->
  requireAuth request env nowMs = None.
Proof. apply password_bearer. Qed.

Lemma X3_requireAuth_password_witness :
  requireAuth password_request env_admin 1700000000000 = None.
Proof.
  apply (X3_requireAuth_password password_request env_admin 1700000000000 password).
  - reflexivity.
  - discriminate.
  - left. reflexivity.
Defined.

(** X4.  A value that [getCookieValue] returns holds neither [;] nor
    [=]: a cookie value with an [=] in it is cut at the first one. *)
Theorem X4_getCookieValue_chars (cookieHeader : option jsstring) (name v : jsstring) :
  getCookieValue cookieHeader name = Some v -> Forall cookie_char v.
Proof. apply cookie_chars. Qed.

Lemma X4_getCookieValue_chars_witness :
  getCookieValue (Some (js "a=1; adminSession=abc=def")) (js "adminSession")
    = Some (js "abc") /\
  Forall cookie_char (js "abc").
Proof.
  assert (H : getCookieValue (Some (js "a=1; adminSession=abc=def")) (js "adminSession")
              = Some (js "abc")) by (vm_compute; reflexivity).
  split; [exact H|].
  exact (X4_getCookieValue_chars _ _ _ H).
Defined.

(** X5.  The first cookie of a header is found under its name, alone
    or followed by others, when name and value hold no separator and
    no white space at the outer ends. *)
Theorem X5_getCookieValue_first (name value rest : jsstring) :
  name <> [] -> Forall cookie_char name -> Forall cookie_char value ->
  trimStart name = name -> trimEnd value = value ->
  getCookieValue (Some (name ++ js "=" ++ value)) name = Some value /\
  getCookieValue (Some (name ++ js "=" ++ value ++ js ";" ++ rest)) name = Some value.
Proof. apply getCookieValue_pair. Qed.

Lemma X5_getCookieValue_first_witness :
  getCookieValue (Some (js "adminSession=5f0c")) (js "adminSession") = Some (js "5f0c") /\
  getCookieValue (Some (js "adminSession=5f0c;theme=dark")) (js "adminSession")
    = Some (js "5f0c").
Proof.
  apply (X5_getCookieValue_first (js "adminSession") (js "5f0c") (js "theme=dark")).
  - discriminate.
  - vm_compute. repeat constructor; discriminate.
  - vm_compute. repeat constructor; discriminate.
  - reflexivity.
  - reflexivity.
Defined.

(** X6.  [validateReferer]: a non-empty Origin header decides alone,
    by membership in the allowed origins, and the Referer is not read;
    without one, the request passes exactly when its Referer begins
    with an allowed origin, whatever follows. *)
Theorem X6_validateReferer (request : Request) (env : Env) :
  (otruthy (headers_get (headers request) (js "Origin")) = true ->
   (validateReferer request env = true <->
    exists o, headers_get (headers request) (js "Origin") = Some o /\
              In o (allowedOrigins env))) /\
  (otruthy (headers_get (headers request) (js "Origin")) = false ->
   (validateReferer request env = true <->
    exists a rest, In a (allowedOrigins env) /\
                   headers_get (headers request) (js "Referer") = Some (a ++ rest))).
Proof. apply validateReferer_cases. Qed.

Lemma X6_validateReferer_witness :
  validateReferer lookalike_request production_env = true.
Proof.
  apply (X6_validateReferer lookalike_request production_env); [reflexivity|].
  exists (js "https://component-management.vercel.app"), (js ".example.net/").
  split; [now left | reflexivity].
Defined.

(** X7.  [requireAdminAuthWithRateLimit]: a client with five attempts
    on record inside the window is answered 429 whatever the request
    carries, and the attempt is counted; a success deletes the
    client's record; a refusal leaves a record stamped with the time
    of the call; the records of other clients are never touched. *)
Theorem X7_rate_limited_auth (request : Request) (env : Env)
    (nowMs : Z) (limiter : AuthRateLimiter.t) :
  (forall r, limiter !! clientIP request = Some r ->
     (nowMs - lastAttempt r <= windowMs)%Z -> (maxAttempts <= count r)%Z ->
     requireAdminAuthWithRateLimit request env nowMs limiter =
       (Some too_many_attempts,
        <[clientIP request := mkRecord (count r + 1) nowMs]> limiter)) /\
  (fst (requireAdminAuthWithRateLimit request env nowMs limiter) = None ->
     snd (requireAdminAuthWithRateLimit request env nowMs limiter)
       !! clientIP request = None) /\
  (forall response,
     fst (requireAdminAuthWithRateLimit request env nowMs limiter) = Some response ->
     exists c, snd (requireAdminAuthWithRateLimit request env nowMs limiter)
                 !! clientIP request = Some (mkRecord c nowMs)) /\
  (forall ip, ip <> clientIP request ->
     snd (requireAdminAuthWithRateLimit request env nowMs limiter) !! ip = limiter !! ip).
Proof. apply rate_limit_records. Qed.

Lemma X7_rate_limited_auth_witness :
  requireAuth password_request env_admin 1700000060000 = None /\
  fst (requireAdminAuthWithRateLimit password_request env_admin 1700000060000 locked)
    = Some too_many_attempts.
Proof.
  split; [vm_compute; reflexivity|].
  destruct (X7_rate_limited_auth password_request env_admin 1700000060000 locked)
    as [H _].
  rewrite (H (mkRecord 5 1700000000000)); [reflexivity | reflexivity | | ].
  - vm_compute. discriminate.
  - vm_compute. discriminate.
Defined.

(** X8.  With the tokens that the environment's manager issues: the
    access token is accepted by [validateJWT] while it has not
    expired, and [requireAuth] lets a request through that bears it;
    the refresh token is refused as a bearer credential with the
    status 401. *)
Theorem X8_bearer_token_kinds (env : Env) (s userId : jsstring) (issuedMs nowMs : Z) :
  JWT_SECRET env = Some s -> s <> [] -> latin1 userId ->
  clock (manager_of env s) issuedMs -> valid_at (manager_of env s) issuedMs nowMs ->
  exists tokens,
    JWTManager.bind (fromEnv env)
      (fun jwtManager => generateTokens jwtManager (Some (JStr userId)) None issuedMs)
      = inr tokens /\
    validateJWT (accessToken tokens) env nowMs = None /\
    (exists response,
       validateJWT (refreshToken tokens) env nowMs = Some response /\
       status response = 401%Z) /\
    (forall request,
       headers_get (headers request) (js "Authorization")
         = Some (js "Bearer " ++ accessToken tokens) ->
       requireAuth request env nowMs = None).
Proof. apply bearer_kinds. Qed.

Lemma X8_bearer_token_kinds_witness :
  exists tokens,
    JWTManager.bind (fromEnv env_with_jwt)
      (fun jwtManager => generateTokens jwtManager (Some (JStr admin)) None 1700000000123)
      = inr tokens /\
    validateJWT (accessToken tokens) env_with_jwt 1700000600000 = None /\
    (exists response,
       validateJWT (refreshToken tokens) env_with_jwt 1700000600000 = Some response /\
       status response = 401%Z) /\
    (forall request,
       headers_get (headers request) (js "Authorization")
         = Some (js "Bearer " ++ accessToken tokens) ->
       requireAuth request env_with_jwt 1700000600000 = None).
Proof.
  apply (X8_bearer_token_kinds env_with_jwt (js "secret") admin
           1700000000123 1700000600000).
  - reflexivity.
  - discriminate.
  - vm_compute. repeat constructor.
  - split; [vm_compute; reflexivity|].
    split; intros e He; vm_compute in He; injection He as <-; vm_compute; reflexivity.
  - split; intros e He; vm_compute in He; injection He as <-; vm_compute; discriminate.
Defined.

End GatewayExtras.

Module TokenExtras.
Import Regex JSONText JSValue Base64 WebCrypto JWTManager Auth.
Import TextSpec TokenSpec TokenShape AuthSpec TokenSamples ExtraSamples.
Import TokenFacts2.

(** X9.  [parseExpiry]: a decimal count followed by [s], [m], [h] or
    [d] gives the count times 1, 60, 3600 or 86400 seconds, as long
    as that product is below 2^53; the unit alone gives NaN, no finite
    number; a text that ends in another character, and the empty
    text, give 3600. *)
Theorem X9_parseExpiry (n u : N) (body : jsstring) :
  (forall k, unit_seconds u = Some k -> (Z.of_N n * k < 2 ^ 53)%Z ->
     parseExpiry (digits n ++ [u]) = Some (Z.of_N n * k)%Z) /\
  (forall k, unit_seconds u = Some k -> parseExpiry [u] = None) /\
  (unit_seconds u = None -> parseExpiry (body ++ [u]) = Some 3600%Z) /\
  parseExpiry [] = Some 3600%Z.
Proof. apply parseExpiry_cases. Qed.

Lemma X9_parseExpiry_witness :
  parseExpiry (js "15m") = Some 900%Z /\ parseExpiry (js "m") = None.
Proof.
  destruct (X9_parseExpiry 15 109 []) as (H & H0 & _).
  split; [exact (H 60%Z eq_refl eq_refl) | exact (H0 60%Z eq_refl)].
Defined.

(** X10.  The base64url encoding of [createJWT] succeeds exactly on
    the texts whose code units are all below 256; the result is made
    of letters, digits, [-] and [_] only, and the decoding of
    [verifyToken] gives the text back. *)
Theorem X10_base64url_round_trip (s : jsstring) :
  (latin1 s ->
   exists e, encodeBase64Url s = inr e /\ Forall url_safe e /\
             decodeBase64Url e = inr s) /\
  (~ latin1 s -> encodeBase64Url s = inl InvalidCharacterError).
Proof. apply base64url_cases. Qed.

(** X11.  Every pair that [generateTokens] returns holds two tokens in
    the compact form, three dot-separated parts of URL-safe
    characters, and states as [expiresIn] the access expiry parsed. *)
Theorem X11_generateTokens_compact (this : t) (userId : option json)
    (config : option TokenConfig.t) (nowMs : Z) (tokens : AuthTokens) :
  generateTokens this userId config nowMs = inr tokens ->
  compact (accessToken tokens) /\ compact (refreshToken tokens) /\
  expiresIn tokens =
    parseExpiry (or_else (option_map TokenConfig.accessTokenExpiry config)
                         (accessTokenExpiry this)).
Proof. apply generateTokens_parts. Qed.

Lemma X11_generateTokens_compact_witness :
  exists tokens,
    generateTokens manager (Some (JStr admin)) None 1700000000123 = inr tokens /\
    compact (accessToken tokens) /\ expiresIn tokens = Some 3600%Z.
Proof.
  destruct (generateTokens manager (Some (JStr admin)) None 1700000000123)
    as [e|tokens] eqn:E; [vm_compute in E; discriminate E|].
  exists tokens. split; [reflexivity|].
  destruct (X11_generateTokens_compact manager (Some (JStr admin)) None 1700000000123
              tokens E) as (Ha & _ & He).
  split; [exact Ha|]. rewrite He. reflexivity.
Defined.

(** X12.  When the tokens of a pair expire: verifying fails with the
    expired error exactly when an expiry was parsed, the [exp] it gave
    is not 0, and the clock's second is past it; verifying such a
    token fails with no other error. *)
Theorem X12_issued_token_expiry (this : t) (userId : jsstring) (issuedMs : Z) :
  secret this <> [] -> latin1 userId -> clock this issuedMs ->
  exists tokens,
    generateTokens this (Some (JStr userId)) None issuedMs = inr tokens /\
    (forall nowMs,
       verifyToken this (accessToken tokens) nowMs = inl JWTExpired <->
       exists e, parseExpiry (accessTokenExpiry this) = Some e /\
                 (seconds issuedMs + e <> 0)%Z /\
                 (seconds issuedMs + e < seconds nowMs)%Z) /\
    (forall nowMs,
       verifyToken this (refreshToken tokens) nowMs = inl JWTExpired <->
       exists e, parseExpiry (refreshTokenExpiry this) = Some e /\
                 (seconds issuedMs + e <> 0)%Z /\
                 (seconds issuedMs + e < seconds nowMs)%Z) /\
    (forall nowMs error,
       verifyToken this (accessToken tokens) nowMs = inl error \/
       verifyToken this (refreshToken tokens) nowMs = inl error ->
       error = JWTExpired).
Proof. apply issued_expiry. Qed.

Lemma X12_issued_token_expiry_witness :
  exists tokens,
    generateTokens manager (Some (JStr admin)) None 1700000000123 = inr tokens /\
    verifyToken manager (accessToken tokens) 1700003601000 = inl JWTExpired.
Proof.
  destruct (X12_issued_token_expiry manager admin 1700000000123)
    as (tokens & Hg & Ha & _).
  - discriminate.
  - vm_compute. repeat constructor.
  - split; [vm_compute; reflexivity|].
    split; intros e He; vm_compute in He; injection He as <-; vm_compute; reflexivity.
  - exists tokens. split; [exact Hg|]. apply Ha. exists 3600%Z.
    split; [reflexivity|]. split; vm_compute; [discriminate | reflexivity].
Defined.

End TokenExtras.

Module RouteExtras.
Import Regex JSONText JSValue Base64 WebCrypto JWTManager Auth AuthRoutes.
Import TextSpec TokenSpec TokenShape AuthSpec TokenSamples ExtraSamples.
Import RouteFacts RouteFacts2.

(** X13.  The login route answers 200 exactly when the CSRF guard
    passes, the body holds a string password equal to the configured
    non-empty admin password, and a namespace of sessions is bound; it
    then stores the session under the new identifier, and in every
    other case it leaves the namespace as it was. *)
Theorem X13_login (request : Request) (body : option json) (env : Env)
    (sessionId : jsstring) (createdAt tokenMs : Z) :
  (status (fst (login request body env sessionId createdAt tokenMs)) = 200%Z <->
   requireCSRFProtection request env = None /\
   exists b p sessions,
     body = Some b /\ prop b "password" = Some (JStr p) /\
     ADMIN_PASSWORD env = Some p /\ p <> [] /\ SESSIONS env = Some sessions) /\
  (status (fst (login request body env sessionId createdAt tokenMs)) = 200%Z ->
   exists sessions,
     SESSIONS env = Some sessions /\
     snd (login request body env sessionId createdAt tokenMs) =
       with_sessions env
         (<[sessionId := stringify (sessionData createdAt request)]> sessions)) /\
  (status (fst (login request body env sessionId createdAt tokenMs)) <> 200%Z ->
   snd (login request body env sessionId createdAt tokenMs) = env).
Proof.
  split; [split|split].
  - intros H. destruct (login_ok _ _ _ _ _ _ H)
      as (Hc & b & p & sessions & Hb & Hp & Ha & Hne & Hs & _).
    split; [exact Hc|]. now exists b, p, sessions.
  - intros (Hc & b & p & sessions & -> & Hp & Ha & Hne & Hs).
    now apply (login_accepts request b env sessionId p createdAt tokenMs sessions).
  - intros H. destruct (login_ok _ _ _ _ _ _ H)
      as (_ & b & p & sessions & _ & _ & _ & _ & Hs & Henv).
    now exists sessions.
  - apply login_refused.
Qed.

Lemma X13_login_witness :
  status (fst (login login_request (Some login_body) env_admin session_id
                 1700000000123 1700000000124)) = 200%Z.
Proof.
  apply (X13_login login_request (Some login_body) env_admin session_id
           1700000000123 1700000000124).
  split; [vm_compute; reflexivity|].
  exists login_body, password, ∅. repeat split. discriminate.
Defined.

(** X14.  After a login that answered 200, a request that sends back
    the session cookie is authenticated: [checkCookieAuth] accepts it,
    [requireAuth] lets it through, and the status route reports the
    session with the time of its creation. *)
Theorem X14_login_session (request : Request) (body : option json) (env : Env)
    (sessionId : jsstring) (createdAt tokenMs : Z) (later : Request) (nowMs : Z) :
  status (fst (login request body env sessionId createdAt tokenMs)) = 200%Z ->
  sessionId <> [] -> Forall cookie_char sessionId -> trimEnd sessionId = sessionId ->
  safe createdAt -> latin1 (clientIP request) ->
  headers_get (headers later) (js "Cookie") = Some (js "adminSession=" ++ sessionId) ->
  checkCookieAuth later (snd (login request body env sessionId createdAt tokenMs)) = true /\
  requireAuth later (snd (login request body env sessionId createdAt tokenMs)) nowMs = None /\
  session_status later (snd (login request body env sessionId createdAt tokenMs)) =
    respond 200 []
      [(js "authenticated", JBool true);
       (js "createdAt", JInt createdAt);
       (js "message", JStr (js "Valid session"))].
Proof. apply login_then_cookie. Qed.

Lemma X14_login_session_witness :
  checkCookieAuth cookie_request env_logged_in = true /\
  requireAuth cookie_request env_logged_in 1700000100000 = None.
Proof.
  destruct (X14_login_session login_request (Some login_body) env_admin session_id
              1700000000123 1700000000124 cookie_request 1700000100000)
    as (H1 & H2 & _).
  - vm_compute. reflexivity.
  - discriminate.
  - vm_compute. repeat constructor; discriminate.
  - vm_compute. reflexivity.
  - vm_compute. reflexivity.
  - vm_compute. repeat constructor.
  - reflexivity.
  - split; [exact H1 | exact H2].
Defined.

(** X15.  A logout that passes the CSRF guard deletes the session of
    its cookie and no other: afterwards the cookie authenticates no
    request.  A logout that the guard blocks is answered 403 and
    leaves the session in place. *)
Theorem X15_logout (request : Request) (env : Env) (sessions : gmap jsstring jsstring)
    (sessionId : jsstring) :
  SESSIONS env = Some sessions ->
  sessionId <> [] -> Forall cookie_char sessionId -> trimEnd sessionId = sessionId ->
  headers_get (headers request) (js "Cookie") = Some (js "adminSession=" ++ sessionId) ->
  (requireCSRFProtection request env = None ->
   status (fst (logout request env)) = 200%Z /\
   snd (logout request env) = with_sessions env (delete sessionId sessions) /\
   (forall later,
      headers_get (headers later) (js "Cookie") = Some (js "adminSession=" ++ sessionId) ->
      checkCookieAuth later (snd (logout request env)) = false) /\
   (forall other, other <> sessionId ->
      delete sessionId sessions !! other = sessions !! other)) /\
  (forall r, requireCSRFProtection request env = Some r ->
   status (fst (logout request env)) = 403%Z /\ snd (logout request env) = env).
Proof.
  intros Hs Hne Hc Ht Hcookie. split.
  - intros Hcsrf.
    rewrite (logout_deletes request env sessions sessionId Hcsrf Hs Hne Hc Ht Hcookie).
    cbn [fst snd]. split; [reflexivity|]. split; [reflexivity|]. split.
    + intros later Hlater.
      apply (checkCookieAuth_absent later _ (delete sessionId sessions) sessionId);
        auto. apply lookup_delete_eq.
    + intros other Hother. now apply lookup_delete_ne.
  - intros r Hr. destruct (logout_blocked request env r Hr) as [-> H403].
    split; [exact H403 | reflexivity].
Qed.

Lemma X15_logout_witness :
  checkCookieAuth cookie_request env_logged_in = true /\
  checkCookieAuth cookie_request (snd (logout logout_request env_logged_in)) = false.
Proof.
  split; [vm_compute; reflexivity|].
  destruct (X15_logout logout_request env_logged_in
              {[ session_id := stringify (sessionData 1700000000123 login_request) ]}
              session_id) as [H _].
  - vm_compute. reflexivity.
  - discriminate.
  - vm_compute. repeat constructor; discriminate.
  - vm_compute. reflexivity.
  - vm_compute. reflexivity.
  - destruct H as (_ & _ & H & _); [vm_compute; reflexivity|].
    apply H. reflexivity.
Defined.



(** X17.  The refresh route answers 501 when no JWT secret is
    configured and 400 when the body holds no token; it answers 200
    only if the body's token is a string that the manager verifies and
    whose kind is refresh. *)
Theorem X17_refresh_refusals (body : option json) (env : Env) (nowMs : Z) :
  (otruthy (JWT_SECRET env) = false -> status (refresh body env nowMs) = 501%Z) /\
  (otruthy (JWT_SECRET env) = true ->
   (forall b, body = Some b -> b <> JNull ->
      truthy_option (prop b "refreshToken") = false ->
      status (refresh body env nowMs) = 400%Z) /\
   (status (refresh body env nowMs) = 200%Z ->
      exists b token, body = Some b /\ prop b "refreshToken" = Some (JStr token) /\
        exists this payload,
          fromEnv env = inr this /\
          verifyToken this token nowMs = inr payload /\
          is_string (prop payload "type") "refresh" = true)).
Proof. apply refresh_refusals. Qed.

End RouteExtras.

Module AdminExtras.
Import JSONText JSValue JWTManager Auth AuthRateLimiter AdminRoutes.
Import AuthSpec TokenSamples ExtraSamples.
Import AdminGateFacts.

(** X18.  The middleware before the admin routes: an OPTIONS request
    goes on unchecked; another request that the CSRF guard refuses is
    answered 403 without an authentication attempt being counted; and
    a request that goes on to its handler has passed the guard and
    [requireAuth], its client's record being cleared. *)
Theorem X18_admin_gate (request : Request) (env : Env) (nowMs : Z)
    (limiter : AuthRateLimiter.t) :
  (method request = js "OPTIONS" -> gate request env nowMs limiter = (None, limiter)) /\
  (method request <> js "OPTIONS" ->
   (forall r, requireCSRFProtection request env = Some r ->
      gate request env nowMs limiter = (Some (forward env request r), limiter) /\
      status (forward env request r) = 403%Z) /\
   (fst (gate request env nowMs limiter) = None ->
      requireCSRFProtection request env = None /\
      requireAuth request env nowMs = None /\
      snd (gate request env nowMs limiter) !! clientIP request = None)).
Proof. apply gate_cases. Qed.

Lemma X18_admin_gate_witness :
  exists response,
    fst (gate (mkRequest (js "DELETE") (headers password_request)) env_admin
           1700000060000 ∅) = Some response /\
    status response = 403%Z.
Proof.
  destruct (X18_admin_gate (mkRequest (js "DELETE") (headers password_request)) env_admin
              1700000060000 ∅) as [_ H].
  destruct H as [H _]; [discriminate|].
  destruct (requireCSRFProtection (mkRequest (js "DELETE") (headers password_request))
              env_admin) as [r|] eqn:E; [|vm_compute in E; discriminate E].
  destruct (H r eq_refl) as [Hg Hs].
  exists (forward env_admin (mkRequest (js "DELETE") (headers password_request)) r).
  rewrite Hg. split; [reflexivity | exact Hs].
Defined.

(** X19.  The CORS origin of the admin and component routes: outside
    development it is the production origin whatever the request; it
    is another origin only in development, and then it is the
    request's own Origin header, which holds [localhost] or
    [127.0.0.1] somewhere in it. *)
Theorem X19_allowedOrigin (env : Env) (request : option Request) :
  (isDevelopment env = false -> allowedOrigin env request = production_origin) /\
  (allowedOrigin env request <> production_origin ->
   isDevelopment env = true /\
   exists r, request = Some r /\
     headers_get (headers r) (js "Origin") = Some (allowedOrigin env request) /\
     (includes (allowedOrigin env request) (js "localhost") = true \/
      includes (allowedOrigin env request) (js "127.0.0.1") = true)).
Proof. apply allowedOrigin_cases. Qed.

(** X20.  The CORS origin of the authentication routes is always one
    of the three allowed origins, and it is the request's origin when
    that is one of them. *)
Theorem X20_route_origin (origin : option jsstring) :
  exists allowed,
    headers_get (AuthRoutes.getCorsHeaders origin) (js "Access-Control-Allow-Origin")
      = Some allowed /\
    In allowed AuthRoutes.allowedOrigins /\
    (forall o, origin = Some o -> In o AuthRoutes.allowedOrigins -> allowed = o).
Proof. apply route_origin. Qed.

End AdminExtras.

Module ValidationExtras.
Import Regex RegexSyntax Sanitize Zod Validation PayloadSpec UpdateSpec ExtraSamples.
Import UpdateFacts.

(** X21.  What an accepted update returns: a field is returned exactly
    when the input has it, no default being filled in; name and
    category are trimmed and nothing else (angle brackets stay, unlike
    on the create path); html, css and js go through their
    sanitisers; tags are trimmed and the empty ones dropped; and there
    are no warnings. *)
Theorem X21_update_value (data : json) (d : UpdateComponentData) (w : list jsstring) :
  validateAndSanitizeUpdate data = Success d w ->
  exists fields, data = JObj fields /\
    u_name d = option_map trim (present_string (field fields "name")) /\
    u_category d = option_map trim (present_string (field fields "category")) /\
    u_html d = option_map sanitizeHTML (present_string (field fields "html")) /\
    u_css d = option_map sanitizeCSS (present_string (field fields "css")) /\
    u_js d = option_map sanitizeJS (present_string (field fields "js")) /\
    u_tags d = option_map (fun t => List.filter truthy (List.map trim t))
                          (present_tags (field fields "tags")) /\
    w = [] /\
    (u_name d = None <-> field fields "name" = None) /\
    (u_category d = None <-> field fields "category" = None) /\
    (u_html d = None <-> field fields "html" = None) /\
    (u_css d = None <-> field fields "css" = None) /\
    (u_js d = None <-> field fields "js" = None) /\
    (u_tags d = None <-> field fields "tags" = None).
Proof.
  intros H. destruct (update_value data d w H)
    as (fields & -> & Hn & Hc & Hh & Hs & Hj & Ht & Hw).
  exists fields. split; [reflexivity|].
  pose proof (update_presence fields d w H) as Hp.
  repeat (split; [assumption|]). exact Hp.
Qed.

Lemma X21_update_value_witness :
  exists d, validateAndSanitizeUpdate rename = Success d [] /\
    u_name d = Some (JS.js "<b>Card</b>") /\ u_category d = None /\ u_html d = None.
Proof.
  destruct (validateAndSanitizeUpdate rename) as [d w|] eqn:E;
    [|vm_compute in E; discriminate E].
  destruct (X21_update_value rename d w E)
    as (fields & Hf & Hn & Hc & Hh & _ & _ & _ & -> & _).
  injection Hf as <-.
  exists d. split; [reflexivity|]. rewrite Hn, Hc, Hh. repeat split.
Defined.

(** X22.  [encodeHTMLEntities] replaces each of [&], [<], [>], the
    double quote, ['] and [/] by its entity and keeps every other
    character: the result holds none of [<], [>], the quotes and [/],
    and a text without the six characters is returned as it is. *)
Theorem X22_encodeHTMLEntities (s : jsstring) :
  encodeHTMLEntities s = flat_map entity s /\
  forallb (fun x => negb (markup_char x)) (encodeHTMLEntities s) = true /\
  (forallb (fun x => negb (markup_char x || (x =? 38))) s = true ->
   encodeHTMLEntities s = s).
Proof.
  split; [apply encodeHTMLEntities_entity|].
  split; [apply encodeHTMLEntities_markup | apply encodeHTMLEntities_plain].
Qed.

End ValidationExtras.
